(** * Calculator core: expression validator and evaluator

    A shallow embedding of [utils/validators.py] and
    [utils/calculator_core.py], with the part of Python they rely on:
    strings, the [re] patterns they use, binary64 floats, and [eval]
    restricted to the alphabet the evaluator lets through.

    Strings are lists of characters with code points below 256, so that
    [\d] is the ten ASCII digits and [\s] is exactly the set for which
    [str.isspace] holds in that range. *)

From Stdlib Require Import List Ascii String ZArith QArith Qpower Qfield Bool.
From Stdlib Require Import Lia Arith.
From Stdlib Require Import SpecFloat.
Import ListNotations.

Local Close Scope Q_scope.
Local Open Scope string_scope.
Local Open Scope list_scope.

(** ** Python strings *)

Definition pystr := list ascii.

Definition pystr_of_string (s : string) : pystr := list_ascii_of_string s.
Coercion pystr_of_string : string >-> pystr.

Definition code (c : ascii) : N := N_of_ascii c.

(** [\d] on code points below 256. *)
Definition is_digit (c : ascii) : bool :=
  (48 <=? code c)%N && (code c <=? 57)%N.

(** [\s] and [str.isspace] on code points below 256: TAB, LF, VT, FF, CR,
    the separators FS GS RS US, SPACE, NEL and NBSP. *)
Definition is_space (c : ascii) : bool :=
  ((9 <=? code c)%N && (code c <=? 13)%N)
  || ((28 <=? code c)%N && (code c <=? 32)%N)
  || (code c =? 133)%N || (code c =? 160)%N.

(** [c in chars] for a one-character [c]; also the class [[chars]]. *)
Definition one_of (chars : string) (c : ascii) : bool :=
  existsb (Ascii.eqb c) (list_ascii_of_string chars).

Definition is_char (x : ascii) (c : ascii) : bool := Ascii.eqb c x.

Definition SPACE : ascii := " "%char.
Definition TAB : ascii := ascii_of_nat 9.
Definition LF : ascii := ascii_of_nat 10.
Definition FF : ascii := ascii_of_nat 12.
Definition CR : ascii := ascii_of_nat 13.

(** [s.lstrip()], [s.rstrip()], [s.strip()]. *)
Fixpoint lstrip (s : pystr) : pystr :=
  match s with
  | c :: s' => if is_space c then lstrip s' else s
  | [] => []
  end.

Definition rstrip (s : pystr) : pystr := rev (lstrip (rev s)).

Definition strip (s : pystr) : pystr := rstrip (lstrip s).

(** [s.replace(' ', '')]. *)
Definition remove_spaces (s : pystr) : pystr :=
  filter (fun c => negb (Ascii.eqb c SPACE)) s.

(** [s.count(c)] for a one-character [c]. *)
Definition count (c : ascii) (s : pystr) : nat :=
  List.length (filter (Ascii.eqb c) s).

(** ** Outcomes of a call

    A call returns a value or raises.  [Unmodelled] marks what lies outside
    the part of Python embedded here: [float] and [eval] on characters the
    program never passes them, and the results of [eval] that depend on the
    C library or the platform (float exponentiation and floor division, the
    index width). *)

Inductive pyexn : Type :=
| ValueError (msg : string)
| ZeroDivisionError (msg : string)
| IndexError (msg : string)
| SyntaxError
| TypeError
| OverflowError.

Inductive outcome (A : Type) : Type :=
| Return (v : A)
| Raise (e : pyexn)
| Unmodelled.

Arguments Return {A} v.
Arguments Raise {A} e.
Arguments Unmodelled {A}.

Definition bind {A B} (x : outcome A) (k : A -> outcome B) : outcome B :=
  match x with
  | Return v => k v
  | Raise e => Raise e
  | Unmodelled => Unmodelled
  end.

Notation "x <- e ;; k" := (bind e (fun x => k))
  (at level 61, e at next level, right associativity).

Definition is_some {A} (o : option A) : bool :=
  match o with Some _ => true | None => false end.

(** ** The fragment of [re] the program uses

    Every repetition in the four patterns is over a single character class,
    every lookahead tests a single class, and groups do not nest, so a
    pattern is an alternation of sequences of the items below.  Matching is
    by backtracking, greedy repetitions first, as in [re]. *)

Inductive item : Type :=
| Bol                                              (* ^ *)
| Eol                                              (* $ *)
| Rep (cls : ascii -> bool) (lo : nat) (hi : option nat)   (* cls{lo,hi} *)
| Open (g : nat)                                   (* ( of group g *)
| Close (g : nat)                                  (* ) of group g *)
| Ahead (positive : bool) (cls : ascii -> bool).   (* (?=cls) or (?!cls) *)

Definition regex := list (list item).

Definition star cls := Rep cls 0 None.
Definition plus cls := Rep cls 1 None.
Definition opt cls := Rep cls 0 (Some 1).
Definition one cls := Rep cls 1 (Some 1).
Definition at_least n cls := Rep cls n None.

Record mstate : Type := MState {
  rest : pystr;                      (* input still to be read *)
  opened : list (nat * pystr);       (* input left when a group was opened *)
  groups : list (nat * pystr)        (* text of the closed groups *)
}.

Definition set_rest (st : mstate) (s : pystr) : mstate :=
  MState s (opened st) (groups st).

Definition open_group (g : nat) (st : mstate) : mstate :=
  MState (rest st) ((g, rest st) :: opened st) (groups st).

Fixpoint lookup {A} (g : nat) (l : list (nat * A)) : option A :=
  match l with
  | [] => None
  | (g', x) :: l' => if Nat.eqb g g' then Some x else lookup g l'
  end.

Definition close_group (g : nat) (st : mstate) : mstate :=
  match lookup g (opened st) with
  | Some from =>
      MState (rest st) (opened st)
             ((g, firstn (List.length from - List.length (rest st)) from) :: groups st)
  | None => st
  end.

(** [$] matches at the end and just before a final newline. *)
Definition at_eol (s : pystr) : bool :=
  match s with
  | [] => true
  | [c] => Ascii.eqb c LF
  | _ => false
  end.

Definition next_is (cls : ascii -> bool) (s : pystr) : bool :=
  match s with
  | c :: _ => cls c
  | [] => false
  end.

Fixpoint rep_greedy {A} (cls : ascii -> bool) (lo : nat) (hi : option nat)
    (s : pystr) (k : pystr -> option A) {struct s} : option A :=
  let stop := match lo with O => k s | S _ => None end in
  match hi with
  | Some O => stop
  | _ =>
    match s with
    | c :: s' =>
        if cls c then
          match rep_greedy cls (pred lo) (option_map pred hi) s' k with
          | Some r => Some r
          | None => stop
          end
        else stop
    | [] => stop
    end
  end.

Fixpoint match_items (subject : pystr) (its : list item) (st : mstate)
    : option mstate :=
  match its with
  | [] => Some st
  | Bol :: its' =>
      if Nat.eqb (List.length (rest st)) (List.length subject)
      then match_items subject its' st else None
  | Eol :: its' =>
      if at_eol (rest st) then match_items subject its' st else None
  | Rep cls lo hi :: its' =>
      rep_greedy cls lo hi (rest st)
        (fun s' => match_items subject its' (set_rest st s'))
  | Open g :: its' => match_items subject its' (open_group g st)
  | Close g :: its' => match_items subject its' (close_group g st)
  | Ahead positive cls :: its' =>
      if Bool.eqb (next_is cls (rest st)) positive
      then match_items subject its' st else None
  end.

Fixpoint match_alts (subject : pystr) (r : regex) (s : pystr) : option mstate :=
  match r with
  | [] => None
  | its :: r' =>
      match match_items subject its (MState s [] []) with
      | Some m => Some m
      | None => match_alts subject r' s
      end
  end.

(** [re.match(r, s)]. *)
Definition re_match (r : regex) (s : pystr) : option mstate :=
  match_alts s r s.

Fixpoint search_from (subject : pystr) (r : regex) (s : pystr) : option mstate :=
  match match_alts subject r s with
  | Some m => Some m
  | None =>
      match s with
      | [] => None
      | _ :: s' => search_from subject r s'
      end
  end.

(** [re.search(r, s)]. *)
Definition re_search (r : regex) (s : pystr) : option mstate :=
  search_from s r s.

(** [m.group(g)]. *)
Definition group (m : mstate) (g : nat) : pystr :=
  match lookup g (groups m) with
  | Some s => s
  | None => []
  end.

(** ** utils/validators.py *)

(** [[\d+\-*/.()\s]] *)
Definition allowed_char (c : ascii) : bool :=
  is_digit c || one_of "+-*/.()" c || is_space c.

(** [r'^[\d+\-*/.()\s]+$'] *)
Definition valid_chars_pattern : regex :=
  [[Bol; plus allowed_char; Eol]].

(** [r'[+\*/]{2,}|--+(?!\d)|-{2,}(?=\d)'] *)
Definition operator_pattern : regex :=
  [ [at_least 2 (one_of "+*/")];
    [one (is_char "-"); plus (is_char "-"); Ahead false is_digit];
    [at_least 2 (is_char "-"); Ahead true is_digit] ].

(** [r'\d*\.\d*\.\d*'] *)
Definition decimal_pattern : regex :=
  [[star is_digit; one (is_char "."); star is_digit; one (is_char ".");
    star is_digit]].

Definition _has_invalid_syntax (expression : pystr) : outcome bool :=
  let expression := remove_spaces expression in
  if is_some (re_search operator_pattern expression) then Return true else
  match expression with
  | [] => Raise (IndexError "string index out of range")
  | first :: _ =>
      if one_of "+*/" first || one_of "+*/-" (last expression first)
      then Return true else
      if is_some (re_search decimal_pattern expression) then Return true else
      if negb (Nat.eqb (count "(" expression) (count ")" expression))
      then Return true else
      Return false
  end.

(** What a caller may pass where a string is expected. *)
Inductive pyobj : Type :=
| PyStr (s : pystr)
| PyNone
| PyOther (truthy : bool).

Definition validate_expression (expression : pyobj) : outcome bool :=
  match expression with
  | PyStr s =>
      if match s with [] => true | _ => false end then Return false else
      let expression := strip s in
      if negb (is_some (re_match valid_chars_pattern expression))
      then Return false else
      invalid <- _has_invalid_syntax expression ;;
      if invalid then Return false else Return true
  | PyNone => Return false
  | PyOther _ => Return false
  end.

Definition validate (s : pystr) : outcome bool := validate_expression (PyStr s).

(** ** Declarative meaning of a pattern, and the matcher against it *)

Inductive matches (subject : pystr) : list item -> mstate -> mstate -> Prop :=
| M_nil st : matches subject [] st st
| M_bol its st st' :
    List.length (rest st) = List.length subject ->
    matches subject its st st' ->
    matches subject (Bol :: its) st st'
| M_eol its st st' :
    at_eol (rest st) = true ->
    matches subject its st st' ->
    matches subject (Eol :: its) st st'
| M_rep cls lo hi its st st' p q :
    rest st = p ++ q ->
    forallb cls p = true ->
    lo <= List.length p ->
    (forall h, hi = Some h -> List.length p <= h) ->
    matches subject its (set_rest st q) st' ->
    matches subject (Rep cls lo hi :: its) st st'
| M_open g its st st' :
    matches subject its (open_group g st) st' ->
    matches subject (Open g :: its) st st'
| M_close g its st st' :
    matches subject its (close_group g st) st' ->
    matches subject (Close g :: its) st st'
| M_ahead positive cls its st st' :
    next_is cls (rest st) = positive ->
    matches subject its st st' ->
    matches subject (Ahead positive cls :: its) st st'.

(** ** Python floats: IEEE 754 binary64, round to nearest, ties to even *)

Definition float := spec_float.

Definition prec : Z := 53.
Definition emax : Z := 1024.

Definition fadd : float -> float -> float := SFadd prec emax.
Definition fsub : float -> float -> float := SFsub prec emax.
Definition fmul : float -> float -> float := SFmul prec emax.
Definition fdiv : float -> float -> float := SFdiv prec emax.
Definition fneg : float -> float := SFopp.

(** The float nearest to [n/d], with sign [neg]; infinite when [n/d] is
    beyond the largest float.  This is what the conversion of a decimal
    literal and the division of two integers both compute. *)
Definition nearest_float (neg : bool) (n : Z) (d : positive) : float :=
  match n with
  | Zpos p => SFdiv prec emax (S754_finite neg p 0) (S754_finite false d 0)
  | _ => S754_zero neg
  end.

(** [x == 0] for a float [x]. *)
Definition float_is_zero (x : float) : bool :=
  match x with
  | S754_zero _ => true
  | _ => false
  end.

(** [x.is_integer()]. *)
Definition is_integer (x : float) : bool :=
  match x with
  | S754_zero _ => true
  | S754_finite _ m e => (0 <=? e)%Z || (Zpos m mod 2 ^ (- e) =? 0)%Z
  | _ => false
  end.

(** [int(x)]: truncation towards zero. *)
Definition int_of_float (x : float) : outcome Z :=
  match x with
  | S754_zero _ => Return 0%Z
  | S754_finite s m e =>
      Return (cond_Zopp s (if (0 <=? e)%Z then Zpos m * 2 ^ e
                           else Zpos m / 2 ^ (- e)))%Z
  | S754_infinity _ => Raise OverflowError
  | S754_nan => Raise (ValueError "cannot convert float NaN to integer")
  end.

(** [float(z)] for an integer [z]. *)
Definition float_of_int (z : Z) : outcome float :=
  match binary_normalize prec emax z 0 false with
  | S754_infinity _ => Raise OverflowError
  | x => Return x
  end.

(** The integer nearest to [num/den], ties to even. *)
Definition round_half_even (num den : Z) : Z :=
  let q := (num / den)%Z in
  match (2 * (num mod den) ?= den)%Z with
  | Lt => q
  | Gt => (q + 1)%Z
  | Eq => if Z.even q then q else (q + 1)%Z
  end.

(** [round(x, ndigits)] for a float [x] and [0 <= ndigits <= 323]: the exact
    value of [x] is rounded to [ndigits] decimals, ties to even, and the
    decimal obtained is converted back to the nearest float.  Infinities and
    NaN round to themselves. *)
Definition py_round (x : float) (ndigits : nat) : float :=
  match x with
  | S754_finite s m e =>
      let scale := (10 ^ Z.of_nat ndigits)%Z in
      let n := if (0 <=? e)%Z
               then (Zpos m * 2 ^ e * scale)%Z
               else round_half_even (Zpos m * scale) (2 ^ (- e)) in
      nearest_float s n (Z.to_pos scale)
  | _ => x
  end.

Definition digit_value (c : ascii) : Z := (Z.of_N (code c) - 48)%Z.

(** The integer written by a string of digits. *)
Definition int_of_digits (ds : pystr) : Z :=
  fold_left (fun acc c => (10 * acc + digit_value c)%Z) ds 0%Z.

Fixpoint take_digits (s : pystr) : pystr :=
  match s with
  | c :: s' => if is_digit c then c :: take_digits s' else []
  | [] => []
  end.

Fixpoint drop_digits (s : pystr) : pystr :=
  match s with
  | c :: s' => if is_digit c then drop_digits s' else s
  | [] => []
  end.

(** The float written by the integer part [ip] and the fraction [fp]. *)
Definition float_of_decimal (ip fp : pystr) : float :=
  nearest_float false (int_of_digits (ip ++ fp))
                (Z.to_pos (10 ^ Z.of_nat (List.length fp))).

(** [float(s)] on strings of digits and dots: the nearest float when [s] is
    a decimal literal (digits, possibly one dot, at least one digit), and
    [ValueError] otherwise.  Strings with other characters are not modelled;
    the fast path never passes one. *)
Definition py_float (s : pystr) : outcome float :=
  if negb (forallb (fun c => is_digit c || is_char "." c) s) then Unmodelled
  else
    let ip := take_digits s in
    match drop_digits s with
    | [] =>
        match ip with
        | [] => Raise (ValueError "could not convert string to float")
        | _ => Return (float_of_decimal ip [])
        end
    | _ :: fp =>
        if forallb is_digit fp &&
           negb (match ip, fp with [], [] => true | _, _ => false end)
        then Return (float_of_decimal ip fp)
        else Raise (ValueError "could not convert string to float")
    end.

(** ** Python values that [eval] can produce over the evaluator's alphabet *)

Inductive pyvalue : Type :=
| PyInt (z : Z)
| PyFloat (x : float)
| PyEmptyTuple                 (* [()] *)
| PyEllipsis.                  (* [...] *)

Definition is_numeric (v : pyvalue) : bool :=
  match v with
  | PyInt _ | PyFloat _ => true
  | _ => false
  end.

(** ** [eval] on the evaluator's alphabet

    Tokens, grammar and arithmetic of Python expressions written with digits,
    [+ - * / . ( )] and whitespace.  Besides the four operators this alphabet
    also spells [**], [//], the empty tuple [()], the ellipsis [...] and
    calls [f(x)], and [eval] accepts them all.  Limits of the interpreter
    (nesting depth, memory, length of an integer literal) are not part of the
    model. *)

Inductive token : Type :=
| NUMBER (v : pyvalue)
| PLUS | MINUS | STAR | SLASH | DOUBLESTAR | DOUBLESLASH
| LPAR | RPAR | DOT | ELLIPSIS | NEWLINE.

Definition all_zero (ds : pystr) : bool := forallb (is_char "0") ds.

(** A number at the head of [s], which starts with a digit or with a dot
    followed by a digit: digits, then optionally a dot and digits.  Without
    a dot it is an integer, which may not have a leading zero unless it is
    all zeros. *)
Definition scan_number (s : pystr) : outcome (token * pystr) :=
  let ip := take_digits s in
  match drop_digits s with
  | "."%char :: r =>
      let fp := take_digits r in
      Return (NUMBER (PyFloat (float_of_decimal ip fp)), drop_digits r)
  | r =>
      match ip with
      | "0"%char :: _ :: _ =>
          if all_zero ip then Return (NUMBER (PyInt 0), r) else Raise SyntaxError
      | _ => Return (NUMBER (PyInt (int_of_digits ip)), r)
      end
  end.

(** Column reached by the blanks at the start of a line, and what follows. *)
Fixpoint indentation (col : nat) (s : pystr) : nat * pystr :=
  match s with
  | c :: s' =>
      if Ascii.eqb c SPACE then indentation (S col) s'
      else if Ascii.eqb c TAB then indentation ((col / 8 + 1) * 8) s'
      else if Ascii.eqb c FF then indentation 0 s'
      else (col, s)
  | [] => (col, [])
  end.

Definition is_newline (c : ascii) : bool := Ascii.eqb c LF || Ascii.eqb c CR.

(** The operator or delimiter at the head of [s], the longest first. *)
Definition punctuation (s : pystr) : option (token * pystr) :=
  match s with
  | "."%char :: "."%char :: "."%char :: s' => Some (ELLIPSIS, s')
  | "."%char :: s' => Some (DOT, s')
  | "*"%char :: "*"%char :: s' => Some (DOUBLESTAR, s')
  | "/"%char :: "/"%char :: s' => Some (DOUBLESLASH, s')
  | "+"%char :: s' => Some (PLUS, s')
  | "-"%char :: s' => Some (MINUS, s')
  | "*"%char :: s' => Some (STAR, s')
  | "/"%char :: s' => Some (SLASH, s')
  | "("%char :: s' => Some (LPAR, s')
  | ")"%char :: s' => Some (RPAR, s')
  | _ => None
  end.

(** The tokenizer.  [level] is the depth of open parentheses and [atbol]
    tells that a line starts here.  Blank lines produce nothing, a line break
    inside parentheses is white space, and outside them it ends the logical
    line.  An indented first token is an [IndentationError], a
    [SyntaxError], and so are blanks that end the source after a line break
    with no line break after them, a closing parenthesis that closes nothing
    and a character of the alphabet that starts no token.  With [fuel] above
    twice the length of the input the fuel is never used up
    ([tokenize_fuel]). *)
Fixpoint tokenize (fuel : nat) (level : nat) (atbol : bool) (s : pystr)
    : outcome (list token) :=
  match fuel with
  | O => Unmodelled
  | S fuel =>
    if atbol then
      let '(col, s1) := indentation 0 s in
      match s1 with
      | [] =>
          if Nat.eqb level 0 && negb (Nat.eqb col 0) then Raise SyntaxError
          else Return []
      | c :: s2 =>
          if is_newline c then tokenize fuel level true s2
          else if Nat.eqb level 0 && negb (Nat.eqb col 0) then Raise SyntaxError
          else tokenize fuel level false s1
      end
    else
      match s with
      | [] => Return []
      | c :: s1 =>
          if Ascii.eqb c SPACE || Ascii.eqb c TAB || Ascii.eqb c FF
          then tokenize fuel level false s1
          else if is_newline c then
            if Nat.eqb level 0
            then ts <- tokenize fuel level true s1 ;; Return (NEWLINE :: ts)
            else tokenize fuel level true s1
          else if is_digit c || (is_char "." c && next_is is_digit s1) then
            r <- scan_number s ;;
            ts <- tokenize fuel level false (snd r) ;; Return (fst r :: ts)
          else
            match punctuation s with
            | Some (LPAR, s') =>
                ts <- tokenize fuel (S level) false s' ;; Return (LPAR :: ts)
            | Some (RPAR, s') =>
                match level with
                | O => Raise SyntaxError
                | S level' =>
                    ts <- tokenize fuel level' false s' ;; Return (RPAR :: ts)
                end
            | Some (t, s') =>
                ts <- tokenize fuel level false s' ;; Return (t :: ts)
            | None => if allowed_char c then Raise SyntaxError else Unmodelled
            end
      end
  end.

Inductive unop : Type := UAdd | USub.

Inductive binop : Type := Add | Sub | Mult | Div | FloorDiv | Pow.

(** The one argument a call can have without a comma. *)
Inductive argform : Type := Plain | Starred | DoubleStarred.

Inductive expr : Type :=
| Constant (v : pyvalue)
| UnaryOp (op : unop) (operand : expr)
| BinOp (lhs : expr) (op : binop) (rhs : expr)
| Call0 (func : expr)                               (* [func()] *)
| Call1 (func : expr) (form : argform) (arg : expr). (* [func(arg)] *)

Inductive presult : Type :=
| Parsed (e : expr) (rest : list token)
| NoParse
| NoFuel.

(** Binding strength of the binary operators; the operand of a unary
    operator is read at strength 3, which [**] exceeds, so that [-2**2] is
    [-(2**2)]. *)
Definition binary (t : token) : option (binop * nat) :=
  match t with
  | PLUS => Some (Add, 1)
  | MINUS => Some (Sub, 1)
  | STAR => Some (Mult, 2)
  | SLASH => Some (Div, 2)
  | DOUBLESLASH => Some (FloorDiv, 2)
  | DOUBLESTAR => Some (Pow, 4)
  | _ => None
  end.

(** Strength at which the right operand of a binary operator is read: one
    more for the left-associative ones, a unary-level operand for [**]. *)
Definition right_strength (op : binop) (p : nat) : nat :=
  match op with
  | Pow => 3
  | _ => S p
  end.

Definition expect_rpar (r : presult) (k : expr -> list token -> presult) : presult :=
  match r with
  | Parsed e (RPAR :: rest) => k e rest
  | Parsed _ _ => NoParse
  | other => other
  end.

(** The parser, by precedence climbing: [parse_operand] reads an atom or a
    unary operator with its operand, [parse_rest] then reads trailing calls
    and the binary operators of strength at least [minp].  With [fuel] above
    the number of tokens the fuel is never used up ([parse_fuel]). *)
Fixpoint parse_operand (fuel : nat) (minp : nat) (ts : list token) : presult :=
  match fuel with
  | O => NoFuel
  | S fuel =>
    match ts with
    | NUMBER v :: rest => parse_rest fuel minp (Constant v) rest
    | ELLIPSIS :: rest => parse_rest fuel minp (Constant PyEllipsis) rest
    | LPAR :: RPAR :: rest => parse_rest fuel minp (Constant PyEmptyTuple) rest
    | LPAR :: rest =>
        expect_rpar (parse_operand fuel 0 rest)
                    (fun e rest' => parse_rest fuel minp e rest')
    | PLUS :: rest =>
        match parse_operand fuel 3 rest with
        | Parsed e rest' => parse_rest fuel minp (UnaryOp UAdd e) rest'
        | other => other
        end
    | MINUS :: rest =>
        match parse_operand fuel 3 rest with
        | Parsed e rest' => parse_rest fuel minp (UnaryOp USub e) rest'
        | other => other
        end
    | _ => NoParse
    end
  end
with parse_rest (fuel : nat) (minp : nat) (lhs : expr) (ts : list token)
    : presult :=
  match fuel with
  | O => NoFuel
  | S fuel =>
    match ts with
    | LPAR :: RPAR :: rest => parse_rest fuel minp (Call0 lhs) rest
    | LPAR :: STAR :: rest =>
        expect_rpar (parse_operand fuel 0 rest)
          (fun e rest' => parse_rest fuel minp (Call1 lhs Starred e) rest')
    | LPAR :: DOUBLESTAR :: rest =>
        expect_rpar (parse_operand fuel 0 rest)
          (fun e rest' =>
             parse_rest fuel minp (Call1 lhs DoubleStarred e) rest')
    | LPAR :: rest =>
        expect_rpar (parse_operand fuel 0 rest)
          (fun e rest' => parse_rest fuel minp (Call1 lhs Plain e) rest')
    | t :: rest =>
        match binary t with
        | Some (op, p) =>
            if Nat.leb minp p then
              match parse_operand fuel (right_strength op p) rest with
              | Parsed rhs rest' =>
                  parse_rest fuel minp (BinOp lhs op rhs) rest'
              | other => other
              end
            else Parsed lhs ts
        | None => Parsed lhs ts
        end
    | [] => Parsed lhs ts
    end
  end.

(** Arithmetic of [eval]'s values. *)

Definition float_binop (op : binop) (x y : float) : outcome pyvalue :=
  match op with
  | Add => Return (PyFloat (fadd x y))
  | Sub => Return (PyFloat (fsub x y))
  | Mult => Return (PyFloat (fmul x y))
  | Div =>
      if float_is_zero y then Raise (ZeroDivisionError "float division by zero")
      else Return (PyFloat (fdiv x y))
  | FloorDiv =>
      if float_is_zero y
      then Raise (ZeroDivisionError "float floor division by zero")
      else Unmodelled
  | Pow => Unmodelled
  end.

Definition int_binop (op : binop) (a b : Z) : outcome pyvalue :=
  match op with
  | Add => Return (PyInt (a + b))
  | Sub => Return (PyInt (a - b))
  | Mult => Return (PyInt (a * b))
  | Div =>
      if (b =? 0)%Z then Raise (ZeroDivisionError "division by zero")
      else
        match nearest_float (xorb (a <? 0)%Z (b <? 0)%Z) (Z.abs a)
                            (Z.to_pos (Z.abs b)) with
        | S754_infinity _ => Raise OverflowError
        | x => Return (PyFloat x)
        end
  | FloorDiv =>
      if (b =? 0)%Z
      then Raise (ZeroDivisionError "integer division or modulo by zero")
      else Return (PyInt (a / b))
  | Pow =>
      if (0 <=? b)%Z then Return (PyInt (a ^ b))
      else if (a =? 0)%Z
      then Raise (ZeroDivisionError "0.0 cannot be raised to a negative power")
      else Unmodelled
  end.

(** [() * n]: empty, or [OverflowError] when [n] does not fit the index
    type, whose width is that of the platform. *)
Definition repeat_empty_tuple (n : Z) : outcome pyvalue :=
  if ((- 2 ^ 31 <=? n) && (n <? 2 ^ 31))%Z then Return PyEmptyTuple
  else if ((- 2 ^ 63 <=? n) && (n <? 2 ^ 63))%Z then Unmodelled
  else Raise OverflowError.

Definition apply_binop (op : binop) (l r : pyvalue) : outcome pyvalue :=
  match l, r with
  | PyInt a, PyInt b => int_binop op a b
  | PyInt a, PyFloat y => x <- float_of_int a ;; float_binop op x y
  | PyFloat x, PyInt b => y <- float_of_int b ;; float_binop op x y
  | PyFloat x, PyFloat y => float_binop op x y
  | PyEmptyTuple, PyEmptyTuple =>
      match op with Add => Return PyEmptyTuple | _ => Raise TypeError end
  | PyEmptyTuple, PyInt n | PyInt n, PyEmptyTuple =>
      match op with Mult => repeat_empty_tuple n | _ => Raise TypeError end
  | _, _ => Raise TypeError
  end.

Definition apply_unop (op : unop) (v : pyvalue) : outcome pyvalue :=
  match op, v with
  | UAdd, PyInt a => Return (PyInt a)
  | UAdd, PyFloat x => Return (PyFloat x)
  | USub, PyInt a => Return (PyInt (- a))
  | USub, PyFloat x => Return (PyFloat (fneg x))
  | _, _ => Raise TypeError
  end.

(** Evaluation, operands left to right.  No value here is callable: a call
    evaluates the function and the argument and raises [TypeError]. *)
Fixpoint eval_expr (e : expr) : outcome pyvalue :=
  match e with
  | Constant v => Return v
  | UnaryOp op operand => v <- eval_expr operand ;; apply_unop op v
  | BinOp lhs op rhs =>
      l <- eval_expr lhs ;; r <- eval_expr rhs ;; apply_binop op l r
  | Call0 func => _ <- eval_expr func ;; Raise TypeError
  | Call1 func _ arg => _ <- eval_expr func ;; _ <- eval_expr arg ;; Raise TypeError
  end.

(** [eval] first skips leading spaces and tabs. *)
Fixpoint skip_blanks (s : pystr) : pystr :=
  match s with
  | c :: s' => if Ascii.eqb c SPACE || Ascii.eqb c TAB then skip_blanks s' else s
  | [] => []
  end.

(** The grammar of [eval]: one expression, then only line ends. *)
Definition parse (ts : list token) : outcome expr :=
  match parse_operand (2 * List.length ts + 2) 0 ts with
  | Parsed e rest =>
      if forallb (fun t => match t with NEWLINE => true | _ => false end) rest
      then Return e else Raise SyntaxError
  | NoParse => Raise SyntaxError
  | NoFuel => Unmodelled
  end.

(** [eval(source, {"__builtins__": {}}, {})]. *)
Definition py_eval (source : pystr) : outcome pyvalue :=
  let source := skip_blanks source in
  ts <- tokenize (2 * List.length source + 2) 0 true source ;;
  e <- parse ts ;;
  eval_expr e.

(** ** utils/calculator_core.py *)

(** [r'^(\d*\.?\d+)\s*([+\-*/])\s*(\d*\.?\d+)$'] *)
Definition fast_pattern : regex :=
  [[Bol;
    Open 1; star is_digit; opt (is_char "."); plus is_digit; Close 1;
    star is_space;
    Open 2; one (one_of "+-*/"); Close 2;
    star is_space;
    Open 3; star is_digit; opt (is_char "."); plus is_digit; Close 3;
    Eol]].

(** [operator.truediv] on floats. *)
Definition truediv (x y : float) : outcome float :=
  if float_is_zero y then Raise (ZeroDivisionError "float division by zero")
  else Return (fdiv x y).

(** [self.operators]: the table of the four operators, keyed by symbol. *)
Definition operators : list (pystr * (float -> float -> outcome float)) :=
  [ (pystr_of_string "+", fun x y => Return (fadd x y));
    (pystr_of_string "-", fun x y => Return (fsub x y));
    (pystr_of_string "*", fun x y => Return (fmul x y));
    (pystr_of_string "/", truediv) ].

(** Equality of strings, [a == b]. *)
Fixpoint pystr_eqb (a b : pystr) : bool :=
  match a, b with
  | [], [] => true
  | c :: a', d :: b' => Ascii.eqb c d && pystr_eqb a' b'
  | _, _ => false
  end.

Fixpoint get {A} (table : list (pystr * A)) (key : pystr) : option A :=
  match table with
  | [] => None
  | (k, x) :: table' => if pystr_eqb key k then Some x else get table' key
  end.

(** [int(result) if result.is_integer() else round(result, 10)] *)
Definition format_result (result : float) : outcome pyvalue :=
  if is_integer result then z <- int_of_float result ;; Return (PyInt z)
  else Return (PyFloat (py_round result 10)).

Definition _safe_eval (expression : pystr) : outcome pyvalue :=
  if negb (is_some (re_match valid_chars_pattern expression))
  then Raise (ValueError "Expression contains invalid characters")
  else
    match py_eval expression with
    | Return v => Return v
    | Raise _ => Raise (ValueError "Invalid expression format")
    | Unmodelled => Unmodelled
    end.

Definition evaluate (expression : pystr) : outcome pyvalue :=
  let expression := remove_spaces expression in
  match expression with
  | [] => Raise (ValueError "Empty expression")
  | _ =>
    match re_match fast_pattern expression with
    | Some m =>
        left_operand <- py_float (group m 1) ;;
        let operator_symbol := group m 2 in
        right_operand <- py_float (group m 3) ;;
        match get operators operator_symbol with
        | None =>
            Raise (ValueError ("Unsupported operator: "
                               ++ string_of_list_ascii operator_symbol))
        | Some apply =>
            if pystr_eqb operator_symbol "/" && float_is_zero right_operand
            then Raise (ZeroDivisionError "Division by zero")
            else
              result <- apply left_operand right_operand ;;
              format_result result
        end
    | None => _safe_eval expression
    end
  end.

(** ** The errors of the specification *)

Inductive EvaluationError : Type :=
| EmptyExpression
| UnsupportedOperator
| DivisionByZero
| InvalidFormat.

(** [msg.startswith(p)]. *)
Fixpoint starts_with (p msg : string) : bool :=
  match p with
  | EmptyString => true
  | String a p' =>
      match msg with
      | String b msg' => Ascii.eqb a b && starts_with p' msg'
      | EmptyString => false
      end
  end.

(** Which error of the specification an exception of [evaluate] is. *)
Definition error_kind (e : pyexn) : option EvaluationError :=
  match e with
  | ZeroDivisionError _ => Some DivisionByZero
  | ValueError msg =>
      if String.eqb msg "Empty expression" then Some EmptyExpression
      else if String.eqb msg "Expression contains invalid characters"
           || String.eqb msg "Invalid expression format"
      then Some InvalidFormat
      else if starts_with "Unsupported operator: " msg
      then Some UnsupportedOperator
      else None
  | _ => None
  end.

(** [fails_with o k]: the call raised, with the error [k]. *)
Definition fails_with {A} (o : outcome A) (k : EvaluationError) : Prop :=
  exists e, o = Raise e /\ error_kind e = Some k.

(** ** Vocabulary of the statements about the fast path *)

(** The characters of a literal. *)
Definition numchar (c : ascii) : bool := is_digit c || is_char "." c.

(** A sign-less decimal literal: what [\d*\.?\d+] matches in full. *)
Definition number_literal (a : pystr) : bool :=
  match drop_digits a with
  | [] => match a with [] => false | _ => true end
  | c :: fp =>
      is_char "." c && forallb is_digit fp
      && match fp with [] => false | _ => true end
  end.

(** The float that [float] gives for a literal. *)
Definition literal_float (a : pystr) : float :=
  float_of_decimal (take_digits a) (tl (drop_digits a)).

(** The float operation that a symbol of [+ - * /] stands for. *)
Definition float_op (op : ascii) (x y : float) : float :=
  if is_char "+" op then fadd x y
  else if is_char "-" op then fsub x y
  else if is_char "*" op then fmul x y
  else fdiv x y.

Definition integer_value (x : float) : Z :=
  match x with
  | S754_finite s m e =>
      cond_Zopp s (if (0 <=? e)%Z then Zpos m * 2 ^ e else Zpos m / 2 ^ (- e))%Z
  | _ => 0%Z
  end.

(** The result for a float [x]: the integer [x] when [x] is integral, and
    otherwise [x] rounded to 10 decimals. *)
Definition formatted (x : float) : pyvalue :=
  if is_integer x then PyInt (integer_value x) else PyFloat (py_round x 10).

(** Exact values, as rationals. *)
Definition literal_value (a : pystr) : Q :=
  Qmake (int_of_digits (take_digits a ++ tl (drop_digits a)))
        (Z.to_pos (10 ^ Z.of_nat (List.length (tl (drop_digits a))))).

Definition exact_op (op : ascii) (x y : Q) : Q :=
  if is_char "+" op then Qplus x y
  else if is_char "-" op then Qminus x y
  else if is_char "*" op then Qmult x y
  else Qdiv x y.

Definition float_value (x : float) : option Q :=
  match x with
  | S754_zero _ => Some (Qmake 0 1)
  | S754_finite s m e =>
      Some (if (0 <=? e)%Z then Qmake (cond_Zopp s (Zpos m * 2 ^ e)) 1
            else Qmake (cond_Zopp s (Zpos m)) (Z.to_pos (2 ^ (- e))))
  | _ => None
  end.

Definition value_of (v : pyvalue) : option Q :=
  match v with
  | PyInt z => Some (Qmake z 1)
  | PyFloat x => float_value x
  | _ => None
  end.

(** ** routes/calculator_routes.py, the part that guards [evaluate]

    The handler of [/calculate] without the storage and the JSON encoding:
    it trims the expression, answers 400 when the validator rejects it, and
    otherwise evaluates it; the exceptions raised on the way are mapped to
    answers. *)

Record response : Type := Response {
  status : nat;
  error : option string;
  message : option string;
  result : option pyvalue
}.

(** The [except] clauses of the handler, in their order. *)
Definition handle_exception (e : pyexn) : response :=
  match e with
  | ZeroDivisionError _ =>
      Response 400 (Some "Division by zero") (Some "Cannot divide by zero") None
  | ValueError msg => Response 400 (Some "Invalid calculation") (Some msg) None
  | _ =>
      Response 500 (Some "Calculation failed")
               (Some "An unexpected error occurred") None
  end.

Definition calculate (expression : pystr) : outcome response :=
  let expression := strip expression in
  let body :=
    valid <- validate_expression (PyStr expression) ;;
    if negb valid
    then Return (Response 400 (Some "Invalid expression")
                   (Some "Expression contains invalid characters or syntax")
                   None)
    else
      v <- evaluate expression ;;
      Return (Response 200 None None (Some v)) in
  match body with
  | Return r => Return r
  | Raise e => Return (handle_exception e)
  | Unmodelled => Unmodelled
  end.

(** [is_exact o a op b]: the call returned, and the value returned is the
    exact value of [a op b]. *)
Definition is_exact (o : outcome pyvalue) (a : pystr) (op : ascii) (b : pystr)
    : bool :=
  match o with
  | Return v =>
      match value_of v with
      | Some q => Qeq_bool q (exact_op op (literal_value a) (literal_value b))
      | None => false
      end
  | _ => false
  end.

(** ** Binary64 numbers as rationals

    [dyadic m e] is [m * 2^e].  The finite binary64 numbers are the
    [dyadic m e] with [|m| < 2^53] and [-1074 <= e <= 971], the subnormal
    ones included. *)

Definition pow2 (e : Z) : Q := Qpower 2 e.

Definition dyadic (m e : Z) : Q := (inject_Z m * pow2 e)%Q.

Definition binary64 (m e : Z) : bool :=
  (Z.abs m <? 2 ^ 53)%Z && (-1074 <=? e)%Z && (e <=? 971)%Z.

Definition representable (q : Q) : Prop :=
  exists V E : Z, binary64 V E = true /\ (q == dyadic V E)%Q.

(** The value of a finite float. *)
Definition fval (x : float) : Q :=
  match x with
  | S754_finite s m e => dyadic (cond_Zopp s (Zpos m)) e
  | _ => 0%Q
  end.

(** Zero, or a finite float whose mantissa and exponent are those of the
    format. *)
Definition canonical (x : float) : Prop :=
  match x with
  | S754_zero _ => True
  | S754_finite _ m e => bounded prec emax m e = true
  | _ => False
  end.

(** ** Vocabulary of the statements about the parser's fuel *)

(** With [fuel] above the number of tokens, [parse_operand] does not run out
    of fuel and reads at least one token. *)
Definition operand_ok (fuel : nat) : Prop :=
  forall minp ts, List.length ts < fuel ->
    parse_operand fuel minp ts <> NoFuel /\
    forall e rest, parse_operand fuel minp ts = Parsed e rest ->
                   List.length rest < List.length ts.

(** The same for [parse_rest], which may read nothing. *)
Definition rest_ok (fuel : nat) : Prop :=
  forall minp lhs ts, List.length ts < fuel ->
    parse_rest fuel minp lhs ts <> NoFuel /\
    forall e rest, parse_rest fuel minp lhs ts = Parsed e rest ->
                   List.length rest <= List.length ts.

(** ** The rest of utils/validators.py and of the routes *)

(** [0-9] in a character class. *)
Definition in_0_9 (c : ascii) : bool :=
  (N_of_ascii "0" <=? code c)%N && (code c <=? N_of_ascii "9")%N.

(** [[^0-9+\-*/.()\s]]: the characters that [sanitize_expression] removes. *)
Definition dangerous_char (c : ascii) : bool :=
  negb (in_0_9 c || one_of "+-*/.()" c || is_space c).

(** [re.sub(cls, '', s)] for a pattern [cls] that is one character class:
    every character of the class is removed. *)
Definition re_sub_delete (cls : ascii -> bool) (s : pystr) : pystr :=
  filter (fun c => negb (cls c)) s.

Definition sanitize_expression (expression : pystr) : pystr :=
  let expression := re_sub_delete dangerous_char expression in
  strip expression.

(** The handler of [/validate]: the trimmed expression and the verdict. *)
Definition validate_expression_route (expression : pystr)
    : outcome (pystr * bool) :=
  let expression := strip expression in
  is_valid <- validate_expression (PyStr expression) ;;
  Return (expression, is_valid).

(** ** A reading of the validator without patterns *)

(** A pair of characters that the operator pattern does not allow side by
    side. *)
Definition operator_pair (c1 c2 : ascii) : bool :=
  (one_of "+*/" c1 && one_of "+*/" c2) || (is_char "-" c1 && is_char "-" c2).

(** Two adjacent operators of [+ * /], or two adjacent minus signs. *)
Fixpoint has_adjacent_operators (e : pystr) : bool :=
  match e with
  | c1 :: t =>
      match t with
      | c2 :: _ =>
          (one_of "+*/" c1 && one_of "+*/" c2)
          || (is_char "-" c1 && is_char "-" c2)
      | [] => false
      end
      || has_adjacent_operators t
  | [] => false
  end.

(** Two dots with nothing but digits between them. *)
Fixpoint has_two_dots (e : pystr) : bool :=
  match e with
  | c :: t =>
      (is_char "." c && next_is (is_char ".") (drop_digits t))
      || has_two_dots t
  | [] => false
  end.

(** The strings that [validate_expression] accepts. *)
Definition well_formed (s : pystr) : bool :=
  let t := strip s in
  let e := remove_spaces t in
  match e with
  | [] => false
  | first :: _ =>
      forallb allowed_char t
      && negb (has_adjacent_operators e)
      && negb (one_of "+*/" first)
      && negb (one_of "+*/-" (last e first))
      && negb (has_two_dots e)
      && Nat.eqb (count "(" e) (count ")" e)
  end.

(** An integer literal as Python writes them: digits, without a leading
    zero unless all the digits are zeros. *)
Definition canonical_integer (ds : pystr) : bool :=
  match ds with
  | [] => false
  | c :: _ => forallb is_digit ds && (all_zero ds || negb (is_char "0" c))
  end.

(** ** Sums and differences of integers

    A chain is a first integer and then operators of [+ -], each with its
    integer; its text has no spaces. *)

Definition chain_text (first : pystr) (terms : list (ascii * pystr)) : pystr :=
  first ++ flat_map (fun term => fst term :: snd term) terms.

(** The value of a chain, from left to right in the integers. *)
Definition chain_value (first : pystr) (terms : list (ascii * pystr)) : Z :=
  fold_left (fun acc term =>
               if is_char "+" (fst term) then (acc + int_of_digits (snd term))%Z
               else (acc - int_of_digits (snd term))%Z)
            terms (int_of_digits first).

Definition chain_term (term : ascii * pystr) : bool :=
  one_of "+-" (fst term) && canonical_integer (snd term).

(** The tokens and the tree of a chain. *)
Definition term_token (op : ascii) : token :=
  if is_char "+" op then PLUS else MINUS.

Definition term_binop (op : ascii) : binop :=
  if is_char "+" op then Add else Sub.

Definition chain_tokens (terms : list (ascii * pystr)) : list token :=
  flat_map (fun term => [term_token (fst term);
                         NUMBER (PyInt (int_of_digits (snd term)))]) terms.

Definition chain_tree (lhs : expr) (terms : list (ascii * pystr)) : expr :=
  fold_left (fun acc term =>
               BinOp acc (term_binop (fst term))
                     (Constant (PyInt (int_of_digits (snd term)))))
            terms lhs.

(** What [eval] is given stays inside the limits of the interpreter, which
    the model of [eval] does not have: at most 4300 digits in an integer
    literal (the default of [sys.set_int_max_str_digits]), and a syntax tree
    nested far less deeply than the recursion limit allows. *)
Definition max_str_digits : nat := 4300.

Definition max_chain_terms : nat := 100.

Definition within_limits (first : pystr) (terms : list (ascii * pystr))
    : bool :=
  Nat.leb (List.length first) max_str_digits
  && forallb (fun term => Nat.leb (List.length (snd term)) max_str_digits) terms
  && Nat.leb (List.length terms) max_chain_terms.

(** Finite floats, zero included. *)
Definition is_finite (x : float) : bool :=
  match x with
  | S754_zero _ | S754_finite _ _ _ => true
  | _ => false
  end.

(** ** Tactics *)

Ltac inv H := inversion H; subst; clear H.

(** Unfolds a derivation of [matches] along a concrete pattern. *)
Ltac inv_matches :=
  repeat match goal with
         | H : matches _ (_ :: _) _ _ |- _ => inv H
         | H : matches _ [] _ _ |- _ => inv H
         end.

(** Settles a fact about one character by trying the 256 of them. *)
Ltac by_cases_on_char c :=
  destruct c as [[] [] [] [] [] [] [] []]; try discriminate; try reflexivity.

(** Settles a goal about a function made of nested matches by taking
    every scrutinee apart. *)
Ltac split_matches :=
  repeat match goal with
         | |- context [match ?x with _ => _ end] => destruct x
         end.

(** * Properties *)

(** ** The validator on the examples of the test suite *)

Example validate_ex1 : validate "10 + 5" = Return true.
Proof. reflexivity. Qed.

Example validate_ex2 : validate "10 + + 5" = Return false.
Proof. reflexivity. Qed.

Example validate_ex3 : validate "(1 + 2" = Return false.
Proof. reflexivity. Qed.

Example validate_ex4 : validate "(1 + 2)" = Return true.
Proof. reflexivity. Qed.

Example validate_ex5 : validate "--5" = Return false.
Proof. reflexivity. Qed.

Example validate_ex6 : validate ")(" = Return true.
Proof. reflexivity. Qed.

(** ** The matcher is sound and complete *)

Lemma rep_greedy_sound {A} cls s :
  forall lo hi k (r : A),
    rep_greedy cls lo hi s k = Some r ->
    exists p q, s = p ++ q /\ forallb cls p = true /\ lo <= List.length p /\
                (forall h, hi = Some h -> List.length p <= h) /\ k q = Some r.
Proof.
  assert (stop_case : forall lo hi (s0 : pystr) k (r : A),
             match lo with O => k s0 | S _ => None end = Some r ->
             exists p q, s0 = p ++ q /\ forallb cls p = true /\
               lo <= List.length p /\
               (forall h, hi = Some h -> List.length p <= h) /\ k q = Some r).
  { intros lo hi s0 k r H. destruct lo; [|discriminate].
    exists [], s0. simpl. repeat split; auto; intros; lia. }
  induction s as [|c s' IH]; intros lo hi k r H.
  - simpl in H. destruct hi as [[|h]|]; apply stop_case; exact H.
  - simpl in H.
    assert (step : (if cls c
                    then match rep_greedy cls (pred lo) (option_map pred hi) s' k with
                         | Some r0 => Some r0
                         | None => match lo with O => k (c :: s') | S _ => None end
                         end
                    else match lo with O => k (c :: s') | S _ => None end) = Some r ->
                   hi <> Some 0 ->
                   exists p q, c :: s' = p ++ q /\ forallb cls p = true /\
                     lo <= List.length p /\
                     (forall h, hi = Some h -> List.length p <= h) /\ k q = Some r).
    { intros H0 Hhi. destruct (cls c) eqn:Hc; [|apply stop_case; exact H0].
      destruct (rep_greedy cls (pred lo) (option_map pred hi) s' k) as [r0|] eqn:E;
        [|apply stop_case; exact H0].
      inversion H0; subst r0. apply IH in E.
      destruct E as (p & q & Hs & Hp & Hlo & Hhi' & Hk).
      exists (c :: p), q. simpl. rewrite Hs, Hc, Hp. repeat split; auto.
      - lia.
      - intros h Hh. subst hi. destruct h as [|h]; [congruence|].
        specialize (Hhi' h eq_refl). lia. }
    destruct hi as [[|h]|].
    + apply stop_case; exact H.
    + apply step; [exact H|discriminate].
    + apply step; [exact H|discriminate].
Qed.

Lemma rep_greedy_complete {A} cls p :
  forall lo hi q (k : pystr -> option A),
    forallb cls p = true ->
    lo <= List.length p ->
    (forall h, hi = Some h -> List.length p <= h) ->
    k q <> None ->
    rep_greedy cls lo hi (p ++ q) k <> None.
Proof.
  induction p as [|c p' IH]; intros lo hi q k Hp Hlo Hhi Hk.
  - simpl in Hlo. assert (lo = 0) by lia. subst lo. simpl.
    destruct q as [|c q']; simpl.
    + destruct hi as [[|h]|]; exact Hk.
    + destruct hi as [[|h]|]; try exact Hk;
        destruct (cls c); try exact Hk;
        destruct (rep_greedy cls 0 _ q' k); try exact Hk; discriminate.
  - simpl in Hp. apply andb_true_iff in Hp. destruct Hp as [Hc Hp].
    assert (IH' : rep_greedy cls (pred lo) (option_map pred hi) (p' ++ q) k <> None).
    { apply IH; auto.
      - simpl in Hlo. lia.
      - intros h Hh. destruct hi as [h0|]; [|discriminate].
        simpl in Hh. inversion Hh; subst h.
        specialize (Hhi h0 eq_refl). simpl in Hhi. lia. }
    simpl. destruct hi as [[|h]|].
    + specialize (Hhi 0 eq_refl). simpl in Hhi. lia.
    + rewrite Hc. destruct (rep_greedy cls (pred lo) _ (p' ++ q) k);
        [discriminate|contradiction].
    + rewrite Hc. destruct (rep_greedy cls (pred lo) _ (p' ++ q) k);
        [discriminate|contradiction].
Qed.

Lemma match_items_sound subject its :
  forall st st', match_items subject its st = Some st' ->
                 matches subject its st st'.
Proof.
  induction its as [|it its' IH]; intros st st' H.
  - simpl in H. inversion H. constructor.
  - destruct it as [| |cls lo hi|g|g|positive cls]; simpl in H.
    + destruct (Nat.eqb _ _) eqn:E; [|discriminate].
      apply Nat.eqb_eq in E. constructor; auto.
    + destruct (at_eol _) eqn:E; [|discriminate]. constructor; auto.
    + apply rep_greedy_sound in H.
      destruct H as (p & q & Hs & Hp & Hlo & Hhi & Hk).
      econstructor; eauto.
    + constructor; auto.
    + constructor; auto.
    + destruct (Bool.eqb _ _) eqn:E; [|discriminate].
      apply eqb_prop in E. constructor; auto.
Qed.

Lemma match_items_complete subject its st st' :
  matches subject its st st' -> match_items subject its st <> None.
Proof.
  induction 1; simpl.
  - discriminate.
  - rewrite (proj2 (Nat.eqb_eq _ _) H). assumption.
  - rewrite H. assumption.
  - rewrite H. apply rep_greedy_complete; auto.
  - assumption.
  - assumption.
  - rewrite H, eqb_reflx. assumption.
Qed.

Lemma match_alts_complete subject r s its st' :
  In its r -> matches subject its (MState s [] []) st' ->
  match_alts subject r s <> None.
Proof.
  induction r as [|its0 r' IH]; intros Hin Hm; [contradiction|].
  simpl. destruct (match_items subject its0 (MState s [] [])) eqn:E;
    [discriminate|].
  destruct Hin as [->|Hin]; [|auto].
  apply match_items_complete in Hm. contradiction.
Qed.

Lemma search_from_complete subject r s1 s2 :
  match_alts subject r s2 <> None ->
  search_from subject r (s1 ++ s2) <> None.
Proof.
  intros H. induction s1 as [|c s1' IH]; simpl.
  - destruct s2; simpl; destruct (match_alts subject r _);
      try discriminate; contradiction.
  - destruct (match_alts subject r (c :: s1' ++ s2)); [discriminate|exact IH].
Qed.

(** ** Whitespace stripping *)

Lemma lstrip_head s c t : lstrip s = c :: t -> is_space c = false.
Proof.
  induction s as [|a s' IH]; simpl; [discriminate|].
  destruct (is_space a) eqn:E; [exact IH|].
  intros H. inv H. exact E.
Qed.

Lemma lstrip_split s :
  exists w, s = w ++ lstrip s /\ forallb is_space w = true.
Proof.
  induction s as [|a s' IH]; simpl.
  - exists []. auto.
  - destruct (is_space a) eqn:E.
    + destruct IH as (w & Hs & Hw). exists (a :: w). simpl.
      rewrite E, Hw. split; [congruence|reflexivity].
    + exists []. auto.
Qed.

Lemma lstrip_snoc x c :
  is_space c = false -> lstrip (x ++ [c]) = lstrip x ++ [c].
Proof.
  intros Hc. induction x as [|a x' IH]; simpl.
  - rewrite Hc. reflexivity.
  - destruct (is_space a); [exact IH|reflexivity].
Qed.

Lemma rstrip_split s :
  exists w, s = rstrip s ++ w /\ forallb is_space w = true.
Proof.
  unfold rstrip. destruct (lstrip_split (rev s)) as (w & Hs & Hw).
  exists (rev w). split.
  - rewrite <- rev_app_distr, <- Hs, rev_involutive. reflexivity.
  - rewrite forallb_forall in *. intros c Hin. apply Hw.
    apply in_rev. exact Hin.
Qed.

Lemma strip_head s c t : strip s = c :: t -> is_space c = false.
Proof.
  unfold strip, rstrip. destruct (lstrip s) as [|c0 l] eqn:El.
  - simpl. discriminate.
  - pose proof (lstrip_head _ _ _ El) as Hc0.
    simpl rev. rewrite lstrip_snoc by exact Hc0.
    rewrite rev_app_distr. simpl. intros H. inv H. exact Hc0.
Qed.

Lemma strip_split s :
  exists w1 w2, s = w1 ++ strip s ++ w2 /\
                forallb is_space w1 = true /\ forallb is_space w2 = true.
Proof.
  destruct (lstrip_split s) as (w1 & H1 & Hw1).
  destruct (rstrip_split (lstrip s)) as (w2 & H2 & Hw2).
  exists w1, w2. unfold strip. rewrite <- H2. auto.
Qed.

Lemma space_allowed c : is_space c = true -> allowed_char c = true.
Proof. unfold allowed_char. intros ->. apply orb_true_r. Qed.

Lemma forallb_impl {A} (f g : A -> bool) l :
  (forall x, f x = true -> g x = true) ->
  forallb f l = true -> forallb g l = true.
Proof.
  intros Hfg. rewrite !forallb_forall. auto.
Qed.

Lemma strip_allowed s :
  forallb allowed_char (strip s) = true -> forallb allowed_char s = true.
Proof.
  intros H. destruct (strip_split s) as (w1 & w2 & Hs & H1 & H2).
  rewrite Hs, !forallb_app, H.
  rewrite (forallb_impl _ _ _ space_allowed H1).
  rewrite (forallb_impl _ _ _ space_allowed H2). reflexivity.
Qed.

Lemma remove_spaces_forallb f s :
  forallb f s = true -> forallb f (remove_spaces s) = true.
Proof.
  rewrite !forallb_forall. intros H c Hin. apply H.
  unfold remove_spaces in Hin. apply filter_In in Hin. tauto.
Qed.

Lemma space_is_space c : Ascii.eqb c SPACE = true -> is_space c = true.
Proof. intros H. apply Ascii.eqb_eq in H. subst c. reflexivity. Qed.

Lemma remove_spaces_keeps s c :
  In c s -> is_space c = false -> In c (remove_spaces s).
Proof.
  intros Hin Hc. unfold remove_spaces. apply filter_In. split; [exact Hin|].
  destruct (Ascii.eqb c SPACE) eqn:E; [|reflexivity].
  apply space_is_space in E. congruence.
Qed.

Lemma remove_spaces_cons c t :
  is_space c = false -> remove_spaces (c :: t) = c :: remove_spaces t.
Proof.
  intros Hc. unfold remove_spaces. simpl.
  destruct (Ascii.eqb c SPACE) eqn:E; [|reflexivity].
  apply space_is_space in E. congruence.
Qed.

(** ** The character-set pattern *)

Lemma valid_chars_sound s :
  re_match valid_chars_pattern s <> None ->
  s <> [] /\ forallb allowed_char s = true.
Proof.
  unfold re_match, valid_chars_pattern, match_alts.
  match goal with
  | |- context [match_items ?a ?b ?c] =>
      destruct (match_items a b c) as [m|] eqn:E
  end; [intros _|intros H; contradiction].
  apply match_items_sound in E. unfold plus in E. inv_matches. simpl in *.
  match goal with
  | Hs : s = ?p ++ ?q, Hp : forallb _ ?p = true, Hlen : 1 <= _,
    Hq : at_eol ?q = true |- _ =>
      subst s; split;
      [ destruct p; [simpl in Hlen; lia|discriminate]
      | rewrite forallb_app, Hp; destruct q as [|c [|c' q']];
        [ reflexivity
        | simpl; apply Ascii.eqb_eq in Hq; subst c; reflexivity
        | discriminate ] ]
  end.
Qed.

Lemma valid_chars_complete s :
  s <> [] -> forallb allowed_char s = true ->
  re_match valid_chars_pattern s <> None.
Proof.
  intros Hne Hall. unfold re_match.
  eapply match_alts_complete; [left; reflexivity|].
  apply M_bol; [reflexivity|].
  apply M_rep with (p := s) (q := []); simpl.
  - symmetry. apply app_nil_r.
  - exact Hall.
  - destruct s; [contradiction|simpl; lia].
  - discriminate.
  - apply M_eol; [reflexivity|apply M_nil].
Qed.

Lemma indexed_string_nonempty s :
  re_match valid_chars_pattern (strip s) <> None ->
  exists c t, remove_spaces (strip s) = c :: t.
Proof.
  intros H. apply valid_chars_sound in H. destruct H as [Hne _].
  destruct (strip s) as [|c t] eqn:E; [contradiction|].
  exists c, (remove_spaces t). apply remove_spaces_cons.
  exact (strip_head _ _ _ E).
Qed.

(** ** Runs of minus signs *)

Lemma double_minus_found pre post :
  re_search operator_pattern (pre ++ "-"%char :: "-"%char :: post) <> None.
Proof.
  unfold re_search. apply search_from_complete.
  set (subject := pre ++ _).
  destruct (next_is is_digit post) eqn:Hd.
  - eapply match_alts_complete with
      (its := [at_least 2 (is_char "-"); Ahead true is_digit]).
    { simpl. auto. }
    eapply M_rep with (p := ["-"%char; "-"%char]) (q := post); simpl; auto.
    + discriminate.
    + apply M_ahead; [exact Hd|apply M_nil].
  - eapply match_alts_complete with
      (its := [one (is_char "-"); plus (is_char "-"); Ahead false is_digit]).
    { simpl. auto. }
    eapply M_rep with (p := ["-"%char]) (q := "-"%char :: post); simpl; auto.
    { intros h Hh. inv Hh. lia. }
    eapply M_rep with (p := ["-"%char]) (q := post); simpl; auto.
    + discriminate.
    + apply M_ahead; [exact Hd|apply M_nil].
Qed.

(** ** Claims about the validator *)

(** C10. [validate_expression] is total and never raises: for every input,
    a string (empty, blank or not) or another value, it returns a boolean.
    The only operation that could raise is the indexing of the first and last
    character in [_has_invalid_syntax]; it is reached only after the
    character-set check, which no string that is empty after trimming passes
    ([indexed_string_nonempty]). *)
Theorem validate_expression_total :
  forall x : pyobj, exists b : bool, validate_expression x = Return b.
Proof.
  intros [s| |t]; try (exists false; reflexivity).
  unfold validate_expression.
  destruct s as [|a s']; [exists false; reflexivity|].
  destruct (re_match valid_chars_pattern (strip (a :: s'))) as [m|] eqn:E;
    [|exists false; reflexivity].
  assert (Hm : re_match valid_chars_pattern (strip (a :: s')) <> None)
    by (rewrite E; discriminate).
  destruct (indexed_string_nonempty _ Hm) as (c & t & Hrs).
  unfold _has_invalid_syntax. rewrite Hrs. simpl negb. cbv iota.
  destruct (is_some (re_search operator_pattern (c :: t)));
    [exists false; reflexivity|].
  destruct (one_of "+*/" c || one_of "+*/-" (last (c :: t) c));
    [exists false; reflexivity|].
  destruct (is_some (re_search decimal_pattern (c :: t)));
    [exists false; reflexivity|].
  destruct (negb (Nat.eqb (count "(" (c :: t)) (count ")" (c :: t))));
    [exists false; reflexivity|exists true; reflexivity].
Qed.

(** C6, as the code has it.  Any run of two or more consecutive minus signs
    in the expression (after trimming and removing spaces) makes [validate]
    return false, whether the run is followed by a digit or not: the second
    alternative of the operator pattern catches the runs not followed by a
    digit, and the third those followed by one. *)
Theorem double_minus_invalid :
  forall (s pre post : pystr),
    remove_spaces (strip s) = pre ++ "-"%char :: "-"%char :: post ->
    validate s = Return false.
Proof.
  intros s pre post H. unfold validate, validate_expression.
  destruct s as [|a s']; [reflexivity|].
  destruct (negb (is_some (re_match valid_chars_pattern (strip (a :: s')))));
    [reflexivity|].
  unfold _has_invalid_syntax. rewrite H.
  pose proof (double_minus_found pre post) as Hf.
  destruct (re_search operator_pattern _); [reflexivity|contradiction].
Qed.

Lemma double_minus_invalid_witness :
  remove_spaces (strip "1 -- 5") = ["1"; "-"; "-"; "5"]%char /\
  validate "1 -- 5" = Return false.
Proof.
  split; [reflexivity|].
  apply (double_minus_invalid "1 -- 5" ["1"%char] ["5"%char]). reflexivity.
Defined.

(** C6, as the spec words it, fails: a run of two minus signs immediately
    followed by a digit is rejected, in expressions that pass every other
    check (with one minus sign less they are accepted). *)
Lemma double_minus_before_digit_rejected :
  validate "--5" = Return false /\ validate "-5" = Return true /\
  validate "3--2" = Return false /\ validate "3-2" = Return true.
Proof. repeat split; reflexivity. Qed.

(** ** Decimal literals *)

Lemma take_drop_digits s : s = take_digits s ++ drop_digits s.
Proof.
  induction s as [|c s' IH]; simpl; [reflexivity|].
  destruct (is_digit c); simpl; congruence.
Qed.

Lemma take_digits_digits s : forallb is_digit (take_digits s) = true.
Proof.
  induction s as [|c s' IH]; simpl; [reflexivity|].
  destruct (is_digit c) eqn:E; simpl; [rewrite E; exact IH|reflexivity].
Qed.

Lemma drop_digits_all s : forallb is_digit s = true -> drop_digits s = [].
Proof.
  induction s as [|c s' IH]; simpl; [reflexivity|].
  destruct (is_digit c); simpl; [exact IH|discriminate].
Qed.

Lemma take_digits_all s : forallb is_digit s = true -> take_digits s = s.
Proof.
  induction s as [|c s' IH]; simpl; [reflexivity|].
  destruct (is_digit c); simpl; [intros H; rewrite IH; auto|discriminate].
Qed.

Lemma digit_numchar c : is_digit c = true -> numchar c = true.
Proof. unfold numchar. intros ->. reflexivity. Qed.

Lemma dot_numchar c : is_char "." c = true -> numchar c = true.
Proof. unfold numchar. intros ->. apply orb_true_r. Qed.

(** The three parts of a literal: digits, at most one dot, digits. *)
Lemma number_literal_parts a :
  number_literal a = true ->
  exists ip dot fp,
    a = ip ++ dot ++ fp /\
    forallb is_digit ip = true /\
    forallb (is_char ".") dot = true /\ List.length dot <= 1 /\
    forallb is_digit fp = true /\ 1 <= List.length fp.
Proof.
  unfold number_literal. intros H.
  pose proof (take_drop_digits a) as Ha.
  pose proof (take_digits_digits a) as Hd.
  destruct (drop_digits a) as [|c fp] eqn:E.
  - exists [], [], a. rewrite app_nil_r in Ha.
    assert (Hall : forallb is_digit a = true) by (rewrite Ha; exact Hd).
    destruct a; [discriminate|]. simpl in *. repeat split; auto; lia.
  - apply andb_true_iff in H. destruct H as [H Hne].
    apply andb_true_iff in H. destruct H as [Hc Hfp].
    exists (take_digits a), [c], fp. simpl. rewrite Hc.
    destruct fp; [discriminate|]. simpl. repeat split; auto; lia.
Qed.

Lemma number_literal_numchars a :
  number_literal a = true -> forallb numchar a = true.
Proof.
  intros H. destruct (number_literal_parts a H)
    as (ip & dot & fp & Ha & Hip & Hdot & _ & Hfp & _).
  subst a. rewrite !forallb_app.
  rewrite (forallb_impl _ _ _ digit_numchar Hip).
  rewrite (forallb_impl _ _ _ dot_numchar Hdot).
  rewrite (forallb_impl _ _ _ digit_numchar Hfp). reflexivity.
Qed.

(** Conversely, digits, at most one dot and at least one digit make a
    literal. *)
Lemma parts_number_literal ip dot fp :
  forallb is_digit ip = true ->
  forallb (is_char ".") dot = true -> List.length dot <= 1 ->
  forallb is_digit fp = true -> 1 <= List.length fp ->
  number_literal (ip ++ dot ++ fp) = true.
Proof.
  intros Hip Hdot Hlen Hfp Hne. unfold number_literal.
  destruct dot as [|c [|c' dot']]; simpl in *; try lia.
  - rewrite drop_digits_all by (rewrite forallb_app, Hip, Hfp; reflexivity).
    destruct ip; [destruct fp; [simpl in Hne; lia|reflexivity]|reflexivity].
  - apply andb_true_iff in Hdot. destruct Hdot as [Hc _].
    assert (Hnd : is_digit c = false).
    { apply Ascii.eqb_eq in Hc. subst c. reflexivity. }
    assert (Hdrop : drop_digits (ip ++ c :: fp) = c :: fp).
    { clear -Hip Hnd. induction ip as [|d ip' IH]; simpl in *.
      - rewrite Hnd. reflexivity.
      - apply andb_true_iff in Hip. destruct Hip as [Hd Hip].
        rewrite Hd. auto. }
    rewrite Hdrop, Hc, Hfp. destruct fp; [simpl in Hne; lia|reflexivity].
Qed.

Lemma py_float_literal a :
  number_literal a = true -> py_float a = Return (literal_float a).
Proof.
  intros H. unfold py_float, literal_float.
  pose proof (number_literal_numchars a H) as Hn. unfold numchar in Hn.
  rewrite Hn. simpl negb. cbv iota.
  unfold number_literal in H.
  destruct (drop_digits a) as [|c fp] eqn:E.
  - pose proof (take_drop_digits a) as Ha. rewrite E, app_nil_r in Ha.
    rewrite <- Ha. destruct a; [discriminate|reflexivity].
  - apply andb_true_iff in H. destruct H as [H Hne].
    apply andb_true_iff in H. destruct H as [Hc Hfp].
    simpl tl. rewrite Hfp. destruct fp; [discriminate|].
    destruct (take_digits a); reflexivity.
Qed.

(** ** The fast-path pattern *)

Lemma firstn_consumed {A} (p q : list A) :
  firstn (List.length (p ++ q) - List.length q) (p ++ q) = p.
Proof.
  rewrite length_app, Nat.add_sub.
  rewrite firstn_app, Nat.sub_diag, firstn_all. simpl. apply app_nil_r.
Qed.

Lemma fast_pattern_sound s m :
  re_match fast_pattern s = Some m ->
  exists x w1 o w2 y t,
    s = x ++ w1 ++ [o] ++ w2 ++ y ++ t /\
    number_literal x = true /\ forallb is_space w1 = true /\
    one_of "+-*/" o = true /\ forallb is_space w2 = true /\
    number_literal y = true /\ at_eol t = true /\
    group m 1 = x /\ group m 2 = [o] /\ group m 3 = y.
Proof.
  unfold re_match, fast_pattern, match_alts.
  match goal with
  | |- context [match_items ?a ?b ?c] =>
      destruct (match_items a b c) as [m'|] eqn:E
  end; [|discriminate].
  intros H. inv H.
  apply match_items_sound in E. unfold star, opt, plus, one in E.
  inv_matches. simpl in *. subst.
  repeat match goal with
         | H : forall h, None = Some h -> _ |- _ => clear H
         | H : 0 <= _ |- _ => clear H
         end.
  assert (Hp3 : exists o, p3 = [o]).
  { destruct p3 as [|o [|o' p3']]; simpl in *; [lia|eauto|].
    match goal with
    | H : forall h, Some 1 = Some h -> _ |- _ =>
        specialize (H 1 eq_refl); simpl in H; lia
    end. }
  destruct Hp3 as [o ->].
  exists (p ++ p0 ++ p1), p2, o, p4, (p5 ++ p6 ++ p7), q7.
  cbn [group close_group open_group set_rest lookup rest opened groups Nat.eqb].
  repeat match goal with
         | H : forall h, Some 1 = Some h -> _ |- _ =>
             specialize (H 1 eq_refl)
         end.
  repeat split; auto.
  - rewrite <- !app_assoc. reflexivity.
  - apply parts_number_literal; auto.
  - simpl in *. rewrite andb_true_r in *. assumption.
  - apply parts_number_literal; auto.
  - rewrite (app_assoc p0), (app_assoc p). apply firstn_consumed.
  - change (o :: p4 ++ p5 ++ p6 ++ p7 ++ q7)
      with ([o] ++ p4 ++ p5 ++ p6 ++ p7 ++ q7).
    apply firstn_consumed.
  - rewrite (app_assoc p6), (app_assoc p5). apply firstn_consumed.
Qed.

Lemma operator_not_numchar c : one_of "+-*/" c = true -> numchar c = false.
Proof. by_cases_on_char c. Qed.

Lemma operator_not_space c : one_of "+-*/" c = true -> is_space c = false.
Proof. by_cases_on_char c. Qed.

Lemma space_not_numchar c : is_space c = true -> numchar c = false.
Proof. by_cases_on_char c. Qed.

Lemma numchar_not_space c : numchar c = true -> is_space c = false.
Proof. by_cases_on_char c. Qed.

Lemma fast_pattern_complete a op b :
  number_literal a = true -> number_literal b = true ->
  one_of "+-*/" op = true ->
  re_match fast_pattern (a ++ op :: b) <> None.
Proof.
  intros Ha Hb Hop.
  destruct (number_literal_parts a Ha)
    as (ip & dot & fp & -> & Hip & Hdot & Hd1 & Hfp & Hf1).
  destruct (number_literal_parts b Hb)
    as (ip' & dot' & fp' & -> & Hip' & Hdot' & Hd1' & Hfp' & Hf1').
  unfold re_match. eapply match_alts_complete; [left; reflexivity|].
  apply M_bol; [reflexivity|]. apply M_open.
  eapply M_rep with (p := ip) (q := dot ++ fp ++ op :: ip' ++ dot' ++ fp');
    [simpl; rewrite <- !app_assoc; reflexivity|assumption|lia|discriminate|].
  eapply M_rep with (p := dot) (q := fp ++ op :: ip' ++ dot' ++ fp');
    [reflexivity|assumption|lia|intros h Hh; inv Hh; assumption|].
  eapply M_rep with (p := fp) (q := op :: ip' ++ dot' ++ fp');
    [reflexivity|assumption|assumption|discriminate|].
  apply M_close.
  eapply M_rep with (p := []) (q := op :: ip' ++ dot' ++ fp');
    [reflexivity|reflexivity|simpl; lia|discriminate|].
  apply M_open.
  eapply M_rep with (p := [op]) (q := ip' ++ dot' ++ fp');
    [reflexivity|simpl; rewrite Hop; reflexivity|simpl; lia
    |intros h Hh; inv Hh; simpl; lia|].
  apply M_close.
  eapply M_rep with (p := []) (q := ip' ++ dot' ++ fp');
    [reflexivity|reflexivity|simpl; lia|discriminate|].
  apply M_open.
  eapply M_rep with (p := ip') (q := dot' ++ fp');
    [reflexivity|assumption|lia|discriminate|].
  eapply M_rep with (p := dot') (q := fp');
    [reflexivity|assumption|lia|intros h Hh; inv Hh; assumption|].
  eapply M_rep with (p := fp') (q := []);
    [simpl; rewrite app_nil_r; reflexivity|assumption|assumption|discriminate|].
  apply M_close. apply M_eol; [reflexivity|]. apply M_nil.
Qed.

(** Where the first character that is no digit and no dot stands. *)
Lemma split_unique x : forall y a c b,
  forallb numchar x = true -> forallb numchar a = true ->
  numchar c = false -> next_is numchar y = false ->
  x ++ y = a ++ c :: b ->
  x = a /\ y = c :: b.
Proof.
  induction x as [|e x' IH]; intros y a c b Hx Ha Hc Hy Heq.
  - simpl in Heq. destruct a as [|d a']; [auto|].
    subst y. simpl in *. apply andb_true_iff in Ha. destruct Ha as [Hd _].
    congruence.
  - simpl in Hx. apply andb_true_iff in Hx. destruct Hx as [He Hx].
    destruct a as [|d a']; simpl in Heq; inv Heq; [congruence|].
    simpl in Ha. apply andb_true_iff in Ha. destruct Ha as [_ Ha].
    destruct (IH y a' c b Hx Ha Hc Hy H1) as [-> ->]. auto.
Qed.

Lemma at_eol_numchars y t b :
  forallb numchar b = true -> at_eol t = true -> y ++ t = b -> y = b.
Proof.
  intros Hb Ht Heq. destruct t as [|c [|c' t']]; try discriminate.
  - rewrite app_nil_r in Heq. exact Heq.
  - simpl in Ht. apply Ascii.eqb_eq in Ht. subst c b.
    rewrite forallb_app in Hb. apply andb_true_iff in Hb.
    destruct Hb as [_ Hb]. discriminate Hb.
Qed.

(** On a literal, an operator and a literal the fast path matches, and its
    groups are the three parts. *)
Lemma fast_pattern_groups a op b :
  number_literal a = true -> number_literal b = true ->
  one_of "+-*/" op = true ->
  exists m, re_match fast_pattern (a ++ op :: b) = Some m /\
            group m 1 = a /\ group m 2 = [op] /\ group m 3 = b.
Proof.
  intros Ha Hb Hop.
  pose proof (fast_pattern_complete a op b Ha Hb Hop) as Hc.
  destruct (re_match fast_pattern (a ++ op :: b)) as [m|] eqn:E;
    [|contradiction].
  exists m. split; [reflexivity|].
  destruct (fast_pattern_sound _ _ E)
    as (x & w1 & o & w2 & y & t & Hs & Hx & Hw1 & Ho & Hw2 & Hy & Ht & G1 & G2 & G3).
  rewrite G1, G2, G3. clear G1 G2 G3 E Hc.
  pose proof (number_literal_numchars _ Ha) as Hna.
  pose proof (number_literal_numchars _ Hb) as Hnb.
  pose proof (number_literal_numchars _ Hx) as Hnx.
  assert (Hnext : next_is numchar (w1 ++ [o] ++ w2 ++ y ++ t) = false).
  { destruct w1 as [|c w1']; simpl.
    - apply operator_not_numchar. exact Ho.
    - simpl in Hw1. apply andb_true_iff in Hw1. destruct Hw1 as [Hc _].
      apply space_not_numchar. exact Hc. }
  symmetry in Hs.
  destruct (split_unique _ _ _ _ _ Hnx Hna (operator_not_numchar _ Hop) Hnext Hs)
    as [-> Hrest].
  destruct w1 as [|c w1'].
  - simpl in Hrest. injection Hrest as -> Hb'.
    destruct w2 as [|c w2'].
    + simpl in Hb'. rewrite (at_eol_numchars _ _ _ Hnb Ht Hb'). auto.
    + exfalso. simpl in Hb'. subst b. simpl in Hnb, Hw2.
      apply andb_true_iff in Hnb. destruct Hnb as [Hc _].
      apply andb_true_iff in Hw2. destruct Hw2 as [Hc' _].
      apply numchar_not_space in Hc. congruence.
  - exfalso. simpl in Hrest. injection Hrest as -> _. simpl in Hw1.
    apply andb_true_iff in Hw1. destruct Hw1 as [Hc _].
    apply operator_not_space in Hop. congruence.
Qed.

(** ** The fast path of [evaluate] *)

Lemma remove_spaces_app s t :
  remove_spaces (s ++ t) = remove_spaces s ++ remove_spaces t.
Proof. apply filter_app. Qed.

Lemma remove_spaces_repeat n : remove_spaces (repeat SPACE n) = [].
Proof. induction n as [|n IH]; simpl; auto. Qed.

Lemma remove_spaces_no_space s :
  forallb (fun c => negb (is_space c)) s = true -> remove_spaces s = s.
Proof.
  induction s as [|c s' IH]; intros H; [reflexivity|].
  simpl in H. apply andb_true_iff in H. destruct H as [Hc Hs].
  apply negb_true_iff in Hc. rewrite remove_spaces_cons by exact Hc.
  rewrite IH by exact Hs. reflexivity.
Qed.

Lemma remove_spaces_literal a :
  number_literal a = true -> remove_spaces a = a.
Proof.
  intros H. apply remove_spaces_no_space.
  apply (forallb_impl numchar); [|apply number_literal_numchars; exact H].
  intros c Hc. rewrite (numchar_not_space c Hc). reflexivity.
Qed.

Lemma remove_spaces_operation a op b n1 n2 :
  number_literal a = true -> number_literal b = true ->
  one_of "+-*/" op = true ->
  remove_spaces (a ++ repeat SPACE n1 ++ op :: repeat SPACE n2 ++ b)
  = a ++ op :: b.
Proof.
  intros Ha Hb Hop.
  rewrite remove_spaces_app, remove_spaces_app.
  rewrite remove_spaces_cons by (apply operator_not_space; exact Hop).
  rewrite remove_spaces_app, !remove_spaces_repeat.
  rewrite !remove_spaces_literal by assumption. reflexivity.
Qed.

Lemma format_result_formatted x : format_result x = Return (formatted x).
Proof.
  unfold format_result, formatted.
  destruct x as [s|s| |s m e]; simpl; try reflexivity.
  destruct ((0 <=? e)%Z || (Z.pos m mod 2 ^ (- e) =? 0)%Z); reflexivity.
Qed.

(** What [evaluate] computes on a literal, an operator and a literal,
    whatever the spaces between them: the groups are the three parts, and
    both conversions to float succeed. *)
Lemma evaluate_fast_path a op b n1 n2 :
  number_literal a = true -> number_literal b = true ->
  one_of "+-*/" op = true ->
  evaluate (a ++ repeat SPACE n1 ++ op :: repeat SPACE n2 ++ b) =
  match get operators [op] with
  | None =>
      Raise (ValueError ("Unsupported operator: " ++ string_of_list_ascii [op]))
  | Some apply =>
      if pystr_eqb [op] "/" && float_is_zero (literal_float b)
      then Raise (ZeroDivisionError "Division by zero")
      else result <- apply (literal_float a) (literal_float b) ;;
           format_result result
  end.
Proof.
  intros Ha Hb Hop. unfold evaluate.
  rewrite remove_spaces_operation by assumption.
  destruct (fast_pattern_groups a op b Ha Hb Hop) as (m & Hm & G1 & G2 & G3).
  destruct (a ++ op :: b) as [|c t] eqn:E; [destruct a; discriminate|].
  rewrite Hm, G1, G2, G3.
  rewrite (py_float_literal a Ha), (py_float_literal b Hb). reflexivity.
Qed.

Lemma operator_cases op :
  one_of "+-*/" op = true ->
  op = "+"%char \/ op = "-"%char \/ op = "*"%char \/ op = "/"%char.
Proof.
  destruct op as [[] [] [] [] [] [] [] []]; try discriminate; auto.
Qed.

(** ** Claims about the fast path *)

(** C9. On the fast path, a division whose right operand is zero fails with
    [DivisionByZero]: for all literals [a] and [b] such that the float read
    from [b] is zero, and any number of spaces around the operator,
    [evaluate] of [a / b] raises [ZeroDivisionError("Division by zero")]. *)
Theorem fast_path_division_by_zero :
  forall (a b : pystr) (n1 n2 : nat),
    number_literal a = true -> number_literal b = true ->
    float_is_zero (literal_float b) = true ->
    evaluate (a ++ repeat SPACE n1 ++ "/"%char :: repeat SPACE n2 ++ b)
    = Raise (ZeroDivisionError "Division by zero")
    /\ fails_with
         (evaluate (a ++ repeat SPACE n1 ++ "/"%char :: repeat SPACE n2 ++ b))
         DivisionByZero.
Proof.
  intros a b n1 n2 Ha Hb Hz.
  assert (E : evaluate (a ++ repeat SPACE n1 ++ "/"%char :: repeat SPACE n2 ++ b)
              = Raise (ZeroDivisionError "Division by zero")).
  { rewrite evaluate_fast_path by (assumption || reflexivity).
    simpl. rewrite Hz. reflexivity. }
  split; [exact E|].
  exists (ZeroDivisionError "Division by zero"). split; [exact E|reflexivity].
Qed.

Lemma fast_path_division_by_zero_witness :
  number_literal "10" = true /\ number_literal "0" = true /\
  float_is_zero (literal_float "0") = true /\
  evaluate "10 / 0" = Raise (ZeroDivisionError "Division by zero").
Proof.
  split; [reflexivity|]. split; [reflexivity|]. split; [reflexivity|].
  exact (proj1 (fast_path_division_by_zero "10" "0" 1 1 eq_refl eq_refl eq_refl)).
Defined.

(** What the fast path computes.  For all literals [a] and [b] and every
    operator [op] of [+ - * /], with [b] not read as zero when [op] is [/],
    and any number of spaces around the operator, [evaluate] applies [op]
    in binary64 arithmetic to the floats nearest to [a] and [b], and gives
    the float obtained as an integer when it is integral and rounded to 10
    decimals otherwise. *)
Theorem fast_path_result :
  forall (a b : pystr) (op : ascii) (n1 n2 : nat),
    number_literal a = true -> number_literal b = true ->
    one_of "+-*/" op = true ->
    is_char "/" op && float_is_zero (literal_float b) = false ->
    evaluate (a ++ repeat SPACE n1 ++ op :: repeat SPACE n2 ++ b)
    = Return (formatted (float_op op (literal_float a) (literal_float b))).
Proof.
  intros a b op n1 n2 Ha Hb Hop Hz.
  rewrite evaluate_fast_path by assumption.
  destruct (operator_cases op Hop) as [-> | [-> | [-> | ->]]];
    simpl in *; try apply format_result_formatted.
  rewrite Hz. unfold truediv. rewrite Hz. simpl.
  apply format_result_formatted.
Qed.

Lemma fast_path_result_witness :
  number_literal "2.5" = true /\ number_literal "1.5" = true /\
  one_of "+-*/" "+" = true /\
  is_char "/" "+" && float_is_zero (literal_float "1.5") = false /\
  evaluate "2.5 + 1.5"
  = Return (formatted (float_op "+" (literal_float "2.5") (literal_float "1.5"))).
Proof.
  split; [reflexivity|]. split; [reflexivity|]. split; [reflexivity|].
  split; [reflexivity|].
  exact (fast_path_result "2.5" "1.5" "+" 1 1 eq_refl eq_refl eq_refl eq_refl).
Defined.

(** C5, as the spec words it, fails: the result of [1 / 3] is the float
    nearest to 0.3333333333, that of [0.1 + 0.2] is the float nearest to 0.3,
    and that of [9007199254740993 + 0] is the integer 9007199254740992; none
    is the exact value.  On [2.5 + 1.5] the result is exact. *)
Lemma fast_path_not_exact :
  is_exact (evaluate "1 / 3") "1" "/" "3" = false /\
  is_exact (evaluate "0.1 + 0.2") "0.1" "+" "0.2" = false /\
  evaluate "9007199254740993 + 0" = Return (PyInt 9007199254740992) /\
  is_exact (evaluate "9007199254740993 + 0") "9007199254740993" "+" "0" = false /\
  is_exact (evaluate "2.5 + 1.5") "2.5" "+" "1.5" = true.
Proof. repeat split; vm_compute; reflexivity. Qed.

(** ** Where the fast path is exact

    [float] reads a literal that is a binary64 number exactly, the four
    operations return an exact result that is a binary64 number as it is,
    and neither [int] nor [round(_, 10)] changes a result with at most ten
    binary places.  The lemmas follow the rounding of SpecFloat on
    mantissas that need none. *)

Section Exactness.

Local Open Scope Z_scope.

(** ** Digits *)

Lemma digits2_size p : digits2_pos p = Pos.size p.
Proof. induction p; simpl; congruence. Qed.

Lemma Zdigits2_log2 m : 0 < m -> Zdigits2 m = Z.log2 m + 1.
Proof.
  destruct m as [|p|p]; try lia. intros _. simpl. rewrite digits2_size.
  destruct p; simpl; lia.
Qed.

Lemma Zdigits2_pos m : 0 < m -> 0 < Zdigits2 m.
Proof.
  intros H. rewrite (Zdigits2_log2 m H). pose proof (Z.log2_nonneg m). lia.
Qed.

Lemma Zdigits2_shift m k :
  0 < m -> 0 <= k -> Zdigits2 (m * 2 ^ k) = Zdigits2 m + k.
Proof.
  intros Hm Hk.
  assert (0 < m * 2 ^ k) by (apply Z.mul_pos_pos; [lia|apply Z.pow_pos_nonneg; lia]).
  rewrite !Zdigits2_log2 by assumption.
  rewrite Z.log2_mul_pow2 by lia. lia.
Qed.

Lemma Zdigits2_lt_pow m d : 0 < m -> m < 2 ^ d -> 0 <= d -> Zdigits2 m <= d.
Proof.
  intros Hm Hd H0. rewrite Zdigits2_log2 by lia.
  assert (Z.log2 m < d) by (apply Z.log2_lt_pow2; lia). lia.
Qed.

Lemma Zdigits2_gt_pow m : 0 < m -> m < 2 ^ Zdigits2 m.
Proof.
  intros H. rewrite (Zdigits2_log2 m H).
  replace (Z.log2 m + 1) with (Z.succ (Z.log2 m)) by lia.
  apply Z.log2_spec. exact H.
Qed.

Lemma Zdigits2_mul a b :
  0 < a -> 0 < b ->
  Zdigits2 a + Zdigits2 b - 1 <= Zdigits2 (a * b) <= Zdigits2 a + Zdigits2 b.
Proof.
  intros Ha Hb. rewrite !Zdigits2_log2 by lia.
  pose proof (Z.log2_mul_below a b Ha Hb).
  pose proof (Z.log2_mul_above a b ltac:(lia) ltac:(lia)). lia.
Qed.

(** ** Shifts to the right of a mantissa that ends in zeros *)

Lemma shr_1_even m :
  0 <= m ->
  shr_1 (Build_shr_record (2 * m) false false) = Build_shr_record m false false.
Proof. destruct m as [|p|p]; try lia; reflexivity. Qed.

Lemma iter_shr_1 p : forall m,
  0 <= m ->
  iter_pos shr_1 p (Build_shr_record (m * 2 ^ Zpos p) false false)
  = Build_shr_record m false false.
Proof.
  induction p as [p IH|p IH|]; intros m Hm; cbn [iter_pos].
  - replace (m * 2 ^ Zpos p~1) with (2 * ((m * 2 ^ Zpos p) * 2 ^ Zpos p)).
    + rewrite shr_1_even by (apply Z.mul_nonneg_nonneg; [apply Z.mul_nonneg_nonneg|]; lia).
      rewrite IH by (apply Z.mul_nonneg_nonneg; lia). apply IH. exact Hm.
    + rewrite Pos2Z.inj_xI. rewrite Z.pow_add_r, Z.pow_mul_r by lia.
      change (2 ^ 1) with 2. change (2 ^ 2) with 4.
      rewrite <- Z.mul_assoc, <- Z.pow_add_r by lia.
      replace (Zpos p + Zpos p) with (2 * Zpos p) by lia.
      rewrite Z.pow_mul_r by lia. change (2 ^ 2) with 4. ring.
  - replace (m * 2 ^ Zpos p~0) with ((m * 2 ^ Zpos p) * 2 ^ Zpos p).
    + rewrite IH by (apply Z.mul_nonneg_nonneg; lia). apply IH. exact Hm.
    + rewrite Pos2Z.inj_xO. rewrite <- Z.mul_assoc, <- Z.pow_add_r by lia.
      f_equal. f_equal. lia.
  - change (2 ^ 1) with 2. rewrite Z.mul_comm. apply shr_1_even. exact Hm.
Qed.

Lemma shr_exact m e n :
  0 <= m -> 0 <= n ->
  shr (Build_shr_record (m * 2 ^ n) false false) e n
  = (Build_shr_record m false false, e + n).
Proof.
  intros Hm Hn. destruct n as [|p|p]; try lia.
  - simpl. rewrite Z.mul_1_r, Z.add_0_r. reflexivity.
  - unfold shr. rewrite iter_shr_1 by exact Hm. reflexivity.
Qed.

(** ** Rounding a mantissa that needs no rounding *)

Lemma exact_quotient m n :
  0 < m -> 0 <= n -> m mod 2 ^ n = 0 ->
  m = m / 2 ^ n * 2 ^ n /\ 0 < m / 2 ^ n.
Proof.
  intros Hm Hn Hmod.
  assert (Hpow : 0 < 2 ^ n) by (apply Z.pow_pos_nonneg; lia).
  assert (Hsplit : m = m / 2 ^ n * 2 ^ n).
  { rewrite Z.mul_comm. apply Z.div_exact; lia. }
  split; [exact Hsplit|]. nia.
Qed.

Lemma binary_round_aux_exact s m e :
  0 < m ->
  e <= fexp prec emax (Zdigits2 m + e) ->
  m mod 2 ^ (fexp prec emax (Zdigits2 m + e) - e) = 0 ->
  fexp prec emax (Zdigits2 m + e) <= 971 ->
  binary_round_aux prec emax s m e loc_Exact
  = S754_finite s (Z.to_pos (m / 2 ^ (fexp prec emax (Zdigits2 m + e) - e)))
                (fexp prec emax (Zdigits2 m + e)).
Proof.
  intros Hm Hle Hmod Hmax.
  set (t := fexp prec emax (Zdigits2 m + e)) in *.
  set (n := t - e) in *.
  assert (Hn : 0 <= n) by (unfold n; lia).
  destruct (exact_quotient m n Hm Hn Hmod) as [Hsplit Hq].
  assert (Hdq : Zdigits2 (m / 2 ^ n) + (e + n) = Zdigits2 m + e).
  { pose proof (Zdigits2_shift (m / 2 ^ n) n Hq Hn) as Hs.
    rewrite <- Hsplit in Hs. lia. }
  unfold binary_round_aux, shr_fexp. fold t. fold n.
  cbn [shr_record_of_loc].
  rewrite Hsplit at 1. rewrite shr_exact by lia.
  cbn [shr_m loc_of_shr_record round_nearest_even].
  rewrite Hdq. fold t.
  replace (t - (e + n)) with 0 by (unfold n; lia).
  cbn [shr shr_record_of_loc shr_m].
  destruct (m / 2 ^ n) as [|q|q] eqn:Eq; try lia.
  replace (e + n) with t by (unfold n; lia).
  replace (t <=? emax - prec) with true
    by (symmetry; apply Z.leb_le; unfold emax, prec; lia).
  reflexivity.
Qed.

(** ** Dyadic rationals *)

Lemma pow2_pos e : (0 < pow2 e)%Q.
Proof. apply Qpower_0_lt. reflexivity. Qed.

Lemma pow2_nonzero e : ~ (pow2 e == 0)%Q.
Proof. pose proof (pow2_pos e) as H. intros E. rewrite E in H. discriminate H. Qed.

Lemma pow2_add a b : (pow2 (a + b) == pow2 a * pow2 b)%Q.
Proof. apply Qpower_plus. discriminate. Qed.

Lemma pow2_Z k : 0 <= k -> (pow2 k == inject_Z (2 ^ k))%Q.
Proof. intros H. unfold pow2. rewrite Zpower_Qpower by exact H. reflexivity. Qed.

Lemma dyadic_shift m e k :
  0 <= k -> (dyadic (m * 2 ^ k) e == dyadic m (e + k))%Q.
Proof.
  intros H. unfold dyadic. rewrite inject_Z_mult, pow2_add, <- (pow2_Z k H).
  ring.
Qed.

Lemma dyadic_eq_int m e V E c :
  (dyadic m e == dyadic V E)%Q -> c <= e -> c <= E ->
  m * 2 ^ (e - c) = V * 2 ^ (E - c).
Proof.
  intros H He HE.
  assert (H1 : (dyadic (m * 2 ^ (e - c)) c == dyadic (V * 2 ^ (E - c)) c)%Q).
  { rewrite !dyadic_shift by lia.
    replace (c + (e - c)) with e by lia. replace (c + (E - c)) with E by lia.
    exact H. }
  unfold dyadic in H1. apply Qmult_inj_r in H1; [|apply pow2_nonzero].
  unfold Qeq in H1. simpl in H1. rewrite !Z.mul_1_r in H1. exact H1.
Qed.

Lemma dyadic_pos m e V E :
  (dyadic m e == dyadic V E)%Q -> 0 < m -> 0 < V.
Proof.
  intros H Hm.
  pose proof (dyadic_eq_int m e V E (Z.min e E) H ltac:(lia) ltac:(lia)) as Hi.
  assert (0 < 2 ^ (e - Z.min e E)) by (apply Z.pow_pos_nonneg; lia).
  assert (0 < 2 ^ (E - Z.min e E)) by (apply Z.pow_pos_nonneg; lia).
  nia.
Qed.

Lemma dyadic_mag m e V E :
  0 < m -> 0 < V -> (dyadic m e == dyadic V E)%Q ->
  Zdigits2 m + e = Zdigits2 V + E.
Proof.
  intros Hm HV H.
  pose proof (dyadic_eq_int m e V E (Z.min e E) H ltac:(lia) ltac:(lia)) as Hi.
  pose proof (Zdigits2_shift m (e - Z.min e E) Hm ltac:(lia)) as H1.
  pose proof (Zdigits2_shift V (E - Z.min e E) HV ltac:(lia)) as H2.
  rewrite Hi in H1. lia.
Qed.

Lemma dyadic_opp m e : (dyadic (- m) e == - dyadic m e)%Q.
Proof. unfold dyadic. rewrite inject_Z_opp. ring. Qed.

Lemma dyadic_add a b e : (dyadic (a + b) e == dyadic a e + dyadic b e)%Q.
Proof. unfold dyadic. rewrite inject_Z_plus. ring. Qed.

Lemma dyadic_mul a b e1 e2 :
  (dyadic (a * b) (e1 + e2) == dyadic a e1 * dyadic b e2)%Q.
Proof. unfold dyadic. rewrite inject_Z_mult, pow2_add. ring. Qed.

Lemma dyadic_zero e : (dyadic 0 e == 0)%Q.
Proof. unfold dyadic. ring. Qed.

Lemma dyadic_eq_zero m e : (dyadic m e == 0)%Q -> m = 0.
Proof.
  intros H. rewrite <- (dyadic_zero e) in H.
  pose proof (dyadic_eq_int m e 0 e e H ltac:(lia) ltac:(lia)) as Hi.
  rewrite Z.sub_diag in Hi. simpl in Hi. lia.
Qed.

Lemma dyadic_cond_opp s m e :
  (dyadic (cond_Zopp s m) e == if s then - dyadic m e else dyadic m e)%Q.
Proof. destruct s; simpl; [apply dyadic_opp|reflexivity]. Qed.

Lemma binary64_bounds V E :
  binary64 V E = true -> Z.abs V < 2 ^ 53 /\ -1074 <= E <= 971.
Proof.
  unfold binary64. intros H.
  apply andb_true_iff in H. destruct H as [H H3].
  apply andb_true_iff in H. destruct H as [H1 H2].
  apply Z.ltb_lt in H1. apply Z.leb_le in H2. apply Z.leb_le in H3. lia.
Qed.

Lemma representable_eq q q' :
  (q == q')%Q -> representable q -> representable q'.
Proof.
  intros H (V & E & HVE & Hq). exists V, E. split; [exact HVE|].
  rewrite <- H. exact Hq.
Qed.

Lemma representable_opp q : representable q -> representable (- q)%Q.
Proof.
  intros (V & E & HVE & Hq). exists (- V), E. split.
  - unfold binary64 in *. rewrite Z.abs_opp. exact HVE.
  - rewrite dyadic_opp, Hq. reflexivity.
Qed.

Lemma bounded_spec m e :
  bounded prec emax m e = true <->
  fexp prec emax (Zdigits2 (Zpos m) + e) = e /\ e <= 971.
Proof.
  unfold bounded, canonical_mantissa. rewrite andb_true_iff, Z.eqb_eq, Z.leb_le.
  unfold emax, prec. simpl Zdigits2. lia.
Qed.

Lemma canonical_representable s m e :
  canonical (S754_finite s m e) -> binary64 (Zpos m) e = true.
Proof.
  unfold canonical. rewrite bounded_spec. intros [Hf He].
  unfold fexp, emin, prec, emax in Hf.
  pose proof (Zdigits2_gt_pow (Zpos m) (Pos2Z.is_pos m)) as Hlt.
  assert (Hd : Zdigits2 (Zpos m) <= 53) by lia.
  assert (Hp : 2 ^ Zdigits2 (Zpos m) <= 2 ^ 53)
    by (apply Z.pow_le_mono_r; lia).
  unfold binary64. rewrite !andb_true_iff, Z.ltb_lt, !Z.leb_le.
  simpl Z.abs. lia.
Qed.

(** A representable value whose mantissa is not shorter than the format
    wants is rounded to itself. *)
Lemma round_aux_value s m e :
  0 < m -> e <= fexp prec emax (Zdigits2 m + e) ->
  representable (dyadic m e) ->
  exists m' e',
    binary_round_aux prec emax s m e loc_Exact = S754_finite s m' e' /\
    canonical (S754_finite s m' e') /\
    (dyadic (Zpos m') e' == dyadic m e)%Q.
Proof.
  intros Hm Hle (V & E & HVE & Hq).
  apply binary64_bounds in HVE. destruct HVE as [HV HE].
  pose proof (dyadic_pos _ _ _ _ Hq Hm) as HVpos.
  pose proof (dyadic_mag _ _ _ _ Hm HVpos Hq) as Hmag.
  assert (HdV : Zdigits2 V <= 53) by (apply Zdigits2_lt_pow; lia).
  pose proof (Zdigits2_pos V HVpos) as HdV0.
  set (t := fexp prec emax (Zdigits2 m + e)) in *.
  assert (Ht : t = Z.max (Zdigits2 V + E - 53) (-1074)).
  { unfold t, fexp, emin, prec, emax. rewrite Hmag. reflexivity. }
  set (n := t - e).
  assert (Hn : 0 <= n) by (unfold n; lia).
  assert (Hmod : m mod 2 ^ n = 0).
  { destruct (Z.eq_dec n 0) as [->|Hn0]; [apply Z.mod_1_r|].
    pose proof (dyadic_eq_int m e V E e Hq ltac:(lia) ltac:(unfold n in *; lia)) as Hi.
    rewrite Z.sub_diag, Z.mul_1_r in Hi. rewrite Hi.
    replace (E - e) with ((E - e - n) + n) by lia.
    rewrite Z.pow_add_r by (unfold n in *; lia).
    rewrite Z.mul_assoc. apply Z.mod_mul.
    assert (0 < 2 ^ n) by (apply Z.pow_pos_nonneg; lia). lia. }
  destruct (exact_quotient m n Hm Hn Hmod) as [Hsplit Hqpos].
  rewrite (binary_round_aux_exact s m e Hm); fold t; fold n; try lia;
    try exact Hmod.
  exists (Z.to_pos (m / 2 ^ n)), t.
  split; [reflexivity|]. split.
  - unfold canonical. apply bounded_spec. rewrite Z2Pos.id by exact Hqpos.
    pose proof (Zdigits2_shift (m / 2 ^ n) n Hqpos Hn) as Hs.
    rewrite <- Hsplit in Hs.
    replace (Zdigits2 (m / 2 ^ n) + t) with (Zdigits2 m + e)
      by (unfold n in *; lia).
    fold t. lia.
  - rewrite Z2Pos.id by exact Hqpos.
    replace t with (e + n) by (unfold n; lia).
    rewrite <- dyadic_shift by exact Hn. rewrite <- Hsplit. reflexivity.
Qed.

Lemma iter_xO p d : Zpos (Pos.iter xO p d) = Zpos p * 2 ^ Zpos d.
Proof.
  induction d as [|d IH] using Pos.peano_ind.
  - simpl. lia.
  - rewrite Pos.iter_succ, Pos2Z.inj_xO, IH, Pos2Z.inj_succ, Z.pow_succ_r by lia.
    ring.
Qed.

Lemma shl_align_fst mx ex ez :
  ez <= ex -> Zpos (fst (shl_align mx ex ez)) = Zpos mx * 2 ^ (ex - ez).
Proof.
  intros H. unfold shl_align.
  destruct (ez - ex) as [|d|d] eqn:Ed; try lia.
  - replace (ex - ez) with 0 by lia. simpl. lia.
  - replace (ex - ez) with (Zpos d) by lia. cbn [fst]. apply iter_xO.
Qed.

(** The same for [binary_round], which first widens a short mantissa. *)
Lemma round_value s p e :
  representable (dyadic (Zpos p) e) ->
  exists m' e',
    binary_round prec emax s p e = S754_finite s m' e' /\
    canonical (S754_finite s m' e') /\
    (dyadic (Zpos m') e' == dyadic (Zpos p) e)%Q.
Proof.
  intros Hrep. unfold binary_round.
  change (Zpos (digits2_pos p)) with (Zdigits2 (Zpos p)).
  set (t := fexp prec emax (Zdigits2 (Zpos p) + e)).
  unfold shl_align.
  destruct (t - e) as [|d|d] eqn:Ed.
  - apply round_aux_value; [lia|fold t; lia|exact Hrep].
  - apply round_aux_value; [lia|fold t; lia|exact Hrep].
  - assert (Hd : Zpos d = e - t) by lia.
    assert (Hdig : Zdigits2 (Zpos (Pos.iter xO p d)) + t = Zdigits2 (Zpos p) + e).
    { rewrite iter_xO, Zdigits2_shift by lia. lia. }
    assert (Hsame : (dyadic (Zpos (Pos.iter xO p d)) t == dyadic (Zpos p) e)%Q).
    { rewrite iter_xO, dyadic_shift by lia.
      replace (t + Zpos d) with e by lia. reflexivity. }
    destruct (round_aux_value s (Zpos (Pos.iter xO p d)) t) as (m' & e' & H1 & H2 & H3).
    + lia.
    + rewrite Hdig. fold t. lia.
    + apply (representable_eq (dyadic (Zpos p) e)); [|exact Hrep].
      symmetry. exact Hsame.
    + exists m', e'. split; [exact H1|]. split; [exact H2|].
      rewrite H3. exact Hsame.
Qed.

Lemma normalize_value z e :
  representable (dyadic z e) ->
  canonical (binary_normalize prec emax z e false) /\
  (fval (binary_normalize prec emax z e false) == dyadic z e)%Q.
Proof.
  intros Hrep. destruct z as [|p|p]; simpl.
  - split; [exact I|]. rewrite dyadic_zero. reflexivity.
  - destruct (round_value false p e Hrep) as (m' & e' & -> & Hc & Hv).
    split; [exact Hc|exact Hv].
  - assert (Hrep' : representable (dyadic (Zpos p) e)).
    { apply (representable_eq (- dyadic (Zneg p) e)%Q).
      - change (Zneg p) with (- Zpos p). rewrite dyadic_opp. ring.
      - apply representable_opp. exact Hrep. }
    destruct (round_value true p e Hrep') as (m' & e' & -> & Hc & Hv).
    split; [exact Hc|]. simpl.
    change (Zneg m') with (- Zpos m'). change (Zneg p) with (- Zpos p).
    rewrite !dyadic_opp, Hv. reflexivity.
Qed.

Lemma dyadic_sub a b e : (dyadic (a - b) e == dyadic a e - dyadic b e)%Q.
Proof. unfold dyadic, Z.sub. rewrite inject_Z_plus, inject_Z_opp. ring. Qed.

Lemma dyadic_unit m : (dyadic m 0 == inject_Z m)%Q.
Proof. unfold dyadic, pow2. simpl. ring. Qed.

Lemma dyadic_nonzero p e : ~ (dyadic (Zpos p) e == 0)%Q.
Proof. intros H. apply dyadic_eq_zero in H. discriminate H. Qed.

Lemma cond_Zopp_mul s a k : cond_Zopp s (a * k) = cond_Zopp s a * k.
Proof. destruct s; simpl; ring. Qed.

Lemma aligned_value s m e ez :
  ez <= e ->
  (dyadic (cond_Zopp s (Zpos (fst (shl_align m e ez)))) ez
   == dyadic (cond_Zopp s (Zpos m)) e)%Q.
Proof.
  intros H. rewrite shl_align_fst by exact H.
  rewrite cond_Zopp_mul, dyadic_shift by lia.
  replace (ez + (e - ez)) with e by lia. reflexivity.
Qed.

(** ** The four operations on values that need no rounding *)

Lemma fadd_value x y :
  canonical x -> canonical y -> representable (fval x + fval y)%Q ->
  canonical (fadd x y) /\ (fval (fadd x y) == fval x + fval y)%Q.
Proof.
  destruct x as [sx|sx| |sx mx ex], y as [sy|sy| |sy my ey];
    try contradiction; intros Hx Hy Hrep.
  - destruct sx, sy; split; try exact I; reflexivity.
  - split; [exact Hy|]. simpl. ring.
  - split; [exact Hx|]. simpl. ring.
  - unfold fadd, SFadd.
    assert (Hsum :
      (dyadic (cond_Zopp sx (Zpos (fst (shl_align mx ex (Z.min ex ey))))
               + cond_Zopp sy (Zpos (fst (shl_align my ey (Z.min ex ey)))))
              (Z.min ex ey)
       == fval (S754_finite sx mx ex) + fval (S754_finite sy my ey))%Q).
    { rewrite dyadic_add, !aligned_value by lia. reflexivity. }
    destruct (normalize_value _ (Z.min ex ey)
                (representable_eq _ _ (Qeq_sym _ _ Hsum) Hrep)) as [Hc Hv].
    split; [exact Hc|]. rewrite Hv. exact Hsum.
Qed.

Lemma fsub_value x y :
  canonical x -> canonical y -> representable (fval x - fval y)%Q ->
  canonical (fsub x y) /\ (fval (fsub x y) == fval x - fval y)%Q.
Proof.
  destruct x as [sx|sx| |sx mx ex], y as [sy|sy| |sy my ey];
    try contradiction; intros Hx Hy Hrep.
  - destruct sx, sy; split; try exact I; reflexivity.
  - split; [exact Hy|]. simpl. destruct sy; simpl.
    + change (Zneg my) with (- Zpos my). rewrite dyadic_opp. ring.
    + change (Zneg my) with (- Zpos my). rewrite dyadic_opp. ring.
  - split; [exact Hx|]. simpl. ring.
  - unfold fsub, SFsub.
    assert (Hsum :
      (dyadic (cond_Zopp sx (Zpos (fst (shl_align mx ex (Z.min ex ey))))
               - cond_Zopp sy (Zpos (fst (shl_align my ey (Z.min ex ey)))))
              (Z.min ex ey)
       == fval (S754_finite sx mx ex) - fval (S754_finite sy my ey))%Q).
    { rewrite dyadic_sub, !aligned_value by lia. reflexivity. }
    destruct (normalize_value _ (Z.min ex ey)
                (representable_eq _ _ (Qeq_sym _ _ Hsum) Hrep)) as [Hc Hv].
    split; [exact Hc|]. rewrite Hv. exact Hsum.
Qed.

Lemma signed_value sx sy (q qx qy : Q) :
  (q == qx * qy)%Q ->
  ((if xorb sx sy then - q else q)
   == (if sx then - qx else qx) * (if sy then - qy else qy))%Q.
Proof. intros H. destruct sx, sy; simpl; rewrite H; ring. Qed.

Lemma representable_signed (s : bool) (q : Q) :
  representable (if s then - q else q)%Q -> representable q.
Proof.
  destruct s; [|auto]. intros H. apply representable_opp in H.
  apply (representable_eq (- - q)%Q); [ring|exact H].
Qed.

Lemma fmul_value x y :
  canonical x -> canonical y -> representable (fval x * fval y)%Q ->
  canonical (fmul x y) /\ (fval (fmul x y) == fval x * fval y)%Q.
Proof.
  destruct x as [sx|sx| |sx mx ex], y as [sy|sy| |sy my ey];
    try contradiction; intros Hx Hy Hrep.
  - split; [exact I|]. simpl. ring.
  - split; [exact I|]. simpl. ring.
  - split; [exact I|]. simpl. ring.
  - unfold fmul, SFmul.
    assert (Hprod :
      (fval (S754_finite sx mx ex) * fval (S754_finite sy my ey)
       == if xorb sx sy then - dyadic (Zpos (mx * my)) (ex + ey)
          else dyadic (Zpos (mx * my)) (ex + ey))%Q).
    { simpl fval. rewrite !dyadic_cond_opp. symmetry.
      apply signed_value. rewrite Pos2Z.inj_mul. apply dyadic_mul. }
    unfold canonical in Hx, Hy. apply bounded_spec in Hx, Hy.
    destruct Hx as [Hfx _], Hy as [Hfy _].
    pose proof (Zdigits2_mul (Zpos mx) (Zpos my) (Pos2Z.is_pos _) (Pos2Z.is_pos _))
      as Hd.
    pose proof (Zdigits2_pos (Zpos mx) (Pos2Z.is_pos _)).
    pose proof (Zdigits2_pos (Zpos my) (Pos2Z.is_pos _)).
    destruct (round_aux_value (xorb sx sy) (Zpos (mx * my)) (ex + ey))
      as (m' & e' & -> & Hc & Hv).
    + lia.
    + rewrite Pos2Z.inj_mul. unfold fexp, emin, prec, emax in *. lia.
    + apply (representable_signed (xorb sx sy)).
      apply (representable_eq _ _ Hprod Hrep).
    + split; [exact Hc|]. rewrite Hprod. simpl fval.
      rewrite dyadic_cond_opp. destruct (xorb sx sy); rewrite Hv; reflexivity.
Qed.

(** ** Division *)

Lemma shift_cases m s :
  0 <= s ->
  match s with
  | Zpos _ => Z.shiftl m s
  | Z0 => m
  | Zneg _ => 0
  end = m * 2 ^ s.
Proof.
  intros H. destruct s as [|p|p]; try lia.
  apply Z.shiftl_mul_pow2. lia.
Qed.

Lemma new_location_exact n : new_location n 0 = loc_Exact.
Proof. unfold new_location. destruct (Z.even n); reflexivity. Qed.

Lemma div_eucl_exact q d : 0 < d -> Z.div_eucl (q * d) d = (q, 0).
Proof.
  intros H. pose proof (Z.div_mul q d ltac:(lia)) as Hq.
  pose proof (Z.mod_mul q d ltac:(lia)) as Hr.
  unfold Z.div, Z.modulo in Hq, Hr.
  destruct (Z.div_eucl (q * d) d) as [q' r']. congruence.
Qed.

Lemma div_value sx mx ex sy my ey :
  representable (dyadic (Zpos mx) ex / dyadic (Zpos my) ey)%Q ->
  exists m' e',
    SFdiv prec emax (S754_finite sx mx ex) (S754_finite sy my ey)
    = S754_finite (xorb sx sy) m' e' /\
    canonical (S754_finite (xorb sx sy) m' e') /\
    (dyadic (Zpos m') e' == dyadic (Zpos mx) ex / dyadic (Zpos my) ey)%Q.
Proof.
  intros (V & E & HVE & Hq).
  apply binary64_bounds in HVE. destruct HVE as [HV HE].
  assert (Hq' : (dyadic (Zpos mx) ex == dyadic (V * Zpos my) (E + ey))%Q).
  { rewrite dyadic_mul, <- Hq. field. apply dyadic_nonzero. }
  pose proof (dyadic_pos _ _ _ _ Hq' (Pos2Z.is_pos mx)) as HVm.
  assert (HVpos : 0 < V) by nia.
  pose proof (dyadic_mag _ _ _ _ (Pos2Z.is_pos mx) HVm Hq') as Hmag.
  pose proof (Zdigits2_mul V (Zpos my) HVpos (Pos2Z.is_pos _)) as Hd.
  assert (HdV : Zdigits2 V <= 53) by (apply Zdigits2_lt_pow; lia).
  pose proof (Zdigits2_pos V HVpos) as HdV0.
  set (e' := Z.min (fexp prec emax (Zdigits2 (Zpos mx) + ex
                                      - (Zdigits2 (Zpos my) + ey)))
                   (ex - ey)).
  assert (He' : e' <= E /\ e' <= ex - ey /\
                e' <= Z.max (Zdigits2 V + E - 53) (-1074)).
  { unfold e', fexp, emin, prec, emax. lia. }
  assert (Hi : Zpos mx * 2 ^ (ex - ey - e') = V * 2 ^ (E - e') * Zpos my).
  { pose proof (dyadic_eq_int _ _ _ _ (e' + ey) Hq' ltac:(lia) ltac:(lia)) as Hi.
    replace (ex - (e' + ey)) with (ex - ey - e') in Hi by lia.
    replace (E + ey - (e' + ey)) with (E - e') in Hi by lia.
    rewrite Hi. ring. }
  assert (Hcore :
    SFdiv_core_binary prec emax (Zpos mx) ex (Zpos my) ey
    = (V * 2 ^ (E - e'), e', loc_Exact)).
  { unfold SFdiv_core_binary. fold e'.
    rewrite shift_cases by lia. rewrite Hi.
    rewrite div_eucl_exact by lia. rewrite new_location_exact. reflexivity. }
  assert (Hqpos : 0 < V * 2 ^ (E - e')).
  { apply Z.mul_pos_pos; [exact HVpos|apply Z.pow_pos_nonneg; lia]. }
  assert (Hsame : (dyadic (V * 2 ^ (E - e')) e' == dyadic V E)%Q).
  { rewrite dyadic_shift by lia. replace (e' + (E - e')) with E by lia.
    reflexivity. }
  destruct (round_aux_value (xorb sx sy) (V * 2 ^ (E - e')) e')
    as (m' & e'' & H1 & H2 & H3).
  - exact Hqpos.
  - rewrite Zdigits2_shift by lia.
    replace (Zdigits2 V + (E - e') + e') with (Zdigits2 V + E) by lia.
    unfold fexp, emin, prec, emax. lia.
  - exists V, E. split; [|exact Hsame].
    unfold binary64. rewrite !andb_true_iff, Z.ltb_lt, !Z.leb_le. lia.
  - exists m', e''. unfold SFdiv. rewrite Hcore.
    split; [exact H1|]. split; [exact H2|].
    rewrite H3, Hsame, Hq. reflexivity.
Qed.

Lemma fdiv_value x y :
  canonical x -> canonical y -> float_is_zero y = false ->
  representable (fval x / fval y)%Q ->
  canonical (fdiv x y) /\ (fval (fdiv x y) == fval x / fval y)%Q.
Proof.
  destruct x as [sx|sx| |sx mx ex], y as [sy|sy| |sy my ey];
    try contradiction; try discriminate; intros Hx Hy _ Hrep.
  - split; [exact I|]. simpl fval. unfold Qdiv. ring.
  - assert (Hquot :
      (fval (S754_finite sx mx ex) / fval (S754_finite sy my ey)
       == if xorb sx sy then - (dyadic (Zpos mx) ex / dyadic (Zpos my) ey)
          else dyadic (Zpos mx) ex / dyadic (Zpos my) ey)%Q).
    { simpl fval. rewrite !dyadic_cond_opp.
      pose proof (dyadic_nonzero my ey).
      destruct sx, sy; simpl; field; assumption. }
    destruct (div_value sx mx ex sy my ey) as (m' & e' & H1 & H2 & H3).
    + apply (representable_signed (xorb sx sy)).
      apply (representable_eq _ _ Hquot Hrep).
    + unfold fdiv. rewrite H1. split; [exact H2|].
      rewrite Hquot. simpl fval. rewrite dyadic_cond_opp.
      destruct (xorb sx sy); rewrite H3; reflexivity.
Qed.

(** ** The conversion of a decimal literal *)

Lemma nearest_float_value neg n d :
  0 <= n -> representable (n # d) ->
  canonical (nearest_float neg n d) /\
  (fval (nearest_float neg n d) == if neg then - (n # d) else n # d)%Q.
Proof.
  intros Hn Hrep. destruct n as [|p|p]; try lia.
  - split; [exact I|]. simpl. destruct neg; reflexivity.
  - assert (Hquot : (Zpos p # d == dyadic (Zpos p) 0 / dyadic (Zpos d) 0)%Q).
    { rewrite !dyadic_unit. apply Qmake_Qdiv. }
    destruct (div_value neg p 0 false d 0) as (m' & e' & H1 & H2 & H3).
    + apply (representable_eq _ _ Hquot Hrep).
    + rewrite xorb_false_r in H1, H2. unfold nearest_float. rewrite H1.
      split; [exact H2|]. simpl fval.
      rewrite dyadic_cond_opp. destruct neg; rewrite H3, <- Hquot; reflexivity.
Qed.

Lemma float_op_value op x y :
  one_of "+-*/" op = true -> canonical x -> canonical y ->
  (is_char "/" op = true -> float_is_zero y = false) ->
  representable (exact_op op (fval x) (fval y)) ->
  canonical (float_op op x y) /\
  (fval (float_op op x y) == exact_op op (fval x) (fval y))%Q.
Proof.
  intros Hop Hx Hy Hz.
  destruct (operator_cases op Hop) as [-> | [-> | [-> | ->]]];
    unfold float_op, exact_op; simpl; intros Hrep.
  - apply fadd_value; assumption.
  - apply fsub_value; assumption.
  - apply fmul_value; assumption.
  - apply fdiv_value; auto.
Qed.

(** ** What [float] reads from a literal *)

Lemma digit_value_nonneg c : is_digit c = true -> 0 <= digit_value c.
Proof.
  unfold is_digit, digit_value. intros H.
  apply andb_true_iff in H. destruct H as [H _]. apply N.leb_le in H.
  apply N2Z.inj_le in H. simpl in H. lia.
Qed.

Lemma int_of_digits_nonneg ds :
  forallb is_digit ds = true -> 0 <= int_of_digits ds.
Proof.
  unfold int_of_digits.
  assert (H : forall acc, 0 <= acc -> forallb is_digit ds = true ->
                          0 <= fold_left (fun acc c => 10 * acc + digit_value c) ds acc).
  { induction ds as [|c ds' IH]; intros acc Hacc Hd; cbn [fold_left];
      [exact Hacc|].
    cbn [forallb] in Hd. apply andb_true_iff in Hd. destruct Hd as [Hc Hd].
    apply IH; [|exact Hd]. pose proof (digit_value_nonneg c Hc). lia. }
  apply H. lia.
Qed.

Lemma literal_digits a :
  number_literal a = true ->
  forallb is_digit (take_digits a ++ tl (drop_digits a)) = true.
Proof.
  unfold number_literal. intros H. rewrite forallb_app, take_digits_digits.
  destruct (drop_digits a) as [|c fp]; [reflexivity|].
  apply andb_true_iff in H. destruct H as [H _].
  apply andb_true_iff in H. destruct H as [_ H]. exact H.
Qed.

Lemma literal_float_value a :
  number_literal a = true -> representable (literal_value a) ->
  canonical (literal_float a) /\ (fval (literal_float a) == literal_value a)%Q.
Proof.
  intros Ha Hrep. unfold literal_float, float_of_decimal.
  apply (nearest_float_value false); [|exact Hrep].
  apply int_of_digits_nonneg, literal_digits. exact Ha.
Qed.

Lemma fval_zero x : canonical x -> float_is_zero x = true -> (fval x == 0)%Q.
Proof. destruct x; try discriminate; reflexivity. Qed.

(** ** The result: an integer, or a float rounded to 10 decimals *)

Lemma round_half_even_exact num den :
  0 < den -> num mod den = 0 -> round_half_even num den = num / den.
Proof.
  intros Hden Hmod. unfold round_half_even. rewrite Hmod.
  replace (2 * 0 ?= den) with Lt by (symmetry; apply Z.compare_lt_iff; lia).
  reflexivity.
Qed.

Lemma pow2_inverse e : (pow2 (- e) * pow2 e == 1)%Q.
Proof. rewrite <- pow2_add. replace (- e + e) with 0 by lia. reflexivity. Qed.

(** A quotient [k/S] that is [m * 2^e]. *)
Lemma quotient_dyadic k S m e :
  e <= 0 -> k * 2 ^ (- e) = m * Zpos S -> (k # S == dyadic m e)%Q.
Proof.
  intros He H. rewrite Qmake_Qdiv. unfold dyadic.
  assert (Hk : (inject_Z k == inject_Z m * pow2 e * inject_Z (Zpos S))%Q).
  { rewrite <- (Qmult_1_r (inject_Z k)), <- (pow2_inverse e).
    rewrite Qmult_assoc, (pow2_Z (- e)) by lia.
    rewrite <- inject_Z_mult, H, inject_Z_mult. ring. }
  rewrite Hk. field. discriminate.
Qed.

Lemma ten_places m e Vr Er :
  e < 0 -> -10 <= Er -> (dyadic m e == dyadic Vr Er)%Q ->
  (m * 10 ^ 10) mod 2 ^ (- e) = 0.
Proof.
  intros He HEr H.
  assert (Hpow : 0 < 2 ^ (- e)) by (apply Z.pow_pos_nonneg; lia).
  change (10 ^ 10) with (9765625 * 2 ^ 10).
  destruct (Z_le_gt_dec e Er) as [Hle|Hgt].
  - pose proof (dyadic_eq_int m e Vr Er e H ltac:(lia) Hle) as Hi.
    rewrite Z.sub_diag, Z.mul_1_r in Hi. rewrite Hi.
    replace (Vr * 2 ^ (Er - e) * (9765625 * 2 ^ 10))
      with (Vr * 9765625 * 2 ^ (Er + 10) * 2 ^ (- e)).
    + apply Z.mod_mul. lia.
    + assert (E1 : 2 ^ (Er + 10) * 2 ^ (- e) = 2 ^ (Er - e) * 2 ^ 10).
      { rewrite <- !Z.pow_add_r by lia. f_equal. lia. }
      rewrite <- !Z.mul_assoc, E1. ring.
  - replace (m * (9765625 * 2 ^ 10))
      with (m * 9765625 * 2 ^ (10 + e) * 2 ^ (- e)).
    + apply Z.mod_mul. lia.
    + assert (E1 : 2 ^ (10 + e) * 2 ^ (- e) = 2 ^ 10).
      { rewrite <- Z.pow_add_r by lia. f_equal. lia. }
      rewrite <- !Z.mul_assoc, E1. reflexivity.
Qed.

Lemma py_round_value x Vr Er :
  canonical x -> -10 <= Er -> (fval x == dyadic Vr Er)%Q ->
  canonical (py_round x 10) /\ (fval (py_round x 10) == fval x)%Q.
Proof.
  destruct x as [s|s| |s m e]; try contradiction; intros Hc HEr Hv.
  - split; [exact I|reflexivity].
  - pose proof (canonical_representable s m e Hc) as Hb.
    unfold py_round. change (10 ^ Z.of_nat 10) with (10 ^ 10).
    set (S := Z.to_pos (10 ^ 10)).
    assert (HS : Zpos S = 10 ^ 10) by reflexivity.
    assert (Hnum : forall n, 0 <= n -> (n # S == dyadic (Zpos m) e)%Q ->
              canonical (nearest_float s n S) /\
              (fval (nearest_float s n S) == fval (S754_finite s m e))%Q).
    { intros n Hn Hq.
      destruct (nearest_float_value s n S Hn) as [H1 H2].
      - exists (Zpos m), e. split; assumption.
      - split; [exact H1|]. rewrite H2. cbn [fval].
        rewrite dyadic_cond_opp. destruct s; rewrite Hq; reflexivity. }
    destruct (0 <=? e) eqn:He.
    + apply Z.leb_le in He. apply Hnum.
      * assert (0 < 2 ^ e) by (apply Z.pow_pos_nonneg; lia). nia.
      * rewrite Qmake_Qdiv, HS, !inject_Z_mult.
        unfold dyadic. rewrite (pow2_Z e He). field. discriminate.
    + apply Z.leb_gt in He.
      assert (Hpow : 0 < 2 ^ (- e)) by (apply Z.pow_pos_nonneg; lia).
      assert (Hmod : (Zpos m * 10 ^ 10) mod 2 ^ (- e) = 0).
      { assert (Hv' : (dyadic (Zpos m) e
                       == dyadic (cond_Zopp s Vr) Er)%Q).
        { cbn [fval] in Hv. rewrite dyadic_cond_opp in Hv.
          rewrite dyadic_cond_opp. destruct s; [|exact Hv].
          rewrite <- Hv. ring. }
        exact (ten_places _ _ _ _ He HEr Hv'). }
      rewrite round_half_even_exact by assumption.
      apply Hnum.
      * apply Z.div_pos; lia.
      * apply quotient_dyadic; [lia|]. rewrite HS.
        rewrite Z.mul_comm. symmetry. apply Z.div_exact; lia.
Qed.

Lemma float_value_fval x :
  canonical x -> exists q, float_value x = Some q /\ (q == fval x)%Q.
Proof.
  destruct x as [s|s| |s m e]; try contradiction; intros _.
  - exists (Qmake 0 1). split; reflexivity.
  - unfold float_value. destruct (0 <=? e) eqn:He.
    + apply Z.leb_le in He. eexists. split; [reflexivity|].
      cbn [fval]. rewrite cond_Zopp_mul.
      change (Qmake ?a 1) with (inject_Z a).
      rewrite <- dyadic_unit, dyadic_shift by lia. reflexivity.
    + apply Z.leb_gt in He. eexists. split; [reflexivity|].
      cbn [fval].
      assert (Hpow : 0 < 2 ^ (- e)) by (apply Z.pow_pos_nonneg; lia).
      apply quotient_dyadic; [lia|]. rewrite Z2Pos.id by exact Hpow.
      reflexivity.
Qed.

Lemma formatted_value x Vr Er :
  canonical x -> -10 <= Er -> (fval x == dyadic Vr Er)%Q ->
  exists q, value_of (formatted x) = Some q /\ (q == fval x)%Q.
Proof.
  intros Hc HEr Hv. unfold formatted.
  destruct (is_integer x) eqn:Hint.
  - destruct x as [s|s| |s m e]; try contradiction.
    + exists (Qmake 0 1). split; reflexivity.
    + cbn [value_of]. eexists. split; [reflexivity|].
      change (Qmake ?a 1) with (inject_Z a). unfold integer_value. cbn [fval].
      simpl in Hint. destruct (0 <=? e) eqn:He.
      * apply Z.leb_le in He. rewrite cond_Zopp_mul.
        rewrite <- dyadic_unit, dyadic_shift by lia. reflexivity.
      * apply Z.leb_gt in He. simpl in Hint. apply Z.eqb_eq in Hint.
        assert (Hpow : 0 < 2 ^ (- e)) by (apply Z.pow_pos_nonneg; lia).
        assert (Hm : Zpos m = Zpos m / 2 ^ (- e) * 2 ^ (- e)).
        { rewrite Z.mul_comm. apply Z.div_exact; lia. }
        rewrite Hm at 2. rewrite cond_Zopp_mul, dyadic_shift by lia.
        replace (e + - e) with 0 by lia. rewrite dyadic_unit. reflexivity.
  - destruct (py_round_value x Vr Er Hc HEr Hv) as [Hc' Hv'].
    destruct (float_value_fval _ Hc') as (q & Hq & Hq').
    exists q. split; [exact Hq|]. rewrite Hq'. exact Hv'.
Qed.

Lemma formatted_integer x z :
  canonical x -> (fval x == inject_Z z)%Q -> formatted x = PyInt z.
Proof.
  intros Hc Hv. rewrite <- dyadic_unit in Hv. unfold formatted.
  destruct x as [s|s| |s m e]; try contradiction.
  - simpl in *. f_equal. symmetry. apply (dyadic_eq_zero z 0).
    rewrite <- Hv. reflexivity.
  - cbn [fval] in Hv. unfold is_integer, integer_value.
    destruct (0 <=? e) eqn:He.
    + apply Z.leb_le in He. cbn [orb]. f_equal.
      pose proof (dyadic_eq_int _ _ _ _ 0 Hv He ltac:(lia)) as Hi.
      rewrite Z.sub_0_r, Z.sub_diag, Z.pow_0_r, Z.mul_1_r in Hi.
      rewrite cond_Zopp_mul. exact Hi.
    + apply Z.leb_gt in He.
      assert (Hpow : 0 < 2 ^ (- e)) by (apply Z.pow_pos_nonneg; lia).
      pose proof (dyadic_eq_int _ _ _ _ e Hv ltac:(lia) ltac:(lia)) as Hi.
      rewrite Z.sub_diag, Z.pow_0_r, Z.mul_1_r in Hi.
      replace (0 - e) with (- e) in Hi by lia.
      assert (Hm : Zpos m = cond_Zopp s z * 2 ^ (- e)).
      { rewrite <- cond_Zopp_mul, <- Hi. destruct s; reflexivity. }
      rewrite Hm, Z.mod_mul, Z.div_mul by lia. cbn [orb Z.eqb].
      f_equal. destruct s; cbn [cond_Zopp]; lia.
Qed.

Lemma exact_op_eq op (x x' y y' : Q) :
  (x == x')%Q -> (y == y')%Q -> (exact_op op x y == exact_op op x' y')%Q.
Proof.
  intros Hx Hy. unfold exact_op.
  destruct (is_char "+" op); [rewrite Hx, Hy; reflexivity|].
  destruct (is_char "-" op); [rewrite Hx, Hy; reflexivity|].
  destruct (is_char "*" op); rewrite Hx, Hy; reflexivity.
Qed.

(** The result of the fast path on binary64 operands with a binary64 exact
    value of at most ten binary places. *)
Lemma exact_on_binary64 :
  forall (a b : pystr) (op : ascii) (n1 n2 : nat) (ma ea mb eb mr er : Z),
    number_literal a = true -> number_literal b = true ->
    one_of "+-*/" op = true ->
    (is_char "/" op = true -> ~ (literal_value b == 0)%Q) ->
    binary64 ma ea = true -> (literal_value a == dyadic ma ea)%Q ->
    binary64 mb eb = true -> (literal_value b == dyadic mb eb)%Q ->
    binary64 mr er = true -> -10 <= er ->
    (exact_op op (literal_value a) (literal_value b) == dyadic mr er)%Q ->
    is_exact (evaluate (a ++ repeat SPACE n1 ++ op :: repeat SPACE n2 ++ b))
             a op b = true /\
    (forall z : Z,
        (dyadic mr er == inject_Z z)%Q ->
        evaluate (a ++ repeat SPACE n1 ++ op :: repeat SPACE n2 ++ b)
        = Return (PyInt z)).
Proof.
  intros a b op n1 n2 ma ea mb eb mr er Ha Hb Hop Hnz Hba Hva Hbb Hvb Hbr Her Hvr.
  destruct (literal_float_value a Ha) as [Hca Hfa]; [exists ma, ea; auto|].
  destruct (literal_float_value b Hb) as [Hcb Hfb]; [exists mb, eb; auto|].
  assert (Hz : is_char "/" op = true -> float_is_zero (literal_float b) = false).
  { intros Hdiv. destruct (float_is_zero (literal_float b)) eqn:E; [|reflexivity].
    exfalso. apply (Hnz Hdiv). rewrite <- Hfb. apply fval_zero; assumption. }
  assert (Hex : (exact_op op (fval (literal_float a)) (fval (literal_float b))
                 == dyadic mr er)%Q).
  { rewrite <- Hvr. apply exact_op_eq; assumption. }
  destruct (float_op_value op _ _ Hop Hca Hcb Hz) as [Hcr Hfr].
  { exists mr, er. split; assumption. }
  rewrite fast_path_result; try assumption.
  2:{ destruct (is_char "/" op) eqn:E; [|reflexivity]. rewrite Hz; reflexivity. }
  split.
  - destruct (formatted_value _ mr er Hcr Her) as (q & Hq & Hq').
    { rewrite Hfr. exact Hex. }
    unfold is_exact. rewrite Hq. apply Qeq_bool_iff.
    rewrite Hq', Hfr, Hex, Hvr. reflexivity.
  - intros z Hzv. f_equal. apply formatted_integer; [exact Hcr|].
    rewrite Hfr, Hex. exact Hzv.
Qed.

(** C5, as far as it holds.  For all literals [a] and [b] and every operator
    [op] of [+ - * /], with [b] not zero when [op] is [/], and any number of
    spaces around the operator: when [a], [b] and the exact value of
    [a op b] are binary64 numbers ([m * 2^e] with [|m| < 2^53] and
    [-1074 <= e <= 971]) and the exact value has at most ten binary places
    ([e >= -10]), [evaluate] returns the exact value of [a op b], as an
    integer when it is integral. *)
Theorem fast_path_exact :
  forall (a b : pystr) (op : ascii) (n1 n2 : nat) (ma ea mb eb mr er : Z),
    number_literal a = true -> number_literal b = true ->
    one_of "+-*/" op = true ->
    (is_char "/" op = true -> ~ (literal_value b == 0)%Q) ->
    binary64 ma ea = true -> (literal_value a == dyadic ma ea)%Q ->
    binary64 mb eb = true -> (literal_value b == dyadic mb eb)%Q ->
    binary64 mr er = true -> -10 <= er ->
    (exact_op op (literal_value a) (literal_value b) == dyadic mr er)%Q ->
    is_exact (evaluate (a ++ repeat SPACE n1 ++ op :: repeat SPACE n2 ++ b))
             a op b = true /\
    (forall z : Z,
        (dyadic mr er == inject_Z z)%Q ->
        evaluate (a ++ repeat SPACE n1 ++ op :: repeat SPACE n2 ++ b)
        = Return (PyInt z)).
Proof. exact exact_on_binary64. Qed.

Lemma fast_path_exact_witness :
  number_literal "2.5" = true /\ number_literal "1.5" = true /\
  one_of "+-*/" "+"%char = true /\
  binary64 5 (-1) = true /\ (literal_value "2.5" == dyadic 5 (-1))%Q /\
  binary64 3 (-1) = true /\ (literal_value "1.5" == dyadic 3 (-1))%Q /\
  binary64 4 0 = true /\ -10 <= 0 /\
  (exact_op "+"%char (literal_value "2.5") (literal_value "1.5") == dyadic 4 0)%Q /\
  is_exact (evaluate "2.5 + 1.5") "2.5" "+"%char "1.5" = true /\
  evaluate "2.5 + 1.5" = Return (PyInt 4).
Proof.
  assert (H1 : (literal_value "2.5" == dyadic 5 (-1))%Q) by reflexivity.
  assert (H2 : (literal_value "1.5" == dyadic 3 (-1))%Q) by reflexivity.
  assert (H3 : (exact_op "+"%char (literal_value "2.5") (literal_value "1.5")
                == dyadic 4 0)%Q) by reflexivity.
  assert (H4 : -10 <= 0) by lia.
  do 10 (split; [first [assumption | reflexivity]|]).
  pose proof (fast_path_exact "2.5" "1.5" "+"%char 1 1 5 (-1) 3 (-1) 4 0
                eq_refl eq_refl eq_refl (fun H => False_ind _ (diff_false_true H))
                eq_refl H1 eq_refl H2 eq_refl H4 H3) as [Hx Hi].
  split; [exact Hx|]. apply Hi. reflexivity.
Defined.

(** The same on a division and on a difference below zero: [4.0 / 2.0] is
    the integer 2, and [1 - 2.5] is exact. *)
Example fast_path_exact_examples :
  evaluate "4.0 / 2.0" = Return (PyInt 2) /\
  is_exact (evaluate "1 - 2.5") "1" "-" "2.5" = true.
Proof.
  split.
  - assert (H : (literal_value "2.0" == dyadic 2 0)%Q) by reflexivity.
    apply (exact_on_binary64 "4.0" "2.0" "/" 1 1 4 0 2 0 2 0);
      try reflexivity; try lia.
    intros _ E. rewrite H in E. discriminate E.
  - apply (exact_on_binary64 "1" "2.5" "-" 1 1 1 0 5 (-1) (-3) (-1));
      try reflexivity; try lia.
    intros E. discriminate E.
Qed.

End Exactness.

(** The ten binary places are needed: [1 / 2048] is a binary64 number with
    eleven decimals, and [round(_, 10)] changes it. *)
Lemma fast_path_round_not_exact :
  evaluate "1 / 2048" = Return (PyFloat (literal_float "0.0004882812")) /\
  is_exact (evaluate "1 / 2048") "1" "/" "2048" = false.
Proof. split; vm_compute; reflexivity. Qed.

(** ** The validator and the evaluator on the same input *)

Lemma validate_true_chars s :
  validate s = Return true ->
  re_match valid_chars_pattern (strip s) <> None.
Proof.
  unfold validate, validate_expression.
  destruct s as [|a s']; [discriminate|].
  destruct (re_match valid_chars_pattern (strip (a :: s'))); simpl;
    intros H; [discriminate|discriminate H].
Qed.

(** A validated expression is not empty without its spaces, and the
    evaluator's character check accepts it. *)
Lemma validated_chars s :
  validate s = Return true ->
  remove_spaces s <> [] /\
  re_match valid_chars_pattern (remove_spaces s) <> None.
Proof.
  intros H. apply validate_true_chars in H. apply valid_chars_sound in H.
  destruct H as [Hne Hall].
  assert (Hnonempty : remove_spaces s <> []).
  { destruct (strip s) as [|c t] eqn:E; [contradiction|].
    pose proof (strip_head _ _ _ E) as Hc.
    destruct (strip_split s) as (w1 & w2 & Hs & _ & _). rewrite E in Hs.
    assert (Hin : In c (remove_spaces s)).
    { apply remove_spaces_keeps; [|exact Hc].
      rewrite Hs. apply in_or_app. right. left. reflexivity. }
    intros Hnil. rewrite Hnil in Hin. contradiction. }
  split; [exact Hnonempty|].
  apply valid_chars_complete; [exact Hnonempty|].
  apply remove_spaces_forallb, strip_allowed. exact Hall.
Qed.

(** The exceptions of the parts of the fast path. *)
Lemma py_float_raises s e :
  py_float s = Raise e -> e = ValueError "could not convert string to float".
Proof.
  unfold py_float.
  destruct (negb _); [discriminate|].
  destruct (drop_digits s) as [|c fp].
  - destruct (take_digits s); intros H; inv H; reflexivity.
  - destruct (_ && _); intros H; inv H; reflexivity.
Qed.

Lemma operators_raise key apply x y e :
  get operators key = Some apply -> apply x y = Raise e ->
  e = ZeroDivisionError "float division by zero".
Proof.
  unfold operators. simpl.
  repeat match goal with
         | |- context [pystr_eqb key ?k] => destruct (pystr_eqb key k)
         end; intros H; inv H; try discriminate.
  unfold truediv. destruct (float_is_zero y); intros H; inv H. reflexivity.
Qed.

Lemma format_result_raises x e : format_result x <> Raise e.
Proof. rewrite format_result_formatted. discriminate. Qed.

(** C1, as the code has it.  For every expression that [validate] accepts,
    [evaluate] fails neither with [EmptyExpression] nor on its own
    character-set check: the two character rules agree.  It may still fail
    with [InvalidFormat], when [eval] rejects the expression. *)
Theorem validated_passes_character_check :
  forall s : pystr,
    validate s = Return true ->
    evaluate s <> Raise (ValueError "Empty expression") /\
    evaluate s <> Raise (ValueError "Expression contains invalid characters").
Proof.
  intros s H. destruct (validated_chars s H) as [Hne Hchars].
  unfold evaluate. destruct (remove_spaces s) as [|c t] eqn:E; [contradiction|].
  destruct (re_match fast_pattern (c :: t)) as [m|].
  - destruct (py_float (group m 1)) as [x|e|] eqn:E1; cbn [bind];
      [|apply py_float_raises in E1; subst e; split; discriminate
       |split; discriminate].
    destruct (py_float (group m 3)) as [y|e|] eqn:E3; cbn [bind];
      [|apply py_float_raises in E3; subst e; split; discriminate
       |split; discriminate].
    destruct (get operators (group m 2)) as [apply|] eqn:Eop;
      [|split; simpl; discriminate].
    destruct (pystr_eqb (group m 2) "/" && float_is_zero y);
      [split; discriminate|].
    destruct (apply x y) as [r|e|] eqn:Er; cbn [bind].
    + rewrite format_result_formatted. split; discriminate.
    + apply (operators_raise _ _ _ _ _ Eop) in Er. subst e. split; discriminate.
    + split; discriminate.
  - unfold _safe_eval.
    destruct (re_match valid_chars_pattern (c :: t)); [|contradiction].
    simpl. destruct (py_eval (c :: t)); split; discriminate.
Qed.

Lemma validated_passes_character_check_witness :
  validate "(1 + 2) * 3" = Return true /\
  evaluate "(1 + 2) * 3" <> Raise (ValueError "Empty expression") /\
  evaluate "(1 + 2) * 3"
  <> Raise (ValueError "Expression contains invalid characters").
Proof.
  split; [reflexivity|].
  exact (validated_passes_character_check "(1 + 2) * 3" eq_refl).
Defined.

(** C1, as the spec words it, fails: [validate] accepts [")("] and ["."],
    and [evaluate] fails on them with [InvalidFormat]. *)
Lemma validated_but_invalid_format :
  validate ")(" = Return true /\
  evaluate ")(" = Raise (ValueError "Invalid expression format") /\
  validate "." = Return true /\
  evaluate "." = Raise (ValueError "Invalid expression format") /\
  error_kind (ValueError "Invalid expression format") = Some InvalidFormat.
Proof. repeat split; vm_compute; reflexivity. Qed.

(** ** Runs of the other operators *)

Lemma operator_run_found pre c1 c2 post :
  one_of "+*/" c1 = true -> one_of "+*/" c2 = true ->
  re_search operator_pattern (pre ++ c1 :: c2 :: post) <> None.
Proof.
  intros H1 H2. unfold re_search. apply search_from_complete.
  eapply match_alts_complete with (its := [at_least 2 (one_of "+*/")]).
  { simpl. auto. }
  eapply M_rep with (p := [c1; c2]) (q := post); auto.
  - simpl. rewrite H1, H2. reflexivity.
  - discriminate.
  - apply M_nil.
Qed.

(** Two consecutive operators of [+ * /] make [validate] return false. *)
Lemma operator_run_invalid s pre c1 c2 post :
  one_of "+*/" c1 = true -> one_of "+*/" c2 = true ->
  remove_spaces (strip s) = pre ++ c1 :: c2 :: post ->
  validate s = Return false.
Proof.
  intros H1 H2 H. unfold validate, validate_expression.
  destruct s as [|a s']; [reflexivity|].
  destruct (negb (is_some (re_match valid_chars_pattern (strip (a :: s')))));
    [reflexivity|].
  unfold _has_invalid_syntax. rewrite H.
  pose proof (operator_run_found pre c1 c2 post H1 H2) as Hf.
  destruct (re_search operator_pattern _); [reflexivity|contradiction].
Qed.

(** ** Claims about the general path and the empty expression *)

(** C7, as the code has it.  [validate] rejects ["2 + + 3"], and the
    [/calculate] handler, which asks the validator first, answers 400
    "Invalid expression".  [evaluate] itself does not fail on it: it returns
    the integer 5. *)
Theorem double_plus_rejected_by_validator :
  validate "2 + + 3" = Return false /\
  calculate "2 + + 3"
  = Return (Response 400 (Some "Invalid expression")
              (Some "Expression contains invalid characters or syntax") None) /\
  evaluate "2 + + 3" = Return (PyInt 5).
Proof. repeat split; vm_compute; reflexivity. Qed.

(** C7, as the spec words it, fails: [evaluate("2 + + 3")] returns a
    number, because [eval] reads the second [+] as a sign. *)
Lemma evaluate_accepts_double_plus :
  py_eval "2++3" = Return (PyInt 5) /\
  evaluate "2 + + 3" = Return (PyInt 5).
Proof. split; vm_compute; reflexivity. Qed.

(** C2 at ["()"]: the validator accepts it and [evaluate] returns the empty
    tuple, which is no number.  The same happens with ["..."], for which
    [evaluate] returns the ellipsis object. *)
Lemma evaluate_returns_empty_tuple :
  validate "()" = Return true /\
  evaluate "()" = Return PyEmptyTuple /\ is_numeric PyEmptyTuple = false /\
  evaluate "..." = Return PyEllipsis /\ is_numeric PyEllipsis = false.
Proof. repeat split; vm_compute; reflexivity. Qed.

(** C3 at ["(10/0)"]: [eval] raises [ZeroDivisionError], the handler around
    it turns every exception into [ValueError("Invalid expression format")],
    and [evaluate] fails with [InvalidFormat]; without the parentheses the
    fast path raises [ZeroDivisionError]. *)
Lemma general_path_division_by_zero :
  validate "(10/0)" = Return true /\
  py_eval "(10/0)" = Raise (ZeroDivisionError "division by zero") /\
  evaluate "(10/0)" = Raise (ValueError "Invalid expression format") /\
  error_kind (ValueError "Invalid expression format") = Some InvalidFormat /\
  evaluate "10/0" = Raise (ZeroDivisionError "Division by zero").
Proof. repeat split; vm_compute; reflexivity. Qed.

(** C4 at ["(4.0/2.0)"] and ["(1/3)"]: the general path returns what [eval]
    returns, the float 2.0 and the float nearest to one third, where the
    fast path returns the integer 2 and the float rounded to 10 decimals. *)
Lemma general_path_unformatted :
  validate "(4.0/2.0)" = Return true /\
  evaluate "(4.0/2.0)" = Return (PyFloat (S754_finite false 4503599627370496 (-51))) /\
  formatted (S754_finite false 4503599627370496 (-51)) = PyInt 2 /\
  evaluate "4.0/2.0" = Return (PyInt 2) /\
  evaluate "(1/3)" = Return (PyFloat (S754_finite false 6004799503160661 (-54))) /\
  evaluate "1/3" = Return (PyFloat (S754_finite false 6004799502560181 (-54))).
Proof. repeat split; vm_compute; reflexivity. Qed.

(** Blanks that end the source after a line break are an
    [IndentationError] of [eval]: [evaluate("1\n\t")] fails, and
    [evaluate("1\n\t\n")] returns 1. *)
Example trailing_blanks_rejected :
  evaluate ["1"%char; LF; TAB] = Raise (ValueError "Invalid expression format") /\
  evaluate ["1"%char; LF; TAB; LF] = Return (PyInt 1).
Proof. split; vm_compute; reflexivity. Qed.

(** C8 at a single tab: it is white space, [evaluate] removes only the
    space character, and the call fails with [InvalidFormat], not with
    [EmptyExpression]. *)
Lemma tab_only_not_empty_expression :
  is_space TAB = true /\
  remove_spaces [TAB] = [TAB] /\
  evaluate [TAB] = Raise (ValueError "Invalid expression format") /\
  error_kind (ValueError "Invalid expression format") = Some InvalidFormat.
Proof. repeat split; vm_compute; reflexivity. Qed.

(** What holds of C8: [evaluate] fails with [EmptyExpression] exactly on
    the strings made of space characters only, and [validate] returns false
    on the empty string and on values that are not strings. *)
Lemma empty_expression_iff s :
  evaluate s = Raise (ValueError "Empty expression") <->
  forallb (fun c => Ascii.eqb c SPACE) s = true.
Proof.
  split.
  - intros H.
    destruct (remove_spaces s) as [|c t] eqn:E.
    + clear H. induction s as [|a s' IH]; [reflexivity|].
      unfold remove_spaces in E. simpl in E. simpl.
      destruct (Ascii.eqb a SPACE); simpl in *; [auto|discriminate].
    + exfalso. revert H. unfold evaluate. rewrite E.
      destruct (re_match fast_pattern (c :: t)) as [m|].
      * destruct (py_float (group m 1)) as [x|e|] eqn:E1; cbn [bind];
          [|apply py_float_raises in E1; subst e; discriminate|discriminate].
        destruct (py_float (group m 3)) as [y|e|] eqn:E3; cbn [bind];
          [|apply py_float_raises in E3; subst e; discriminate|discriminate].
        destruct (get operators (group m 2)) as [apply|] eqn:Eop;
          [|simpl; discriminate].
        destruct (pystr_eqb (group m 2) "/" && float_is_zero y);
          [discriminate|].
        destruct (apply x y) as [r|e|] eqn:Er; cbn [bind].
        -- rewrite format_result_formatted. discriminate.
        -- apply (operators_raise _ _ _ _ _ Eop) in Er. subst e. discriminate.
        -- discriminate.
      * unfold _safe_eval.
        destruct (negb _); [discriminate|].
        destruct (py_eval (c :: t)); discriminate.
  - intros H. unfold evaluate.
    assert (E : remove_spaces s = []).
    { induction s as [|a s' IH]; [reflexivity|].
      simpl in H. apply andb_true_iff in H. destruct H as [Ha Hs].
      unfold remove_spaces. simpl. rewrite Ha. simpl. apply IH. exact Hs. }
    rewrite E. reflexivity.
Qed.

Lemma validate_empty_or_not_string :
  validate "" = Return false /\
  validate_expression PyNone = Return false /\
  forall t, validate_expression (PyOther t) = Return false.
Proof. repeat split. Qed.

(** ** What holds of C2: the exceptions of [evaluate], and the fast path *)

(** On the fast path both conversions to float succeed. *)
Lemma fast_path_operands s m :
  re_match fast_pattern s = Some m ->
  py_float (group m 1) = Return (literal_float (group m 1)) /\
  py_float (group m 3) = Return (literal_float (group m 3)).
Proof.
  intros H. destruct (fast_pattern_sound _ _ H)
    as (x & w1 & o & w2 & y & t & _ & Hx & _ & _ & _ & Hy & _ & G1 & _ & G3).
  rewrite G1, G3. split; apply py_float_literal; assumption.
Qed.


(** What the fast path returns is a number. *)
Lemma fast_path_returns_number s m v :
  re_match fast_pattern (remove_spaces s) = Some m ->
  evaluate s = Return v -> is_numeric v = true.
Proof.
  intros E. unfold evaluate.
  destruct (remove_spaces s) as [|c t]; [discriminate|].
  rewrite E. destruct (fast_path_operands _ _ E) as [-> ->]. cbn [bind].
  destruct (get operators (group m 2)) as [apply|]; [|discriminate].
  destruct (pystr_eqb (group m 2) "/" && float_is_zero _); [discriminate|].
  destruct (apply _ _) as [r|e'|]; cbn [bind]; try discriminate.
  rewrite format_result_formatted. intros H. inv H.
  unfold formatted. destruct (is_integer r); reflexivity.
Qed.

(** ** What "zero" covers in C9: every literal written with zeros only *)

Lemma forallb_take_digits f s :
  forallb f s = true -> forallb f (take_digits s) = true.
Proof.
  induction s as [|c s' IH]; simpl; [reflexivity|].
  intros H. apply andb_true_iff in H. destruct H as [Hc Hs].
  destruct (is_digit c); simpl; [rewrite Hc; auto|reflexivity].
Qed.

Lemma forallb_drop_digits f s :
  forallb f s = true -> forallb f (drop_digits s) = true.
Proof.
  induction s as [|c s' IH]; simpl; [reflexivity|].
  intros H. destruct (is_digit c); [|exact H].
  apply andb_true_iff in H. destruct H as [_ Hs]. auto.
Qed.

Lemma forallb_tl {A} (f : A -> bool) l :
  forallb f l = true -> forallb f (tl l) = true.
Proof.
  destruct l; simpl; [reflexivity|].
  intros H. apply andb_true_iff in H. tauto.
Qed.

Lemma int_of_zeros ds :
  forallb (is_char "0") ds = true -> int_of_digits ds = 0%Z.
Proof.
  unfold int_of_digits. induction ds as [|c ds' IH]; simpl; [reflexivity|].
  intros H. apply andb_true_iff in H. destruct H as [Hc Hs].
  apply Ascii.eqb_eq in Hc. subst c. simpl. auto.
Qed.

Lemma zero_literal_float b :
  number_literal b = true ->
  forallb (fun c => is_char "0" c || is_char "." c) b = true ->
  float_is_zero (literal_float b) = true.
Proof.
  intros Hb Hz. unfold literal_float, float_of_decimal.
  assert (Hzero : forall c, is_digit c = true ->
                            is_char "0" c || is_char "." c = true ->
                            is_char "0" c = true).
  { intros c. by_cases_on_char c. }
  assert (Hall : forallb (is_char "0") (take_digits b ++ tl (drop_digits b)) = true).
  { rewrite forallb_app. apply andb_true_iff. split.
    - pose proof (forallb_take_digits _ _ Hz) as H1.
      pose proof (take_digits_digits b) as H2.
      rewrite forallb_forall in *. intros c Hin. apply Hzero; auto.
    - pose proof (forallb_tl _ _ (forallb_drop_digits _ _ Hz)) as H1.
      assert (H2 : forallb is_digit (tl (drop_digits b)) = true).
      { unfold number_literal in Hb. destruct (drop_digits b) as [|c fp];
          [reflexivity|]. simpl.
        apply andb_true_iff in Hb. destruct Hb as [Hb _].
        apply andb_true_iff in Hb. tauto. }
      rewrite forallb_forall in *. intros c Hin. apply Hzero; auto. }
  rewrite (int_of_zeros _ Hall). reflexivity.
Qed.

(** ** The fuel of the tokenizer and of the parser is never used up *)

Lemma bind_not_unmodelled {A B} (x : outcome A) (k : A -> outcome B) :
  x <> Unmodelled -> (forall v, x = Return v -> k v <> Unmodelled) ->
  bind x k <> Unmodelled.
Proof.
  intros Hx Hk. destruct x; simpl; [auto|discriminate|contradiction].
Qed.

Lemma after_prefix (f : ascii -> bool) (s p s' : pystr) :
  s = p ++ s' ->
  List.length s' <= List.length s /\
  (1 <= List.length p -> List.length s' < List.length s) /\
  (forallb f s = true -> forallb f s' = true).
Proof.
  intros ->. rewrite length_app, forallb_app. repeat split; try lia.
  intros H. apply andb_true_iff in H. tauto.
Qed.

Lemma indentation_prefix s : forall col col' s1,
  indentation col s = (col', s1) -> exists p, s = p ++ s1.
Proof.
  induction s as [|c s' IH]; intros col col' s1 H; simpl in H.
  - inv H. exists []. reflexivity.
  - destruct (Ascii.eqb c SPACE);
      [apply IH in H; destruct H as [p ->]; exists (c :: p); reflexivity|].
    destruct (Ascii.eqb c TAB);
      [apply IH in H; destruct H as [p ->]; exists (c :: p); reflexivity|].
    destruct (Ascii.eqb c FF);
      [apply IH in H; destruct H as [p ->]; exists (c :: p); reflexivity|].
    inv H. exists []. reflexivity.
Qed.

Lemma drop_digits_prefix s : exists p, s = p ++ drop_digits s.
Proof. exists (take_digits s). apply take_drop_digits. Qed.

(** What [scan_number] leaves: the input without its leading digits, and
    also without the dot and the digits after it when a dot follows. *)
Lemma scan_number_rest s t r :
  scan_number s = Return (t, r) ->
  (r = drop_digits s /\ next_is (is_char ".") (drop_digits s) = false) \/
  (exists r0, drop_digits s = "."%char :: r0 /\ r = drop_digits r0).
Proof.
  unfold scan_number. generalize (take_digits s) as ip. intros ip.
  destruct (drop_digits s) as [|d r0].
  - split_matches; intros H; inv H; left; split; reflexivity.
  - split_matches; intros H; inv H;
      first [ left; split; reflexivity
            | right; eexists; split; reflexivity ].
Qed.

Lemma scan_number_prefix c s1 t r :
  is_digit c || (is_char "." c && next_is is_digit s1) = true ->
  scan_number (c :: s1) = Return (t, r) ->
  exists p, c :: s1 = p ++ r /\ 1 <= List.length p.
Proof.
  intros Hc H. apply scan_number_rest in H.
  destruct (is_digit c) eqn:Hd.
  - assert (Hdrop : drop_digits (c :: s1) = drop_digits s1)
      by (simpl; rewrite Hd; reflexivity).
    rewrite Hdrop in H. destruct (drop_digits_prefix s1) as [p Hp].
    destruct H as [[-> _] | (r0 & Hr0 & ->)].
    + exists (c :: p). simpl. split; [congruence|lia].
    + destruct (drop_digits_prefix r0) as [p1 Hp1].
      exists (c :: p ++ "."%char :: p1). simpl. split; [|lia].
      rewrite <- app_assoc. simpl. congruence.
  - simpl in Hc. apply andb_true_iff in Hc. destruct Hc as [Hdot _].
    assert (Hdrop : drop_digits (c :: s1) = c :: s1)
      by (simpl; rewrite Hd; reflexivity).
    rewrite Hdrop in H. destruct H as [[_ Hno] | (r0 & Hr0 & ->)].
    + simpl in Hno. congruence.
    + inv Hr0. destruct (drop_digits_prefix r0) as [p Hp].
      exists ("."%char :: p). simpl. split; [congruence|lia].
Qed.

Lemma scan_number_modelled s : scan_number s <> Unmodelled.
Proof.
  unfold scan_number. generalize (take_digits s) as ip. intros ip.
  destruct (drop_digits s) as [|d r0]; split_matches; discriminate.
Qed.

Lemma punctuation_prefix s t s' :
  punctuation s = Some (t, s') ->
  exists p, s = p ++ s' /\ 1 <= List.length p.
Proof.
  assert (Hone : forall (c : ascii) (r : pystr) (t' : token),
             Some (t', r) = Some (t, s') ->
             exists p, c :: r = p ++ s' /\ 1 <= List.length p).
  { intros c r t' H. inv H. exists [c]. simpl. split; [reflexivity|lia]. }
  assert (Htwo : forall (c d : ascii) (r : pystr) (t' : token),
             Some (t', r) = Some (t, s') ->
             exists p, c :: d :: r = p ++ s' /\ 1 <= List.length p).
  { intros c d r t' H. inv H. exists [c; d]. simpl. split; [reflexivity|lia]. }
  assert (Hthree : forall (c d e : ascii) (r : pystr) (t' : token),
             Some (t', r) = Some (t, s') ->
             exists p, c :: d :: e :: r = p ++ s' /\ 1 <= List.length p).
  { intros c d e r t' H. inv H. exists [c; d; e]. simpl.
    split; [reflexivity|lia]. }
  destruct s as [|c s1]; [discriminate|].
  destruct c as [[] [] [] [] [] [] [] []]; simpl; try discriminate;
    try (apply Hone);
    (destruct s1 as [|d s2]; [apply Hone|]);
    destruct d as [[] [] [] [] [] [] [] []]; try (apply Hone);
    try (apply Htwo);
    (destruct s2 as [|e s3]; [apply Hone|]);
    destruct e as [[] [] [] [] [] [] [] []]; try (apply Hone);
    apply Hthree.
Qed.

Lemma tokenize_fuel fuel : forall (level : nat) (atbol : bool) (s : pystr),
  2 * List.length s + (if atbol then 1 else 0) < fuel ->
  forallb allowed_char s = true ->
  tokenize fuel level atbol s <> Unmodelled.
Proof.
  induction fuel as [|fuel IH]; intros level atbol s Hfuel Hall; [lia|].
  simpl. destruct atbol.
  - destruct (indentation 0 s) as [col s1] eqn:Ei.
    destruct (indentation_prefix _ _ _ _ Ei) as [p Hp].
    destruct (after_prefix allowed_char _ _ _ Hp) as (Hlen & _ & Hall1).
    specialize (Hall1 Hall).
    destruct s1 as [|c s2];
      [destruct (Nat.eqb level 0 && negb (Nat.eqb col 0)); discriminate|].
    simpl in Hlen, Hall1. apply andb_true_iff in Hall1.
    destruct Hall1 as [_ Hall2].
    destruct (is_newline c); [apply IH; [lia|exact Hall2]|].
    destruct (Nat.eqb level 0 && negb (Nat.eqb col 0)); [discriminate|].
    apply IH; [simpl; lia|]. simpl. apply andb_true_iff.
    split; [|exact Hall2].
    destruct (after_prefix allowed_char _ _ _ Hp) as (_ & _ & H).
    specialize (H Hall). simpl in H. apply andb_true_iff in H. tauto.
  - destruct s as [|c s1]; [discriminate|].
    simpl in Hfuel. pose proof Hall as Hall0.
    simpl in Hall. apply andb_true_iff in Hall. destruct Hall as [Hc Hall1].
    destruct (Ascii.eqb c SPACE || Ascii.eqb c TAB || Ascii.eqb c FF);
      [apply IH; [lia|exact Hall1]|].
    destruct (is_newline c).
    { destruct (Nat.eqb level 0).
      - apply bind_not_unmodelled; [apply IH; [lia|exact Hall1]|discriminate].
      - apply IH; [lia|exact Hall1]. }
    destruct (is_digit c || (is_char "." c && next_is is_digit s1)) eqn:Hnum.
    { apply bind_not_unmodelled; [apply scan_number_modelled|].
      intros [t r] Hr.
      destruct (scan_number_prefix _ _ _ _ Hnum Hr) as (p & Hp & Hp1).
      destruct (after_prefix allowed_char _ _ _ Hp) as (_ & Hlt & Hallr).
      specialize (Hlt Hp1). simpl in Hlt.
      apply bind_not_unmodelled; [|discriminate].
      apply IH; [simpl; lia|exact (Hallr Hall0)]. }
    destruct (punctuation (c :: s1)) as [[t s']|] eqn:Ep;
      [|rewrite Hc; discriminate].
    destruct (punctuation_prefix _ _ _ Ep) as (p & Hp & Hp1).
    destruct (after_prefix allowed_char _ _ _ Hp) as (_ & Hlt & Halls).
    specialize (Hlt Hp1). simpl in Hlt. specialize (Halls Hall0).
    assert (Hnext : forall level',
               tokenize fuel level' false s' <> Unmodelled)
      by (intros level'; apply IH; [simpl; lia|exact Halls]).
    destruct t; try (apply bind_not_unmodelled; [apply Hnext|discriminate]).
    destruct level; [discriminate|].
    apply bind_not_unmodelled; [apply Hnext|discriminate].
Qed.

(** A parenthesised part: the operand read from [ts], the closing
    parenthesis, and what [parse_rest] reads after it. *)
Lemma expect_rpar_ok fuel minp ts (wrap : expr -> expr) :
  operand_ok fuel -> rest_ok fuel -> List.length ts < fuel ->
  expect_rpar (parse_operand fuel 0 ts)
              (fun e rest' => parse_rest fuel minp (wrap e) rest') <> NoFuel /\
  forall e rest,
    expect_rpar (parse_operand fuel 0 ts)
                (fun e rest' => parse_rest fuel minp (wrap e) rest')
    = Parsed e rest ->
    List.length rest < List.length ts.
Proof.
  intros Hop Hrest Hlen.
  destruct (Hop 0 ts Hlen) as [Hnf Hshorter].
  destruct (parse_operand fuel 0 ts) as [e0 r0| |]; simpl;
    [|split; [discriminate|intros; discriminate]|contradiction].
  specialize (Hshorter e0 r0 eq_refl).
  destruct r0 as [|t r1]; [split; [discriminate|intros; discriminate]|].
  destruct t; try (split; [discriminate|intros; discriminate]).
  simpl in Hshorter.
  destruct (Hrest minp (wrap e0) r1 ltac:(lia)) as [Hnf' Hle].
  split; [exact Hnf'|].
  intros e rest H. specialize (Hle e rest H). lia.
Qed.

Lemma parse_fuel fuel : operand_ok fuel /\ rest_ok fuel.
Proof.
  induction fuel as [|fuel [IHop IHrest]].
  { split; intros minp; intros; lia. }
  assert (Hafter : forall minp lhs (t : token) ts rest,
             List.length (t :: ts) < S fuel -> List.length rest <= List.length ts ->
             parse_rest fuel minp lhs rest <> NoFuel /\
             forall e r, parse_rest fuel minp lhs rest = Parsed e r ->
                         List.length r < List.length (t :: ts)).
  { intros minp lhs t ts rest Hlen Hle. simpl in Hlen.
    destruct (IHrest minp lhs rest ltac:(lia)) as [Hnf Hshort].
    split; [exact Hnf|]. intros e r H. specialize (Hshort e r H). simpl. lia. }
  assert (Hparen : forall minp (t : token) ts (wrap : expr -> expr),
             List.length (t :: ts) < S fuel ->
             expect_rpar (parse_operand fuel 0 ts)
               (fun e rest' => parse_rest fuel minp (wrap e) rest') <> NoFuel /\
             forall e r,
               expect_rpar (parse_operand fuel 0 ts)
                 (fun e rest' => parse_rest fuel minp (wrap e) rest')
               = Parsed e r ->
               List.length r < List.length (t :: ts)).
  { intros minp t ts wrap Hlen. simpl in Hlen.
    destruct (expect_rpar_ok fuel minp ts wrap IHop IHrest ltac:(lia))
      as [Hnf Hshort].
    split; [exact Hnf|]. intros e r H. specialize (Hshort e r H). simpl. lia. }
  assert (Hsigned : forall minp (op : unop) (t : token) ts,
             List.length (t :: ts) < S fuel ->
             match parse_operand fuel 3 ts with
             | Parsed e rest' => parse_rest fuel minp (UnaryOp op e) rest'
             | other => other
             end <> NoFuel /\
             forall e r,
               match parse_operand fuel 3 ts with
               | Parsed e rest' => parse_rest fuel minp (UnaryOp op e) rest'
               | other => other
               end = Parsed e r ->
               List.length r < List.length (t :: ts)).
  { intros minp op t ts Hlen. simpl in Hlen.
    destruct (IHop 3 ts ltac:(lia)) as [Hnf Hshort].
    destruct (parse_operand fuel 3 ts) as [e0 r0| |];
      [|split; [discriminate|intros; discriminate]|contradiction].
    specialize (Hshort e0 r0 eq_refl).
    destruct (IHrest minp (UnaryOp op e0) r0 ltac:(lia)) as [Hnf' Hle].
    split; [exact Hnf'|]. intros e r H. specialize (Hle e r H). simpl. lia. }
  split.
  - (* parse_operand *)
    intros minp ts Hlen.
    destruct ts as [|t rest]; [split; [discriminate|intros; discriminate]|].
    destruct t; simpl parse_operand;
      try (split; [discriminate|intros; discriminate]);
      try (apply (Hafter minp _ _ rest rest Hlen (Nat.le_refl _)));
      try (apply Hsigned; exact Hlen).
    (* an opening parenthesis *)
    destruct rest as [|t2 rest2].
    { apply (Hparen minp LPAR [] (fun e => e) Hlen). }
    destruct t2;
      try (apply (Hparen minp LPAR (_ :: rest2) (fun e => e) Hlen)).
    apply (Hafter minp _ LPAR (RPAR :: rest2) rest2 Hlen). simpl. lia.
  - (* parse_rest *)
    intros minp lhs ts Hlen.
    assert (Hweaken : forall (r : presult) (t : token) ts0,
               (r <> NoFuel /\
                forall e r', r = Parsed e r' ->
                             List.length r' < List.length (t :: ts0)) ->
               r <> NoFuel /\
               forall e r', r = Parsed e r' ->
                            List.length r' <= List.length (t :: ts0)).
    { intros r t ts0 [Hnf Hlt]. split; [exact Hnf|].
      intros e r' H. specialize (Hlt e r' H). lia. }
    assert (Hstop : forall ts0,
               Parsed lhs ts0 <> NoFuel /\
               forall e r', Parsed lhs ts0 = Parsed e r' ->
                            List.length r' <= List.length ts0).
    { intros ts0. split; [discriminate|]. intros e r' H. inv H. lia. }
    assert (Hbinary : forall (t : token) rest,
               List.length (t :: rest) < S fuel ->
               match binary t with
               | Some (op, p) =>
                   if Nat.leb minp p then
                     match parse_operand fuel (right_strength op p) rest with
                     | Parsed rhs rest' =>
                         parse_rest fuel minp (BinOp lhs op rhs) rest'
                     | other => other
                     end
                   else Parsed lhs (t :: rest)
               | None => Parsed lhs (t :: rest)
               end <> NoFuel /\
               forall e r',
                 match binary t with
                 | Some (op, p) =>
                     if Nat.leb minp p then
                       match parse_operand fuel (right_strength op p) rest with
                       | Parsed rhs rest' =>
                           parse_rest fuel minp (BinOp lhs op rhs) rest'
                       | other => other
                       end
                     else Parsed lhs (t :: rest)
                 | None => Parsed lhs (t :: rest)
                 end = Parsed e r' ->
                 List.length r' <= List.length (t :: rest)).
    { intros t rest Hl. destruct (binary t) as [[op p]|]; [|apply Hstop].
      destruct (Nat.leb minp p); [|apply Hstop].
      simpl in Hl.
      destruct (IHop (right_strength op p) rest ltac:(lia)) as [Hnf Hshort].
      destruct (parse_operand fuel (right_strength op p) rest) as [e0 r0| |];
        [|split; [discriminate|intros; discriminate]|contradiction].
      specialize (Hshort e0 r0 eq_refl).
      destruct (IHrest minp (BinOp lhs op e0) r0 ltac:(lia)) as [Hnf' Hle].
      split; [exact Hnf'|]. intros e r' H. specialize (Hle e r' H).
      simpl. lia. }
    destruct ts as [|t rest]; [apply Hstop|].
    destruct t; simpl parse_rest; try (apply (Hbinary _ rest Hlen)).
    (* an opening parenthesis: a call *)
    destruct rest as [|t2 rest2].
    { apply Hweaken. apply (Hparen minp LPAR [] (fun e => Call1 lhs Plain e) Hlen). }
    destruct t2;
      try (apply Hweaken;
           apply (Hparen minp LPAR (_ :: rest2) (fun e => Call1 lhs Plain e) Hlen)).
    + (* f( * x ) *)
      apply Hweaken.
      assert (Hl2 : List.length (STAR :: rest2) < S fuel) by (simpl in *; lia).
      destruct (Hparen minp STAR rest2 (fun e => Call1 lhs Starred e) Hl2)
        as [Hnf Hlt].
      split; [exact Hnf|]. intros e r' H. specialize (Hlt e r' H).
      simpl in *. lia.
    + (* f( ** x ) *)
      apply Hweaken.
      assert (Hl2 : List.length (DOUBLESTAR :: rest2) < S fuel)
        by (simpl in *; lia).
      destruct (Hparen minp DOUBLESTAR rest2 (fun e => Call1 lhs DoubleStarred e) Hl2)
        as [Hnf Hlt].
      split; [exact Hnf|]. intros e r' H. specialize (Hlt e r' H).
      simpl in *. lia.
    + (* f() *)
      apply Hweaken.
      apply (Hafter minp _ LPAR (RPAR :: rest2) rest2 Hlen). simpl. lia.
Qed.

Lemma parse_modelled ts : parse ts <> Unmodelled.
Proof.
  unfold parse.
  destruct (parse_fuel (2 * List.length ts + 2)) as [Hop _].
  destruct (Hop 0 ts ltac:(lia)) as [Hnf _].
  destruct (parse_operand _ 0 ts) as [e r| |]; [|discriminate|contradiction].
  destruct (forallb _ r); discriminate.
Qed.

Lemma skip_blanks_prefix s : exists p, s = p ++ skip_blanks s.
Proof.
  induction s as [|c s' [p Hp]]; simpl.
  - exists []. reflexivity.
  - destruct (Ascii.eqb c SPACE || Ascii.eqb c TAB).
    + exists (c :: p). simpl. congruence.
    + exists []. reflexivity.
Qed.

(** On the evaluator's alphabet [eval] is modelled up to the arithmetic:
    the source is tokenized and parsed, and only the evaluation of the
    expression can be outside the model. *)
Lemma py_eval_unmodelled s :
  forallb allowed_char s = true -> py_eval s = Unmodelled ->
  exists ts e,
    tokenize (2 * List.length (skip_blanks s) + 2) 0 true (skip_blanks s)
    = Return ts /\
    parse ts = Return e /\ eval_expr e = Unmodelled.
Proof.
  intros Hall. unfold py_eval.
  destruct (skip_blanks_prefix s) as [p Hp].
  destruct (after_prefix allowed_char _ _ _ Hp) as (_ & _ & Hall').
  specialize (Hall' Hall).
  assert (Htok : tokenize (2 * List.length (skip_blanks s) + 2) 0 true
                          (skip_blanks s) <> Unmodelled).
  { apply tokenize_fuel; [cbv iota; lia|exact Hall']. }
  destruct (tokenize _ 0 true (skip_blanks s)) as [ts|e|] eqn:Et;
    [|discriminate|contradiction].
  cbn [bind]. pose proof (parse_modelled ts) as Hparse.
  destruct (parse ts) as [e|e|] eqn:Ep; [|discriminate|contradiction].
  cbn [bind]. intros H. exists ts, e. repeat split; assumption.
Qed.

(** The same for [evaluate]: the fast path is modelled in full. *)
Lemma evaluate_unmodelled s :
  evaluate s = Unmodelled ->
  exists ts e, parse ts = Return e /\ eval_expr e = Unmodelled.
Proof.
  unfold evaluate. destruct (remove_spaces s) as [|c t]; [discriminate|].
  destruct (re_match fast_pattern (c :: t)) as [m|] eqn:E.
  - destruct (fast_path_operands _ _ E) as [-> ->]. cbn [bind].
    destruct (get operators (group m 2)) as [apply|] eqn:Eop; [|discriminate].
    destruct (pystr_eqb (group m 2) "/" && float_is_zero _); [discriminate|].
    destruct (apply _ _) as [r|e'|] eqn:Er; cbn [bind].
    + rewrite format_result_formatted. discriminate.
    + discriminate.
    + exfalso. revert Eop Er. unfold operators. simpl.
      repeat match goal with
             | |- context [pystr_eqb ?a ?k] => destruct (pystr_eqb a k)
             end; intros H; inv H; try discriminate.
      unfold truediv. destruct (float_is_zero _); discriminate.
  - unfold _safe_eval.
    destruct (re_match valid_chars_pattern (c :: t)) as [m|] eqn:Ec;
      [|discriminate].
    assert (Hall : forallb allowed_char (c :: t) = true).
    { apply valid_chars_sound. rewrite Ec. discriminate. }
    simpl negb. cbv iota.
    destruct (py_eval (c :: t)) eqn:Ev; try discriminate.
    intros _. destruct (py_eval_unmodelled _ Hall Ev) as (ts & e & _ & H1 & H2).
    exists ts, e. auto.
Qed.

(** * Further properties of the validator, the evaluator and the routes *)

(** ** What a search finds *)

Lemma match_alts_sound subject r s m :
  match_alts subject r s = Some m ->
  exists its, In its r /\ matches subject its (MState s [] []) m.
Proof.
  induction r as [|its0 r' IH]; simpl; [discriminate|].
  destruct (match_items subject its0 (MState s [] [])) as [m0|] eqn:E.
  - intros H. inv H. exists its0. split; [auto|].
    apply match_items_sound. exact E.
  - intros H. destruct (IH H) as (its & Hin & Hm). exists its. auto.
Qed.

Lemma search_from_sound subject r s m :
  search_from subject r s = Some m ->
  exists s1 s2, s = s1 ++ s2 /\ match_alts subject r s2 = Some m.
Proof.
  induction s as [|c s' IH]; simpl.
  - destruct (match_alts subject r []) as [m0|] eqn:E; [|discriminate].
    intros H. inv H. exists [], []. auto.
  - destruct (match_alts subject r (c :: s')) as [m0|] eqn:E.
    + intros H. inv H. exists [], (c :: s'). auto.
    + intros H. destruct (IH H) as (s1 & s2 & -> & Hm).
      exists (c :: s1), s2. auto.
Qed.

(** ** The operator pattern finds adjacent operators, and nothing else *)

Lemma adjacent_operators_found pre c1 c2 post :
  operator_pair c1 c2 = true ->
  has_adjacent_operators (pre ++ c1 :: c2 :: post) = true.
Proof.
  intros H. induction pre as [|c pre' IH].
  - simpl. unfold operator_pair in H. rewrite H. reflexivity.
  - change ((c :: pre') ++ c1 :: c2 :: post)
      with (c :: (pre' ++ c1 :: c2 :: post)).
    simpl. simpl in IH. rewrite IH. apply orb_true_r.
Qed.

Lemma adjacent_operators_where e :
  has_adjacent_operators e = true ->
  exists pre c1 c2 post,
    e = pre ++ c1 :: c2 :: post /\ operator_pair c1 c2 = true.
Proof.
  induction e as [|c1 t IH]; [discriminate|].
  simpl. intros H. apply orb_true_iff in H. destruct H as [H|H].
  - destruct t as [|c2 t']; [discriminate|].
    exists [], c1, c2, t'. auto.
  - destruct (IH H) as (pre & d1 & d2 & post & -> & Hp).
    exists (c1 :: pre), d1, d2, post. auto.
Qed.

Lemma operator_pattern_sound e :
  re_search operator_pattern e <> None -> has_adjacent_operators e = true.
Proof.
  unfold re_search. destruct (search_from e operator_pattern e) as [m|] eqn:E;
    [intros _|intros H; contradiction].
  destruct (search_from_sound _ _ _ _ E) as (s1 & s2 & -> & Hm).
  destruct (match_alts_sound _ _ _ _ Hm) as (its & Hin & Hmatch).
  unfold operator_pattern, at_least, one, plus in Hin. simpl in Hin.
  destruct Hin as [<- | [<- | [<- | []]]]; inv_matches; simpl in *; subst.
  - (* [+*/]{2,} *)
    match goal with
    | Hp : forallb (one_of "+*/") ?p = true, Hlen : 2 <= List.length ?p |- _ =>
        destruct p as [|c1 [|c2 p']]; simpl in Hlen; try lia;
        simpl in Hp; apply andb_true_iff in Hp; destruct Hp as [H1 Hp];
        apply andb_true_iff in Hp; destruct Hp as [H2 _]
    end.
    simpl. apply adjacent_operators_found. unfold operator_pair.
    rewrite H1, H2. reflexivity.
  - (* --+(?!\d) *)
    match goal with
    | Hp : forallb (is_char "-") ?p = true, Hlen : 1 <= List.length ?p,
      Hq : forallb (is_char "-") ?q = true, Hlen' : 1 <= List.length ?q |- _ =>
        destruct p as [|c1 p']; simpl in Hlen; try lia;
        destruct q as [|c2 q']; simpl in Hlen'; try lia;
        simpl in Hp, Hq;
        apply andb_true_iff in Hp; destruct Hp as [H1 Hp];
        apply andb_true_iff in Hq; destruct Hq as [H2 Hq]
    end.
    match goal with
    | Hb : forall h, Some 1 = Some h -> _ |- _ =>
        specialize (Hb 1 eq_refl); simpl in Hb
    end.
    destruct p'; [|simpl in *; lia].
    simpl. apply adjacent_operators_found. unfold operator_pair.
    rewrite H1, H2. apply orb_true_r.
  - (* -{2,}(?=\d) *)
    match goal with
    | Hp : forallb (is_char "-") ?p = true, Hlen : 2 <= List.length ?p |- _ =>
        destruct p as [|c1 [|c2 p']]; simpl in Hlen; try lia;
        simpl in Hp; apply andb_true_iff in Hp; destruct Hp as [H1 Hp];
        apply andb_true_iff in Hp; destruct Hp as [H2 _]
    end.
    simpl. apply adjacent_operators_found. unfold operator_pair.
    rewrite H1, H2. apply orb_true_r.
Qed.

Lemma operator_pattern_complete e :
  has_adjacent_operators e = true -> re_search operator_pattern e <> None.
Proof.
  intros H. destruct (adjacent_operators_where e H)
    as (pre & c1 & c2 & post & -> & Hp).
  unfold operator_pair in Hp. apply orb_true_iff in Hp.
  destruct Hp as [Hp|Hp]; apply andb_true_iff in Hp; destruct Hp as [H1 H2].
  - apply operator_run_found; assumption.
  - apply Ascii.eqb_eq in H1, H2. subst c1 c2. apply double_minus_found.
Qed.

Lemma operator_search_scan e :
  is_some (re_search operator_pattern e) = has_adjacent_operators e.
Proof.
  destruct (has_adjacent_operators e) eqn:H.
  - apply operator_pattern_complete in H.
    destruct (re_search operator_pattern e); [reflexivity|contradiction].
  - destruct (re_search operator_pattern e) as [m|] eqn:E; [|reflexivity].
    assert (Hs : re_search operator_pattern e <> None)
      by (rewrite E; discriminate).
    apply operator_pattern_sound in Hs. congruence.
Qed.

(** X1.  The search for [r'[+\*/]{2,}|--+(?!\d)|-{2,}(?=\d)'] succeeds
    exactly on the strings that have two adjacent operators of [+ * /] or
    two adjacent minus signs; the lookaheads make no difference. *)
Theorem operator_pattern_adjacent :
  forall e : pystr,
    is_some (re_search operator_pattern e) = has_adjacent_operators e.
Proof. exact operator_search_scan. Qed.

(** ** The decimal pattern finds two dots around digits, and nothing else *)

Lemma drop_digits_app ds r :
  forallb is_digit ds = true -> drop_digits (ds ++ r) = drop_digits r.
Proof.
  induction ds as [|d ds' IH]; simpl; [reflexivity|].
  intros H. apply andb_true_iff in H. destruct H as [Hd Hds].
  rewrite Hd. auto.
Qed.

Lemma dot_not_digit c : is_char "." c = true -> is_digit c = false.
Proof. by_cases_on_char c. Qed.

Lemma two_dots_found pre c1 ds c2 post :
  is_char "." c1 = true -> forallb is_digit ds = true ->
  is_char "." c2 = true ->
  has_two_dots (pre ++ c1 :: ds ++ c2 :: post) = true.
Proof.
  intros H1 Hds H2. induction pre as [|c pre' IH].
  - simpl. rewrite H1, drop_digits_app by exact Hds. simpl.
    rewrite (dot_not_digit _ H2). simpl. rewrite H2. reflexivity.
  - change ((c :: pre') ++ c1 :: ds ++ c2 :: post)
      with (c :: (pre' ++ c1 :: ds ++ c2 :: post)).
    simpl. rewrite IH. apply orb_true_r.
Qed.

Lemma two_dots_where e :
  has_two_dots e = true ->
  exists pre c1 ds c2 post,
    e = pre ++ c1 :: ds ++ c2 :: post /\
    is_char "." c1 = true /\ forallb is_digit ds = true /\
    is_char "." c2 = true.
Proof.
  induction e as [|c t IH]; [discriminate|].
  simpl. intros H. apply orb_true_iff in H. destruct H as [H|H].
  - apply andb_true_iff in H. destruct H as [Hc Hnext].
    pose proof (take_drop_digits t) as Ht.
    destruct (drop_digits t) as [|c2 post]; [discriminate|].
    simpl in Hnext.
    exists [], c, (take_digits t), c2, post. simpl.
    rewrite <- Ht. repeat split; auto. apply take_digits_digits.
  - destruct (IH H) as (pre & c1 & ds & c2 & post & -> & H1 & Hds & H2).
    exists (c :: pre), c1, ds, c2, post. auto.
Qed.

Lemma decimal_pattern_sound e :
  re_search decimal_pattern e <> None -> has_two_dots e = true.
Proof.
  unfold re_search. destruct (search_from e decimal_pattern e) as [m|] eqn:E;
    [intros _|intros H; contradiction].
  destruct (search_from_sound _ _ _ _ E) as (s1 & s2 & -> & Hm).
  destruct (match_alts_sound _ _ _ _ Hm) as (its & Hin & Hmatch).
  unfold decimal_pattern, star, one in Hin. simpl in Hin.
  destruct Hin as [<- | []]. inv_matches. simpl in *. subst.
  repeat match goal with
         | H : forall h, None = Some h -> _ |- _ => clear H
         | H : 0 <= _ |- _ => clear H
         | H : forall h, Some 1 = Some h -> _ |- _ => specialize (H 1 eq_refl)
         end.
  repeat match goal with
         | Hp : forallb (is_char ".") ?p = true, Hlo : 1 <= List.length ?p,
           Hhi : List.length ?p <= 1 |- _ =>
             destruct p as [|? [|? ?]]; simpl in Hlo, Hhi; try lia;
             simpl in Hp; rewrite andb_true_r in Hp; clear Hlo Hhi
         end.
  match goal with
  | |- has_two_dots (?s1 ++ ?p1 ++ [?c1] ++ ?p2 ++ [?c2] ++ ?rest) = true =>
      replace (s1 ++ p1 ++ [c1] ++ p2 ++ [c2] ++ rest)
        with ((s1 ++ p1) ++ c1 :: p2 ++ c2 :: rest)
        by (rewrite <- app_assoc; reflexivity)
  end.
  apply two_dots_found; assumption.
Qed.

Lemma decimal_pattern_complete e :
  has_two_dots e = true -> re_search decimal_pattern e <> None.
Proof.
  intros H. destruct (two_dots_where e H)
    as (pre & c1 & ds & c2 & post & -> & H1 & Hds & H2).
  unfold re_search. apply search_from_complete.
  eapply match_alts_complete; [left; reflexivity|].
  eapply M_rep with (p := []) (q := c1 :: ds ++ c2 :: post);
    [reflexivity|reflexivity|simpl; lia|discriminate|].
  eapply M_rep with (p := [c1]) (q := ds ++ c2 :: post);
    [reflexivity|simpl; rewrite H1; reflexivity|simpl; lia
    |intros h Hh; inv Hh; simpl; lia|].
  eapply M_rep with (p := ds) (q := c2 :: post);
    [reflexivity|exact Hds|lia|discriminate|].
  eapply M_rep with (p := [c2]) (q := post);
    [reflexivity|simpl; rewrite H2; reflexivity|simpl; lia
    |intros h Hh; inv Hh; simpl; lia|].
  eapply M_rep with (p := []) (q := post);
    [reflexivity|reflexivity|simpl; lia|discriminate|].
  apply M_nil.
Qed.

Lemma decimal_search_scan e :
  is_some (re_search decimal_pattern e) = has_two_dots e.
Proof.
  destruct (has_two_dots e) eqn:H.
  - apply decimal_pattern_complete in H.
    destruct (re_search decimal_pattern e); [reflexivity|contradiction].
  - destruct (re_search decimal_pattern e) as [m|] eqn:E; [|reflexivity].
    assert (Hs : re_search decimal_pattern e <> None)
      by (rewrite E; discriminate).
    apply decimal_pattern_sound in Hs. congruence.
Qed.

(** X2.  The search for [r'\d*\.\d*\.\d*'] succeeds exactly on the strings
    that have two dots with nothing but digits between them. *)
Theorem decimal_pattern_two_dots :
  forall e : pystr,
    is_some (re_search decimal_pattern e) = has_two_dots e.
Proof. exact decimal_search_scan. Qed.

(** ** The validator without patterns *)

Lemma valid_chars_forallb s :
  is_some (re_match valid_chars_pattern s)
  = match s with [] => false | _ => forallb allowed_char s end.
Proof.
  destruct (re_match valid_chars_pattern s) as [m|] eqn:E.
  - assert (H : re_match valid_chars_pattern s <> None)
      by (rewrite E; discriminate).
    apply valid_chars_sound in H. destruct H as [Hne Hall].
    destruct s; [contradiction|]. simpl is_some. symmetry. exact Hall.
  - destruct s as [|c t]; [reflexivity|]. simpl is_some.
    destruct (forallb allowed_char (c :: t)) eqn:Hall; [|reflexivity].
    exfalso. apply (valid_chars_complete (c :: t)); [discriminate|exact Hall|exact E].
Qed.

(** [validate_expression] computes [well_formed]. *)
Lemma validate_is_well_formed s : validate s = Return (well_formed s).
Proof.
  unfold validate, validate_expression, well_formed.
  destruct s as [|a s']; [reflexivity|].
  rewrite valid_chars_forallb.
  destruct (strip (a :: s')) as [|c t] eqn:Es; [reflexivity|].
  rewrite (remove_spaces_cons c t (strip_head _ _ _ Es)).
  destruct (forallb allowed_char (c :: t)) eqn:Hall; [|reflexivity].
  cbn [negb andb]. unfold _has_invalid_syntax.
  rewrite (remove_spaces_cons c t (strip_head _ _ _ Es)).
  rewrite operator_search_scan, decimal_search_scan.
  destruct (has_adjacent_operators (c :: remove_spaces t)); [reflexivity|].
  cbn [negb andb bind].
  destruct (one_of "+*/" c); [reflexivity|].
  cbn [negb andb orb].
  destruct (one_of "+*/-" (last (c :: remove_spaces t) c)); [reflexivity|].
  cbn [negb andb].
  destruct (has_two_dots (c :: remove_spaces t)); [reflexivity|].
  cbn [negb andb].
  destruct (Nat.eqb (count "(" (c :: remove_spaces t))
                    (count ")" (c :: remove_spaces t))); reflexivity.
Qed.

(** X3.  [validate_expression] accepts a string exactly when, once trimmed,
    it is not empty, has only digits, [+ - * / . ( )] and white space, has
    no two adjacent operators of [+ * /] and no two adjacent minus signs,
    does not start with [+ * /] nor end with [+ - * /], has no two dots
    separated by digits only, and has as many [(] as [)] (the last five on
    the string without its spaces). *)
Theorem validate_well_formed :
  forall s : pystr, validate s = Return (well_formed s).
Proof. exact validate_is_well_formed. Qed.

(** ** Every outcome of the fast path *)

Lemma lstrip_idempotent s : lstrip (lstrip s) = lstrip s.
Proof.
  destruct (lstrip s) as [|c t] eqn:E; [reflexivity|].
  simpl. rewrite (lstrip_head _ _ _ E). reflexivity.
Qed.

Lemma rstrip_idempotent s : rstrip (rstrip s) = rstrip s.
Proof.
  unfold rstrip. rewrite rev_involutive, lstrip_idempotent. reflexivity.
Qed.

Lemma strip_idempotent s : strip (strip s) = strip s.
Proof.
  assert (Hl : lstrip (strip s) = strip s).
  { destruct (strip s) as [|c t] eqn:E; [reflexivity|].
    simpl. rewrite (strip_head _ _ _ E). reflexivity. }
  unfold strip at 1. rewrite Hl. unfold strip. apply rstrip_idempotent.
Qed.

Lemma fast_match_operator s m :
  re_match fast_pattern s = Some m ->
  exists o, group m 2 = [o] /\ one_of "+-*/" o = true.
Proof.
  intros H. destruct (fast_pattern_sound _ _ H)
    as (x & w1 & o & w2 & y & t & _ & _ & _ & Ho & _ & _ & _ & _ & G2 & _).
  exists o. auto.
Qed.

Lemma fast_match_allowed s m :
  re_match fast_pattern s = Some m -> forallb allowed_char s = true.
Proof.
  intros H. destruct (fast_pattern_sound _ _ H)
    as (x & w1 & o & w2 & y & t & -> & Hx & Hw1 & Ho & Hw2 & Hy & Ht & _).
  assert (Hnum : forall c, numchar c = true -> allowed_char c = true)
    by (intros c; by_cases_on_char c).
  assert (Hop : forall c, one_of "+-*/" c = true -> allowed_char c = true)
    by (intros c; by_cases_on_char c).
  rewrite !forallb_app.
  rewrite (forallb_impl _ _ _ Hnum (number_literal_numchars _ Hx)).
  rewrite (forallb_impl _ _ _ space_allowed Hw1).
  rewrite (forallb_impl _ _ _ space_allowed Hw2).
  rewrite (forallb_impl _ _ _ Hnum (number_literal_numchars _ Hy)).
  simpl. rewrite (Hop o Ho). simpl.
  destruct t as [|c [|c' t']]; try discriminate; [reflexivity|].
  simpl in Ht. apply Ascii.eqb_eq in Ht. subst c. reflexivity.
Qed.

(** What [evaluate] does when the fast path matches. *)
Lemma evaluate_on_match s c t m :
  remove_spaces s = c :: t ->
  re_match fast_pattern (c :: t) = Some m ->
  exists o,
    group m 2 = [o] /\ one_of "+-*/" o = true /\
    evaluate s =
    if is_char "/" o && float_is_zero (literal_float (group m 3))
    then Raise (ZeroDivisionError "Division by zero")
    else Return (formatted (float_op o (literal_float (group m 1))
                                       (literal_float (group m 3)))).
Proof.
  intros Hs Hm. destruct (fast_match_operator _ _ Hm) as (o & G2 & Ho).
  exists o. split; [exact G2|]. split; [exact Ho|].
  unfold evaluate. rewrite Hs, Hm.
  destruct (fast_path_operands _ _ Hm) as [-> ->]. cbn [bind]. rewrite G2.
  destruct (operator_cases o Ho) as [-> | [-> | [-> | ->]]];
    simpl; try apply format_result_formatted.
  unfold truediv.
  destruct (float_is_zero (literal_float (group m 3))); simpl;
    [reflexivity|apply format_result_formatted].
Qed.

(** What [evaluate] does when the fast path does not match. *)
Lemma evaluate_no_match s c t :
  remove_spaces s = c :: t ->
  re_match fast_pattern (c :: t) = None ->
  evaluate s = _safe_eval (c :: t).
Proof. intros Hs Hm. unfold evaluate. rewrite Hs, Hm. reflexivity. Qed.

Lemma remove_spaces_not_allowed s :
  forallb allowed_char s = false ->
  forallb allowed_char (remove_spaces s) = false.
Proof.
  induction s as [|c s' IH]; [discriminate|].
  intros H. simpl in H.
  destruct (allowed_char c) eqn:Hc.
  - simpl in H. specialize (IH H).
    unfold remove_spaces in *. simpl.
    destruct (negb (Ascii.eqb c SPACE)); simpl; [rewrite Hc|]; exact IH.
  - assert (Hns : is_space c = false).
    { destruct (is_space c) eqn:E; [|reflexivity].
      apply space_allowed in E. congruence. }
    rewrite remove_spaces_cons by exact Hns. simpl. rewrite Hc. reflexivity.
Qed.

(** X4.  The exceptions of [evaluate] are four: [ValueError("Empty
    expression")], [ZeroDivisionError("Division by zero")],
    [ValueError("Expression contains invalid characters")] and
    [ValueError("Invalid expression format")].  In particular the lookup in
    the operator table never fails ("Unsupported operator" is never raised),
    and the division of the operator table never raises its own
    [ZeroDivisionError]. *)
Theorem evaluate_exceptions :
  forall (s : pystr) (e : pyexn),
    evaluate s = Raise e ->
    e = ValueError "Empty expression" \/
    e = ZeroDivisionError "Division by zero" \/
    e = ValueError "Expression contains invalid characters" \/
    e = ValueError "Invalid expression format".
Proof.
  intros s e H. destruct (remove_spaces s) as [|c t] eqn:Es.
  - unfold evaluate in H. rewrite Es in H. inv H. auto.
  - destruct (re_match fast_pattern (c :: t)) as [m|] eqn:Em.
    + destruct (evaluate_on_match _ _ _ _ Es Em) as (o & _ & _ & Hev).
      rewrite Hev in H. destruct (_ && _); inv H. auto.
    + rewrite (evaluate_no_match _ _ _ Es Em) in H. unfold _safe_eval in H.
      destruct (negb _); [inv H; auto|].
      destruct (py_eval (c :: t)); inv H. auto.
Qed.

Lemma evaluate_exceptions_witness :
  evaluate "10 / 0" = Raise (ZeroDivisionError "Division by zero") /\
  (ZeroDivisionError "Division by zero" = ValueError "Empty expression" \/
   ZeroDivisionError "Division by zero" = ZeroDivisionError "Division by zero" \/
   ZeroDivisionError "Division by zero"
   = ValueError "Expression contains invalid characters" \/
   ZeroDivisionError "Division by zero"
   = ValueError "Invalid expression format").
Proof.
  split; [reflexivity|].
  exact (evaluate_exceptions "10 / 0" _ eq_refl).
Defined.

(** X5.  [evaluate] raises [ZeroDivisionError] only on the fast path, with
    the operator [/] and a right operand that [float] reads as zero. *)
Theorem division_by_zero_only_fast_path :
  forall (s : pystr) (msg : string),
    evaluate s = Raise (ZeroDivisionError msg) ->
    exists m,
      re_match fast_pattern (remove_spaces s) = Some m /\
      group m 2 = ["/"%char] /\
      float_is_zero (literal_float (group m 3)) = true.
Proof.
  intros s msg H. destruct (remove_spaces s) as [|c t] eqn:Es.
  - unfold evaluate in H. rewrite Es in H. discriminate.
  - destruct (re_match fast_pattern (c :: t)) as [m|] eqn:Em.
    + destruct (evaluate_on_match _ _ _ _ Es Em) as (o & G2 & _ & Hev).
      rewrite Hev in H. exists m. split; [reflexivity|].
      destruct (is_char "/" o) eqn:Ho; simpl in H; [|discriminate].
      apply Ascii.eqb_eq in Ho. subst o.
      destruct (float_is_zero _); [auto|discriminate].
    + rewrite (evaluate_no_match _ _ _ Es Em) in H. unfold _safe_eval in H.
      destruct (negb _); [discriminate|].
      destruct (py_eval (c :: t)); discriminate.
Qed.

Lemma division_by_zero_only_fast_path_witness :
  evaluate "10 / 0" = Raise (ZeroDivisionError "Division by zero") /\
  exists m,
    re_match fast_pattern (remove_spaces "10 / 0") = Some m /\
    group m 2 = ["/"%char] /\
    float_is_zero (literal_float (group m 3)) = true.
Proof.
  split; [reflexivity|].
  exact (division_by_zero_only_fast_path "10 / 0" _ eq_refl).
Defined.

(** X6.  [evaluate] fails with "Expression contains invalid characters"
    exactly when the input has a character other than digits,
    [+ - * / . ( )] and white space. *)
Theorem invalid_characters_iff :
  forall s : pystr,
    evaluate s = Raise (ValueError "Expression contains invalid characters")
    <-> forallb allowed_char s = false.
Proof.
  intros s. split.
  - intros H. destruct (remove_spaces s) as [|c t] eqn:Es.
    { unfold evaluate in H. rewrite Es in H. discriminate. }
    destruct (re_match fast_pattern (c :: t)) as [m|] eqn:Em.
    + destruct (evaluate_on_match _ _ _ _ Es Em) as (o & _ & _ & Hev).
      rewrite Hev in H. destruct (_ && _); discriminate.
    + rewrite (evaluate_no_match _ _ _ Es Em) in H. unfold _safe_eval in H.
      rewrite valid_chars_forallb in H.
      destruct (forallb allowed_char (c :: t)) eqn:Hall.
      * simpl in H. destruct (py_eval (c :: t)); discriminate.
      * destruct (forallb allowed_char s) eqn:Hs; [|reflexivity].
        apply remove_spaces_forallb in Hs. rewrite Es in Hs. congruence.
  - intros H. apply remove_spaces_not_allowed in H.
    destruct (remove_spaces s) as [|c t] eqn:Es; [discriminate|].
    destruct (re_match fast_pattern (c :: t)) as [m|] eqn:Em.
    + apply fast_match_allowed in Em. congruence.
    + rewrite (evaluate_no_match _ _ _ Es Em). unfold _safe_eval.
      rewrite valid_chars_forallb, H. reflexivity.
Qed.

(** ** [sanitize_expression] *)

Lemma in_0_9_digit c : in_0_9 c = is_digit c.
Proof. reflexivity. Qed.

Lemma dangerous_not_allowed c : negb (dangerous_char c) = allowed_char c.
Proof. unfold dangerous_char, allowed_char. rewrite negb_involutive. reflexivity. Qed.

Lemma re_sub_delete_dangerous s :
  re_sub_delete dangerous_char s = filter allowed_char s.
Proof.
  unfold re_sub_delete. induction s as [|c s' IH]; [reflexivity|].
  simpl. rewrite dangerous_not_allowed, IH. reflexivity.
Qed.

Lemma filter_all {A} (f : A -> bool) l :
  forallb f l = true -> filter f l = l.
Proof.
  induction l as [|x l' IH]; [reflexivity|].
  simpl. intros H. apply andb_true_iff in H. destruct H as [Hx Hl].
  rewrite Hx, IH by exact Hl. reflexivity.
Qed.

Lemma forallb_filter {A} (f : A -> bool) l : forallb f (filter f l) = true.
Proof.
  induction l as [|x l' IH]; [reflexivity|].
  simpl. destruct (f x) eqn:E; [simpl; rewrite E|]; exact IH.
Qed.

Lemma forallb_strip f s : forallb f s = true -> forallb f (strip s) = true.
Proof.
  intros H. destruct (strip_split s) as (w1 & w2 & Hs & _ & _).
  rewrite Hs, !forallb_app in H.
  apply andb_true_iff in H. destruct H as [_ H].
  apply andb_true_iff in H. tauto.
Qed.

Lemma sanitize_allowed s : forallb allowed_char (sanitize_expression s) = true.
Proof.
  unfold sanitize_expression. rewrite re_sub_delete_dangerous.
  apply forallb_strip, forallb_filter.
Qed.

(** X7.  What [sanitize_expression] returns has only digits,
    [+ - * / . ( )] and white space, and no white space at either end. *)
Theorem sanitize_expression_clean :
  forall s : pystr,
    forallb allowed_char (sanitize_expression s) = true /\
    strip (sanitize_expression s) = sanitize_expression s.
Proof.
  intros s. split; [apply sanitize_allowed|].
  unfold sanitize_expression. apply strip_idempotent.
Qed.

Lemma sanitize_of_allowed s :
  forallb allowed_char s = true -> sanitize_expression s = strip s.
Proof.
  intros H. unfold sanitize_expression.
  rewrite re_sub_delete_dangerous, filter_all by exact H. reflexivity.
Qed.

(** X8.  [sanitize_expression] is idempotent. *)
Theorem sanitize_expression_idempotent :
  forall s : pystr,
    sanitize_expression (sanitize_expression s) = sanitize_expression s.
Proof.
  intros s. rewrite sanitize_of_allowed by apply sanitize_allowed.
  unfold sanitize_expression. apply strip_idempotent.
Qed.

(** X9.  On a string that has only digits, [+ - * / . ( )] and white space,
    [sanitize_expression] does what [strip] does: nothing inside the string
    is removed. *)
Theorem sanitize_expression_keeps_allowed :
  forall s : pystr,
    forallb allowed_char s = true -> sanitize_expression s = strip s.
Proof. exact sanitize_of_allowed. Qed.

Lemma sanitize_expression_keeps_allowed_witness :
  forallb allowed_char (pystr_of_string " (1 + 2) * 3 ") = true /\
  sanitize_expression " (1 + 2) * 3 " = strip " (1 + 2) * 3 ".
Proof.
  split; [reflexivity|].
  exact (sanitize_expression_keeps_allowed " (1 + 2) * 3 " eq_refl).
Defined.

Lemma no_invalid_characters s :
  forallb allowed_char s = true ->
  evaluate s <> Raise (ValueError "Expression contains invalid characters").
Proof.
  intros Hall H. destruct (remove_spaces s) as [|c t] eqn:Es.
  { unfold evaluate in H. rewrite Es in H. discriminate. }
  destruct (re_match fast_pattern (c :: t)) as [m|] eqn:Em.
  - destruct (evaluate_on_match _ _ _ _ Es Em) as (o & _ & _ & Hev).
    rewrite Hev in H. destruct (_ && _); discriminate.
  - rewrite (evaluate_no_match _ _ _ Es Em) in H. unfold _safe_eval in H.
    rewrite valid_chars_forallb in H.
    apply remove_spaces_forallb in Hall. rewrite Es in Hall.
    rewrite Hall in H. simpl in H. destruct (py_eval (c :: t)); discriminate.
Qed.

(** X10.  After [sanitize_expression] the character checks cannot fail:
    [evaluate] never raises "Expression contains invalid characters" on a
    sanitized string, and a sanitized string that is not empty passes the
    character pattern of the validator. *)
Theorem sanitized_passes_character_checks :
  forall s : pystr,
    evaluate (sanitize_expression s)
    <> Raise (ValueError "Expression contains invalid characters") /\
    (sanitize_expression s = [] \/
     re_match valid_chars_pattern (strip (sanitize_expression s)) <> None).
Proof.
  intros s. split.
  - apply no_invalid_characters, sanitize_allowed.
  - destruct (sanitize_expression s) as [|c t] eqn:E; [left; reflexivity|].
    right. rewrite <- E.
    assert (Hstrip : strip (sanitize_expression s) = sanitize_expression s)
      by (unfold sanitize_expression; apply strip_idempotent).
    rewrite Hstrip. apply valid_chars_complete; [|apply sanitize_allowed].
    rewrite E. discriminate.
Qed.

(** ** The handler of [/validate] *)

Lemma well_formed_strip s : well_formed (strip s) = well_formed s.
Proof. unfold well_formed. rewrite strip_idempotent. reflexivity. Qed.

(** X11.  The handler of [/validate] never fails on a string, and white
    space around the expression does not change the verdict: it answers
    with the trimmed expression and with what [validate_expression] returns
    for the expression as it was sent. *)
Theorem validate_route_verdict :
  forall s : pystr,
    exists b : bool,
      validate s = Return b /\
      validate_expression_route s = Return (strip s, b).
Proof.
  intros s. exists (well_formed s). split; [apply validate_is_well_formed|].
  unfold validate_expression_route.
  change (validate_expression (PyStr (strip s))) with (validate (strip s)).
  rewrite validate_is_well_formed, well_formed_strip. reflexivity.
Qed.

(** ** Two operands: the validator, the evaluator and the handler *)

Lemma numchar_no_pair_left c d : numchar c = true -> operator_pair c d = false.
Proof. revert d. by_cases_on_char c. Qed.

Lemma numchar_no_pair_right c d : numchar d = true -> operator_pair c d = false.
Proof.
  intros Hd. unfold operator_pair.
  assert (H1 : one_of "+*/" d = false) by (revert Hd; by_cases_on_char d).
  assert (H2 : is_char "-" d = false) by (revert Hd; by_cases_on_char d).
  rewrite H1, H2, !andb_false_r. reflexivity.
Qed.

Lemma adjacent_skip_numchar c t :
  numchar c = true ->
  has_adjacent_operators (c :: t) = has_adjacent_operators t.
Proof.
  intros Hc. simpl. destruct t as [|d t']; [reflexivity|].
  fold (operator_pair c d). rewrite (numchar_no_pair_left c d Hc). reflexivity.
Qed.

Lemma adjacent_before_numchar c d t :
  numchar d = true ->
  has_adjacent_operators (c :: d :: t) = has_adjacent_operators (d :: t).
Proof.
  intros Hd. change (has_adjacent_operators (c :: d :: t))
    with (operator_pair c d || has_adjacent_operators (d :: t)).
  rewrite (numchar_no_pair_right c d Hd). reflexivity.
Qed.

Lemma adjacent_numchars a r :
  forallb numchar a = true ->
  has_adjacent_operators (a ++ r) = has_adjacent_operators r.
Proof.
  induction a as [|c a' IH]; [reflexivity|].
  intros H. simpl in H. apply andb_true_iff in H. destruct H as [Hc Ha].
  change ((c :: a') ++ r) with (c :: (a' ++ r)).
  rewrite adjacent_skip_numchar by exact Hc. auto.
Qed.

Lemma two_dots_skip c t :
  is_char "." c = false -> has_two_dots (c :: t) = has_two_dots t.
Proof. intros Hc. simpl. rewrite Hc. reflexivity. Qed.

Lemma two_dots_digits ds r :
  forallb is_digit ds = true -> has_two_dots (ds ++ r) = has_two_dots r.
Proof.
  induction ds as [|d ds' IH]; [reflexivity|].
  intros H. simpl in H. apply andb_true_iff in H. destruct H as [Hd Hds].
  change ((d :: ds') ++ r) with (d :: (ds' ++ r)).
  rewrite two_dots_skip; [auto|]. revert Hd. by_cases_on_char d.
Qed.

(** After a literal, a second dot can only come from what follows it. *)
Lemma two_dots_literal a r :
  number_literal a = true ->
  next_is is_digit r = false -> next_is (is_char ".") r = false ->
  has_two_dots (a ++ r) = has_two_dots r.
Proof.
  intros Ha Hnd Hndot.
  destruct (number_literal_parts a Ha)
    as (ip & dot & fp & -> & Hip & Hdot & Hd1 & Hfp & _).
  rewrite <- !app_assoc. rewrite two_dots_digits by exact Hip.
  assert (Hdrop : drop_digits r = r).
  { destruct r as [|c r']; [reflexivity|]. simpl in *. rewrite Hnd. reflexivity. }
  destruct dot as [|c [|c' dot']]; simpl in Hd1; try lia.
  - simpl. apply two_dots_digits. exact Hfp.
  - simpl in Hdot. rewrite andb_true_r in Hdot.
    change ([c] ++ fp ++ r) with (c :: (fp ++ r)). simpl.
    rewrite Hdot, drop_digits_app, Hdrop, Hndot by exact Hfp. simpl.
    apply two_dots_digits. exact Hfp.
Qed.

Lemma count_absent c e :
  forallb (fun x => negb (Ascii.eqb c x)) e = true -> count c e = 0.
Proof.
  unfold count. induction e as [|x e' IH]; [reflexivity|].
  simpl. intros H. apply andb_true_iff in H. destruct H as [Hx He].
  apply negb_true_iff in Hx. rewrite Hx. auto.
Qed.

Lemma lstrip_nonspace c t : is_space c = false -> lstrip (c :: t) = c :: t.
Proof. intros H. simpl. rewrite H. reflexivity. Qed.

Lemma strip_not_needed c m d :
  is_space c = false -> is_space d = false ->
  strip (c :: m ++ [d]) = c :: m ++ [d].
Proof.
  intros Hc Hd. unfold strip. rewrite lstrip_nonspace by exact Hc.
  unfold rstrip. change (c :: m ++ [d]) with ((c :: m) ++ [d]).
  rewrite rev_unit, lstrip_nonspace by exact Hd.
  change (rev (d :: rev (c :: m))) with (rev (rev (c :: m)) ++ [d]).
  rewrite rev_involutive. reflexivity.
Qed.

(** A literal starts with a digit or a dot and ends with a digit. *)
Lemma number_literal_head a :
  number_literal a = true -> exists c t, a = c :: t /\ numchar c = true.
Proof.
  intros Ha. pose proof (number_literal_numchars a Ha) as Hn.
  destruct a as [|c t]; [discriminate|].
  exists c, t. simpl in Hn. apply andb_true_iff in Hn. tauto.
Qed.

Lemma number_literal_last a :
  number_literal a = true -> exists l d, a = l ++ [d] /\ is_digit d = true.
Proof.
  intros Ha.
  destruct (number_literal_parts a Ha)
    as (ip & dot & fp & Heq & _ & _ & _ & Hfp & Hlen).
  destruct (exists_last (l := fp)) as (fp' & d & Hfp').
  { intros ->. simpl in Hlen. lia. }
  exists (ip ++ dot ++ fp'), d. split.
  - rewrite Heq, Hfp', <- !app_assoc. reflexivity.
  - rewrite Hfp', forallb_app in Hfp. simpl in Hfp.
    apply andb_true_iff in Hfp. destruct Hfp as [_ Hfp].
    rewrite andb_true_r in Hfp. exact Hfp.
Qed.

(** The expression ["a op b"], spaces included, is well formed. *)
Lemma operation_well_formed a op b n1 n2 :
  number_literal a = true -> number_literal b = true ->
  one_of "+-*/" op = true ->
  strip (a ++ repeat SPACE n1 ++ op :: repeat SPACE n2 ++ b)
  = a ++ repeat SPACE n1 ++ op :: repeat SPACE n2 ++ b /\
  well_formed (a ++ repeat SPACE n1 ++ op :: repeat SPACE n2 ++ b) = true.
Proof.
  intros Ha Hb Hop.
  pose proof (number_literal_numchars a Ha) as Hna.
  pose proof (number_literal_numchars b Hb) as Hnb.
  assert (Hnum : forall c, numchar c = true -> allowed_char c = true)
    by (intros c; by_cases_on_char c).
  assert (Hopa : allowed_char op = true)
    by (revert Hop; by_cases_on_char op).
  destruct (number_literal_head a Ha) as (ca & ta & Ea & Hca).
  destruct (number_literal_last b Hb) as (lb & d & Eb & Hd).
  assert (Hstrip :
    strip (a ++ repeat SPACE n1 ++ op :: repeat SPACE n2 ++ b)
    = a ++ repeat SPACE n1 ++ op :: repeat SPACE n2 ++ b).
  { rewrite Ea, Eb.
    replace ((ca :: ta) ++ repeat SPACE n1 ++ op :: repeat SPACE n2 ++ lb ++ [d])
      with (ca :: (ta ++ repeat SPACE n1 ++ op :: repeat SPACE n2 ++ lb) ++ [d])
      by (simpl; rewrite <- !app_assoc; simpl; rewrite <- !app_assoc; reflexivity).
    apply strip_not_needed.
    - apply numchar_not_space. exact Hca.
    - apply numchar_not_space, digit_numchar. exact Hd. }
  split; [exact Hstrip|].
  assert (Hall : forallb allowed_char
                   (a ++ repeat SPACE n1 ++ op :: repeat SPACE n2 ++ b) = true).
  { rewrite !forallb_app. simpl. rewrite forallb_app.
    rewrite (forallb_impl _ _ _ Hnum Hna), (forallb_impl _ _ _ Hnum Hnb), Hopa.
    assert (Hsp : forall n, forallb allowed_char (repeat SPACE n) = true)
      by (induction n; simpl; auto).
    rewrite !Hsp. reflexivity. }
  assert (Hadj : has_adjacent_operators (a ++ op :: b) = false).
  { rewrite adjacent_numchars by exact Hna.
    destruct b as [|c b']; [discriminate|].
    simpl in Hnb. apply andb_true_iff in Hnb. destruct Hnb as [Hc Hnb'].
    rewrite adjacent_before_numchar by exact Hc.
    replace (c :: b') with ((c :: b') ++ []) by apply app_nil_r.
    rewrite adjacent_numchars; [reflexivity|].
    simpl. rewrite Hc. exact Hnb'. }
  assert (Hfirst : one_of "+*/" ca = false)
    by (revert Hca; by_cases_on_char ca).
  assert (Hlast : last (a ++ op :: b) ca = d).
  { rewrite Eb. change (a ++ op :: lb ++ [d]) with (a ++ (op :: lb) ++ [d]).
    rewrite app_assoc. apply last_last. }
  assert (Hd' : one_of "+*/-" d = false) by (revert Hd; by_cases_on_char d).
  assert (Hdots : has_two_dots (a ++ op :: b) = false).
  { assert (Hod : is_digit op = false) by (revert Hop; by_cases_on_char op).
    assert (Hodot : is_char "." op = false)
      by (revert Hop; by_cases_on_char op).
    rewrite (two_dots_literal a (op :: b) Ha Hod Hodot).
    rewrite two_dots_skip by exact Hodot.
    replace b with (b ++ []) by apply app_nil_r.
    apply (two_dots_literal b [] Hb); reflexivity. }
  assert (Hcount : forall p, one_of "()" p = true -> count p (a ++ op :: b) = 0).
  { intros p Hp. apply count_absent. rewrite forallb_app. simpl.
    assert (Hnp : forall x, numchar x = true -> negb (Ascii.eqb p x) = true).
    { intros x Hx. destruct (Ascii.eqb p x) eqn:E; [|reflexivity].
      apply Ascii.eqb_eq in E. subst x. revert Hp Hx. by_cases_on_char p. }
    rewrite (forallb_impl _ _ _ Hnp Hna), (forallb_impl _ _ _ Hnp Hnb).
    destruct (Ascii.eqb p op) eqn:E; [|reflexivity].
    apply Ascii.eqb_eq in E. subst op. revert Hp Hop. by_cases_on_char p. }
  pose proof (Hcount "("%char eq_refl) as Hopen.
  pose proof (Hcount ")"%char eq_refl) as Hclose.
  unfold well_formed. rewrite Hstrip, Hall.
  rewrite remove_spaces_operation by assumption.
  assert (He : a ++ op :: b = ca :: (ta ++ op :: b))
    by (rewrite Ea; reflexivity).
  rewrite He in *. rewrite Hadj, Hfirst, Hlast, Hd', Hdots, Hopen, Hclose.
  reflexivity.
Qed.

(** X12.  The validator accepts every expression that the fast path
    computes from two literals: for all literals [a] and [b], every
    operator [op] of [+ - * /] and any number of spaces around it,
    [validate] returns true on ["a op b"]. *)
Theorem validate_accepts_operation :
  forall (a b : pystr) (op : ascii) (n1 n2 : nat),
    number_literal a = true -> number_literal b = true ->
    one_of "+-*/" op = true ->
    validate (a ++ repeat SPACE n1 ++ op :: repeat SPACE n2 ++ b)
    = Return true.
Proof.
  intros a b op n1 n2 Ha Hb Hop. rewrite validate_is_well_formed.
  destruct (operation_well_formed a op b n1 n2 Ha Hb Hop) as [_ ->].
  reflexivity.
Qed.

Lemma validate_accepts_operation_witness :
  number_literal "10" = true /\ number_literal ".5" = true /\
  one_of "+-*/" "/" = true /\
  validate "10 / .5" = Return true.
Proof.
  split; [reflexivity|]. split; [reflexivity|]. split; [reflexivity|].
  exact (validate_accepts_operation "10" ".5" "/" 1 1 eq_refl eq_refl eq_refl).
Defined.

(** X13.  The handler of [/calculate] on two literals and an operator: it
    answers 400 "Division by zero" when the operator is [/] and the right
    operand is read as zero, and otherwise 200 with the result of the fast
    path, the float operation on the two operands given as an integer when
    it is integral and rounded to 10 decimals when it is not. *)
Theorem calculate_operation :
  forall (a b : pystr) (op : ascii) (n1 n2 : nat),
    number_literal a = true -> number_literal b = true ->
    one_of "+-*/" op = true ->
    calculate (a ++ repeat SPACE n1 ++ op :: repeat SPACE n2 ++ b)
    = Return
        (if is_char "/" op && float_is_zero (literal_float b)
         then Response 400 (Some "Division by zero")
                (Some "Cannot divide by zero") None
         else Response 200 None None
                (Some (formatted (float_op op (literal_float a)
                                           (literal_float b))))).
Proof.
  intros a b op n1 n2 Ha Hb Hop. unfold calculate.
  destruct (operation_well_formed a op b n1 n2 Ha Hb Hop) as [Hs Hw].
  rewrite Hs.
  change (validate_expression (PyStr ?x)) with (validate x).
  rewrite validate_is_well_formed, Hw. cbn [bind negb].
  rewrite evaluate_fast_path by assumption.
  destruct (operator_cases op Hop) as [-> | [-> | [-> | ->]]];
    simpl; try (rewrite format_result_formatted; reflexivity).
  unfold truediv.
  destruct (float_is_zero (literal_float b)); simpl;
    [reflexivity|rewrite format_result_formatted; reflexivity].
Qed.

Lemma calculate_operation_witness :
  number_literal "15" = true /\ number_literal "3" = true /\
  one_of "+-*/" "/" = true /\
  calculate "15 / 3"
  = Return
      (if is_char "/" "/" && float_is_zero (literal_float "3")
       then Response 400 (Some "Division by zero")
              (Some "Cannot divide by zero") None
       else Response 200 None None
              (Some (formatted (float_op "/" (literal_float "15")
                                         (literal_float "3"))))).
Proof.
  split; [reflexivity|]. split; [reflexivity|]. split; [reflexivity|].
  exact (calculate_operation "15" "3" "/" 1 1 eq_refl eq_refl eq_refl).
Defined.

(** ** Operands beyond the range of floats *)

(** X14.  A literal too large for a float is read as infinity and
    [evaluate] does not fail on it: with a finite second operand, the sum
    and the difference are returned as the float infinity. *)
Theorem overflow_returns_infinity :
  forall (a b : pystr) (op : ascii) (n1 n2 : nat),
    number_literal a = true -> number_literal b = true ->
    one_of "+-" op = true ->
    literal_float a = S754_infinity false ->
    is_finite (literal_float b) = true ->
    evaluate (a ++ repeat SPACE n1 ++ op :: repeat SPACE n2 ++ b)
    = Return (PyFloat (S754_infinity false)).
Proof.
  intros a b op n1 n2 Ha Hb Hop Hinf Hfin.
  assert (Hop' : one_of "+-*/" op = true) by (revert Hop; by_cases_on_char op).
  rewrite evaluate_fast_path by assumption. rewrite Hinf.
  assert (Hcase : op = "+"%char \/ op = "-"%char).
  { revert Hop. destruct op as [[] [] [] [] [] [] [] []];
      try discriminate; auto. }
  destruct Hcase as [-> | ->]; simpl;
    destruct (literal_float b) as [s|s| |s m e]; try discriminate; reflexivity.
Qed.

Lemma overflow_returns_infinity_witness :
  number_literal ("1"%char :: repeat "0"%char 309) = true /\
  number_literal "1" = true /\ one_of "+-" "+" = true /\
  literal_float ("1"%char :: repeat "0"%char 309) = S754_infinity false /\
  is_finite (literal_float "1") = true /\
  evaluate (("1"%char :: repeat "0"%char 309) ++ repeat SPACE 1
            ++ "+"%char :: repeat SPACE 1 ++ pystr_of_string "1")
  = Return (PyFloat (S754_infinity false)).
Proof.
  split; [vm_compute; reflexivity|]. split; [reflexivity|].
  split; [reflexivity|]. split; [vm_compute; reflexivity|].
  split; [reflexivity|].
  refine (overflow_returns_infinity ("1"%char :: repeat "0"%char 309) "1" "+"
            1 1 _ eq_refl eq_refl _ eq_refl); vm_compute; reflexivity.
Defined.

(** ** The order of the operands *)

Lemma fadd_comm x y : fadd x y = fadd y x.
Proof.
  unfold fadd, SFadd.
  destruct x as [sx|sx| |sx mx ex], y as [sy|sy| |sy my ey]; try reflexivity;
    try (destruct sx, sy; reflexivity).
  rewrite (Z.min_comm ey ex), Z.add_comm. reflexivity.
Qed.

Lemma fmul_comm x y : fmul x y = fmul y x.
Proof.
  unfold fmul, SFmul.
  destruct x as [sx|sx| |sx mx ex], y as [sy|sy| |sy my ey]; try reflexivity;
    try (rewrite (xorb_comm sy sx); reflexivity).
  rewrite (xorb_comm sy sx), (Pos.mul_comm my mx), (Z.add_comm ey ex).
  reflexivity.
Qed.

(** X15.  On the fast path the sum and the product do not depend on the order
    of the operands: for all literals [a] and [b], [evaluate] gives the same
    outcome on ["a + b"] and ["b + a"], and on ["a * b"] and ["b * a"]. *)
Theorem fast_path_commutes :
  forall (a b : pystr) (op : ascii) (n1 n2 : nat),
    number_literal a = true -> number_literal b = true ->
    one_of "+*" op = true ->
    evaluate (a ++ repeat SPACE n1 ++ op :: repeat SPACE n2 ++ b)
    = evaluate (b ++ repeat SPACE n1 ++ op :: repeat SPACE n2 ++ a).
Proof.
  intros a b op n1 n2 Ha Hb Hop.
  assert (Hop' : one_of "+-*/" op = true) by (revert Hop; by_cases_on_char op).
  rewrite !evaluate_fast_path by assumption.
  assert (Hcase : op = "+"%char \/ op = "*"%char).
  { revert Hop. destruct op as [[] [] [] [] [] [] [] []];
      try discriminate; auto. }
  destruct Hcase as [-> | ->]; simpl.
  - rewrite fadd_comm. reflexivity.
  - rewrite fmul_comm. reflexivity.
Qed.

Lemma fast_path_commutes_witness :
  number_literal "0.1" = true /\ number_literal "0.2" = true /\
  one_of "+*" "+" = true /\
  evaluate "0.1 + 0.2" = evaluate "0.2 + 0.1".
Proof.
  split; [reflexivity|]. split; [reflexivity|]. split; [reflexivity|].
  exact (fast_path_commutes "0.1" "0.2" "+" 1 1 eq_refl eq_refl eq_refl).
Defined.

(** ** The answers of [/calculate] *)



(** ** A number alone *)

Lemma strip_no_space s :
  forallb (fun c => negb (is_space c)) s = true -> strip s = s.
Proof.
  intros H.
  assert (Hl : forall l, forallb (fun c => negb (is_space c)) l = true ->
                         lstrip l = l).
  { intros [|c t] Hlt; [reflexivity|]. simpl in Hlt.
    apply andb_true_iff in Hlt. destruct Hlt as [Hc _].
    apply negb_true_iff in Hc. simpl. rewrite Hc. reflexivity. }
  unfold strip, rstrip. rewrite (Hl s H), Hl, rev_involutive; [reflexivity|].
  rewrite forallb_forall in *. intros c Hin. apply H, in_rev. exact Hin.
Qed.

Lemma digits_no_space ds :
  forallb is_digit ds = true ->
  forallb (fun c => negb (is_space c)) ds = true.
Proof.
  apply forallb_impl. intros c Hc.
  rewrite (numchar_not_space c (digit_numchar c Hc)). reflexivity.
Qed.

Lemma fast_pattern_needs_operator s m :
  re_match fast_pattern s = Some m ->
  exists o, In o s /\ one_of "+-*/" o = true.
Proof.
  intros H. destruct (fast_pattern_sound _ _ H)
    as (x & w1 & o & w2 & y & t & -> & _ & _ & Ho & _).
  exists o. split; [|exact Ho].
  apply in_or_app. right. apply in_or_app. right. left. reflexivity.
Qed.

Lemma digits_not_fast_path ds :
  forallb is_digit ds = true -> re_match fast_pattern ds = None.
Proof.
  intros Hd. destruct (re_match fast_pattern ds) as [m|] eqn:E; [|reflexivity].
  destruct (fast_pattern_needs_operator _ _ E) as (o & Hin & Ho).
  rewrite forallb_forall in Hd. specialize (Hd o Hin).
  apply digit_numchar in Hd. apply operator_not_numchar in Ho. congruence.
Qed.

(** The number that the tokenizer reads from a string of digits. *)
Lemma scan_number_digits c t :
  forallb is_digit (c :: t) = true ->
  scan_number (c :: t) =
  if is_char "0" c && negb (match t with [] => true | _ => false end)
  then if all_zero (c :: t) then Return (NUMBER (PyInt 0), [])
       else Raise SyntaxError
  else Return (NUMBER (PyInt (int_of_digits (c :: t))), []).
Proof.
  intros Hd. unfold scan_number.
  rewrite (drop_digits_all _ Hd), (take_digits_all _ Hd).
  destruct t as [|d t'].
  - rewrite andb_false_r. destruct c as [[] [] [] [] [] [] [] []]; reflexivity.
  - rewrite andb_true_r.
    destruct (is_char "0" c) eqn:Hc.
    + apply Ascii.eqb_eq in Hc. subst c. reflexivity.
    + destruct c as [[] [] [] [] [] [] [] []]; try reflexivity.
      discriminate Hc.
Qed.

(** Steps of the tokenizer. *)
Lemma tokenize_line_start fuel c t :
  is_digit c = true ->
  tokenize (S fuel) 0 true (c :: t) = tokenize fuel 0 false (c :: t).
Proof.
  intros Hc.
  assert (Hsp : Ascii.eqb c SPACE = false) by (revert Hc; by_cases_on_char c).
  assert (Htab : Ascii.eqb c TAB = false) by (revert Hc; by_cases_on_char c).
  assert (Hff : Ascii.eqb c FF = false) by (revert Hc; by_cases_on_char c).
  assert (Hnl : is_newline c = false) by (revert Hc; by_cases_on_char c).
  simpl. rewrite Hsp, Htab, Hff, Hnl. reflexivity.
Qed.

Lemma tokenize_number fuel level c t :
  is_digit c = true ->
  tokenize (S fuel) level false (c :: t) =
  r <- scan_number (c :: t) ;;
  ts <- tokenize fuel level false (snd r) ;; Return (fst r :: ts).
Proof.
  intros Hc.
  assert (Hsp : Ascii.eqb c SPACE = false) by (revert Hc; by_cases_on_char c).
  assert (Htab : Ascii.eqb c TAB = false) by (revert Hc; by_cases_on_char c).
  assert (Hff : Ascii.eqb c FF = false) by (revert Hc; by_cases_on_char c).
  assert (Hnl : is_newline c = false) by (revert Hc; by_cases_on_char c).
  cbn [tokenize]. rewrite Hsp, Htab, Hff, Hnl, Hc. reflexivity.
Qed.

Lemma tokenize_end fuel level :
  tokenize (S fuel) level false [] = Return [].
Proof. reflexivity. Qed.

(** [eval] on a string of digits: the tokens are the number alone. *)
Lemma py_eval_digits c t :
  forallb is_digit (c :: t) = true ->
  py_eval (c :: t) =
  r <- scan_number (c :: t) ;;
  match fst r with
  | NUMBER v => Return v
  | _ => Raise SyntaxError
  end.
Proof.
  intros Hd. pose proof Hd as Hd0. simpl in Hd.
  apply andb_true_iff in Hd. destruct Hd as [Hc Ht].
  assert (Hsp : Ascii.eqb c SPACE = false) by (revert Hc; by_cases_on_char c).
  assert (Htab : Ascii.eqb c TAB = false) by (revert Hc; by_cases_on_char c).
  unfold py_eval.
  assert (Hskip : skip_blanks (c :: t) = c :: t)
    by (simpl; rewrite Hsp, Htab; reflexivity).
  rewrite Hskip.
  replace (2 * List.length (c :: t) + 2)
    with (S (S (S (2 * List.length t + 1)))) by (simpl; lia).
  rewrite tokenize_line_start, tokenize_number by exact Hc.
  rewrite (scan_number_digits c t Hd0).
  destruct (is_char "0" c && _); [destruct (all_zero (c :: t))|];
    cbn [bind fst snd]; try reflexivity;
    rewrite tokenize_end; reflexivity.
Qed.

(** X17.  An integer written without a leading zero (or with zeros only),
    in at most 4300 digits, is evaluated to itself, as an integer and not as
    a float: the fast path does not match, and [eval] reads the literal
    exactly. *)
Theorem evaluate_integer_literal :
  forall ds : pystr,
    canonical_integer ds = true ->
    within_limits ds [] = true ->
    evaluate ds = Return (PyInt (int_of_digits ds)).
Proof.
  intros ds H _. unfold canonical_integer in H.
  destruct ds as [|c t]; [discriminate|].
  apply andb_true_iff in H. destruct H as [Hd Hcanon].
  assert (Hrs : remove_spaces (c :: t) = c :: t)
    by (apply remove_spaces_no_space, digits_no_space; exact Hd).
  rewrite (evaluate_no_match _ _ _ Hrs (digits_not_fast_path _ Hd)).
  unfold _safe_eval. rewrite valid_chars_forallb.
  rewrite (forallb_impl is_digit allowed_char (c :: t)); [|intros x; by_cases_on_char x|exact Hd].
  cbn [negb]. rewrite (py_eval_digits c t Hd), (scan_number_digits c t Hd).
  apply orb_true_iff in Hcanon. destruct Hcanon as [Hz|Hnz].
  - rewrite Hz, (int_of_zeros _ Hz).
    destruct (is_char "0" c && _); reflexivity.
  - apply negb_true_iff in Hnz. rewrite Hnz. reflexivity.
Qed.

Lemma evaluate_integer_literal_witness :
  canonical_integer "9007199254740993" = true /\
  within_limits "9007199254740993" [] = true /\
  evaluate "9007199254740993" = Return (PyInt 9007199254740993).
Proof.
  split; [reflexivity|]. split; [reflexivity|].
  exact (evaluate_integer_literal "9007199254740993" eq_refl eq_refl).
Defined.

Lemma digits_well_formed ds :
  forallb is_digit ds = true -> ds <> [] -> well_formed ds = true.
Proof.
  intros Hd Hne. unfold well_formed.
  rewrite (strip_no_space _ (digits_no_space _ Hd)).
  rewrite (remove_spaces_no_space _ (digits_no_space _ Hd)).
  destruct ds as [|c t]; [contradiction|].
  pose proof (forallb_impl _ _ _ digit_numchar Hd) as Hn.
  rewrite (forallb_impl is_digit allowed_char (c :: t));
    [|intros x; by_cases_on_char x|exact Hd].
  replace (has_adjacent_operators (c :: t)) with false
    by (symmetry; rewrite <- (app_nil_r (c :: t));
        apply (adjacent_numchars (c :: t) [] Hn)).
  replace (has_two_dots (c :: t)) with false
    by (symmetry; rewrite <- (app_nil_r (c :: t));
        apply (two_dots_digits (c :: t) [] Hd)).
  assert (Hfirst : one_of "+*/" c = false).
  { simpl in Hd. apply andb_true_iff in Hd. destruct Hd as [Hc _].
    revert Hc. by_cases_on_char c. }
  assert (Hlast : one_of "+*/-" (last (c :: t) c) = false).
  { destruct (exists_last (l := c :: t)) as (l & d & Hl); [discriminate|].
    rewrite Hl, last_last. rewrite Hl, forallb_app in Hd. simpl in Hd.
    apply andb_true_iff in Hd. destruct Hd as [_ Hdd].
    rewrite andb_true_r in Hdd. revert Hdd. by_cases_on_char d. }
  rewrite Hfirst, Hlast.
  assert (Hcount : forall p, one_of "()" p = true -> count p (c :: t) = 0).
  { intros p Hp. apply count_absent. apply (forallb_impl is_digit); [|exact Hd].
    intros x Hx. destruct (Ascii.eqb p x) eqn:E; [|reflexivity].
    apply Ascii.eqb_eq in E. subst x. revert Hp Hx. by_cases_on_char p. }
  rewrite (Hcount "("%char eq_refl), (Hcount ")"%char eq_refl). reflexivity.
Qed.

(** X18.  An integer written with a leading zero and a digit other than
    zero, such as [007], passes the validator, and [evaluate] fails on it
    with "Invalid expression format": [eval] does not read such a literal. *)
Theorem leading_zero_integer :
  forall (d : ascii) (t : pystr),
    forallb is_digit (d :: t) = true -> all_zero (d :: t) = false ->
    validate ("0"%char :: d :: t) = Return true /\
    evaluate ("0"%char :: d :: t)
    = Raise (ValueError "Invalid expression format").
Proof.
  intros d t Hd Hnz.
  assert (Hd0 : forallb is_digit ("0"%char :: d :: t) = true)
    by (simpl in *; exact Hd).
  split.
  - rewrite validate_is_well_formed, digits_well_formed;
      [reflexivity|exact Hd0|discriminate].
  - assert (Hrs : remove_spaces ("0"%char :: d :: t) = "0"%char :: d :: t)
      by (apply remove_spaces_no_space, digits_no_space; exact Hd0).
    rewrite (evaluate_no_match _ _ _ Hrs (digits_not_fast_path _ Hd0)).
    unfold _safe_eval. rewrite valid_chars_forallb.
    rewrite (forallb_impl is_digit allowed_char ("0"%char :: d :: t));
      [|intros x; by_cases_on_char x|exact Hd0].
    cbn [negb].
    rewrite (py_eval_digits _ _ Hd0), (scan_number_digits _ _ Hd0).
    assert (Hz : all_zero ("0"%char :: d :: t) = false)
      by (simpl in *; exact Hnz).
    rewrite Hz. reflexivity.
Qed.

Lemma leading_zero_integer_witness :
  forallb is_digit ["0"; "7"]%char = true /\ all_zero ["0"; "7"]%char = false /\
  validate "007" = Return true /\
  evaluate "007" = Raise (ValueError "Invalid expression format").
Proof.
  split; [reflexivity|]. split; [reflexivity|].
  exact (leading_zero_integer "0" ["7"%char] eq_refl eq_refl).
Defined.

(** ** Sums and differences of integers on the general path *)

Lemma canonical_integer_digits ds :
  canonical_integer ds = true ->
  exists c t, ds = c :: t /\ forallb is_digit ds = true /\ is_digit c = true.
Proof.
  unfold canonical_integer. destruct ds as [|c t]; [discriminate|].
  intros H. apply andb_true_iff in H. destruct H as [Hd _].
  exists c, t. split; [reflexivity|]. split; [exact Hd|].
  simpl in Hd. apply andb_true_iff in Hd. tauto.
Qed.

Lemma take_digits_app ds r :
  forallb is_digit ds = true -> next_is is_digit r = false ->
  take_digits (ds ++ r) = ds.
Proof.
  intros Hd Hr. induction ds as [|d ds' IH]; cbn [app take_digits].
  - destruct r as [|c r']; [reflexivity|].
    cbn [next_is] in Hr. cbn [take_digits]. rewrite Hr. reflexivity.
  - cbn [forallb] in Hd. apply andb_true_iff in Hd. destruct Hd as [Hd Hds].
    rewrite Hd, IH by exact Hds. reflexivity.
Qed.

Lemma drop_digits_stop r : next_is is_digit r = false -> drop_digits r = r.
Proof.
  destruct r as [|c r']; [reflexivity|].
  cbn [next_is drop_digits]. intros ->. reflexivity.
Qed.

(** The number read from an integer followed by something that is neither a
    digit nor a dot. *)
Lemma scan_number_integer ds r :
  canonical_integer ds = true ->
  next_is is_digit r = false -> next_is (is_char ".") r = false ->
  scan_number (ds ++ r) = Return (NUMBER (PyInt (int_of_digits ds)), r).
Proof.
  intros Hcanon Hr Hdot.
  destruct (canonical_integer_digits ds Hcanon) as (c & t & -> & Hd & Hc).
  unfold canonical_integer in Hcanon.
  apply andb_true_iff in Hcanon. destruct Hcanon as [_ Hcanon].
  unfold scan_number.
  rewrite (drop_digits_app _ r Hd), (drop_digits_stop r Hr).
  rewrite (take_digits_app _ r Hd Hr).
  assert (Hint :
    match c :: t with
    | "0"%char :: _ :: _ =>
        if all_zero (c :: t) then Return (NUMBER (PyInt 0), r)
        else Raise SyntaxError
    | _ => Return (NUMBER (PyInt (int_of_digits (c :: t))), r)
    end = Return (NUMBER (PyInt (int_of_digits (c :: t))), r)).
  { apply orb_true_iff in Hcanon. destruct Hcanon as [Hz|Hnz].
    - rewrite Hz, (int_of_zeros _ Hz). split_matches; reflexivity.
    - apply negb_true_iff in Hnz.
      destruct c as [[] [] [] [] [] [] [] []]; try reflexivity.
      discriminate Hnz. }
  destruct r as [|x r']; [exact Hint|].
  simpl in Hdot.
  destruct x as [[] [] [] [] [] [] [] []]; try exact Hint.
  discriminate Hdot.
Qed.

Lemma chain_rest_starts terms :
  forallb chain_term terms = true ->
  next_is is_digit (flat_map (fun term => fst term :: snd term) terms) = false /\
  next_is (is_char ".") (flat_map (fun term => fst term :: snd term) terms)
  = false.
Proof.
  destruct terms as [|[op ds] terms']; [auto|].
  simpl. intros H. apply andb_true_iff in H. destruct H as [H _].
  unfold chain_term in H. simpl in H. apply andb_true_iff in H.
  destruct H as [Hop _]. split; revert Hop; by_cases_on_char op.
Qed.

Lemma tokenize_operator fuel op r :
  one_of "+-" op = true ->
  tokenize (S fuel) 0 false (op :: r) =
  ts <- tokenize fuel 0 false r ;; Return (term_token op :: ts).
Proof.
  intros Hop.
  destruct op as [[] [] [] [] [] [] [] []]; try discriminate; reflexivity.
Qed.

Lemma tokenize_chain terms : forall fuel,
  forallb chain_term terms = true ->
  2 * List.length terms < fuel ->
  tokenize fuel 0 false (flat_map (fun term => fst term :: snd term) terms)
  = Return (chain_tokens terms).
Proof.
  induction terms as [|[op ds] terms' IH]; intros fuel Hterms Hfuel.
  - destruct fuel; [lia|]. reflexivity.
  - simpl in Hterms. apply andb_true_iff in Hterms.
    destruct Hterms as [Hterm Hterms'].
    unfold chain_term in Hterm. simpl in Hterm.
    apply andb_true_iff in Hterm. destruct Hterm as [Hop Hds].
    destruct (canonical_integer_digits ds Hds) as (c & t & Eds & _ & Hc).
    destruct (chain_rest_starts terms' Hterms') as [Hnd Hndot].
    destruct fuel as [|[|fuel]]; simpl in Hfuel; try lia.
    cbn [flat_map fst snd app].
    rewrite tokenize_operator by exact Hop.
    rewrite Eds. cbn [app]. rewrite tokenize_number by exact Hc.
    change (c :: t ++ ?r) with ((c :: t) ++ r). rewrite <- Eds.
    rewrite (scan_number_integer ds _ Hds Hnd Hndot). cbn [bind fst snd].
    rewrite IH by (try exact Hterms'; lia). reflexivity.
Qed.

Lemma parse_rest_stops fuel lhs terms :
  forallb chain_term terms = true ->
  parse_rest (S fuel) 2 lhs (chain_tokens terms)
  = Parsed lhs (chain_tokens terms).
Proof.
  destruct terms as [|[op ds] terms']; [reflexivity|].
  simpl. intros H. apply andb_true_iff in H. destruct H as [H _].
  unfold chain_term in H. simpl in H. apply andb_true_iff in H.
  destruct H as [Hop _]. unfold chain_tokens. cbn [flat_map fst snd app].
  destruct op as [[] [] [] [] [] [] [] []]; try discriminate; reflexivity.
Qed.

Lemma parse_chain terms : forall fuel lhs,
  forallb chain_term terms = true ->
  2 * List.length terms < fuel ->
  parse_rest fuel 0 lhs (chain_tokens terms)
  = Parsed (chain_tree lhs terms) [].
Proof.
  induction terms as [|[op ds] terms' IH]; intros fuel lhs Hterms Hfuel.
  - destruct fuel; [lia|]. reflexivity.
  - pose proof Hterms as Hall. simpl in Hterms.
    apply andb_true_iff in Hterms. destruct Hterms as [Hterm Hterms'].
    unfold chain_term in Hterm. simpl in Hterm.
    apply andb_true_iff in Hterm. destruct Hterm as [Hop _].
    destruct fuel as [|[|[|fuel]]]; simpl in Hfuel; try lia.
    assert (Hstep :
      parse_rest (S (S (S fuel))) 0 lhs (chain_tokens ((op, ds) :: terms'))
      = match parse_rest (S fuel) 2
                (Constant (PyInt (int_of_digits ds))) (chain_tokens terms') with
        | Parsed rhs rest' =>
            parse_rest (S (S fuel)) 0 (BinOp lhs (term_binop op) rhs) rest'
        | other => other
        end).
    { unfold chain_tokens. cbn [flat_map fst snd app].
      destruct op as [[] [] [] [] [] [] [] []]; try discriminate; reflexivity. }
    rewrite Hstep, (parse_rest_stops fuel _ terms' Hterms').
    rewrite IH by (try exact Hterms'; lia). reflexivity.
Qed.

Lemma eval_chain terms : forall lhs z,
  forallb chain_term terms = true ->
  eval_expr lhs = Return (PyInt z) ->
  eval_expr (chain_tree lhs terms)
  = Return (PyInt (fold_left
                     (fun acc term =>
                        if is_char "+" (fst term)
                        then (acc + int_of_digits (snd term))%Z
                        else (acc - int_of_digits (snd term))%Z)
                     terms z)).
Proof.
  induction terms as [|[op ds] terms' IH]; intros lhs z Hterms Hl.
  - exact Hl.
  - simpl in Hterms. apply andb_true_iff in Hterms.
    destruct Hterms as [_ Hterms'].
    unfold chain_tree. cbn [fold_left fst snd].
    apply (IH _ _ Hterms'). cbn [eval_expr]. rewrite Hl. cbn [bind].
    unfold term_binop. destruct (is_char "+" op); reflexivity.
Qed.

Lemma chain_tokens_length terms :
  List.length (chain_tokens terms) = 2 * List.length terms.
Proof.
  unfold chain_tokens. induction terms as [|t terms' IH]; [reflexivity|].
  cbn [flat_map app List.length]. rewrite IH. lia.
Qed.

Lemma chain_text_digits_or_operators first terms :
  canonical_integer first = true -> forallb chain_term terms = true ->
  forallb (fun c => is_digit c || one_of "+-" c) (chain_text first terms) = true.
Proof.
  intros Hf Hterms. unfold chain_text. rewrite forallb_app.
  destruct (canonical_integer_digits first Hf) as (_ & _ & _ & Hd & _).
  rewrite (forallb_impl is_digit (fun c => is_digit c || one_of "+-" c) first);
    [|intros c Hc; rewrite Hc; reflexivity|exact Hd].
  induction terms as [|[op ds] terms' IH]; [reflexivity|].
  simpl in Hterms. apply andb_true_iff in Hterms.
  destruct Hterms as [Hterm Hterms'].
  unfold chain_term in Hterm. simpl in Hterm.
  apply andb_true_iff in Hterm. destruct Hterm as [Hop Hds].
  destruct (canonical_integer_digits ds Hds) as (_ & _ & _ & Hdd & _).
  cbn [flat_map fst snd forallb app]. rewrite forallb_app, Hop, orb_true_r.
  rewrite (forallb_impl is_digit (fun c => is_digit c || one_of "+-" c) ds);
    [|intros c Hc; rewrite Hc; reflexivity|exact Hdd].
  simpl. simpl in IH. apply IH. exact Hterms'.
Qed.

(** The fast path matches strings with exactly one operator. *)
Lemma fast_pattern_one_operator s m :
  re_match fast_pattern s = Some m ->
  List.length (filter (one_of "+-*/") s) = 1.
Proof.
  intros H. destruct (fast_pattern_sound _ _ H)
    as (x & w1 & o & w2 & y & t & -> & Hx & Hw1 & Ho & Hw2 & Hy & Ht & _).
  assert (Hnone : forall (f : ascii -> bool) l,
             (forall c, f c = true -> one_of "+-*/" c = false) ->
             forallb f l = true -> filter (one_of "+-*/") l = []).
  { intros f l Hf. induction l as [|c l' IH]; [reflexivity|].
    simpl. intros Hl. apply andb_true_iff in Hl. destruct Hl as [Hc Hl].
    rewrite (Hf c Hc). auto. }
  assert (Hnum : forall c, numchar c = true -> one_of "+-*/" c = false)
    by (intros c; by_cases_on_char c).
  assert (Hsp : forall c, is_space c = true -> one_of "+-*/" c = false)
    by (intros c; by_cases_on_char c).
  rewrite !filter_app.
  rewrite (Hnone _ _ Hnum (number_literal_numchars _ Hx)).
  rewrite (Hnone _ _ Hnum (number_literal_numchars _ Hy)).
  rewrite (Hnone _ _ Hsp Hw1), (Hnone _ _ Hsp Hw2).
  simpl. rewrite Ho.
  destruct t as [|c [|c' t']]; try discriminate; [reflexivity|].
  simpl in Ht. apply Ascii.eqb_eq in Ht. subst c. reflexivity.
Qed.

Lemma chain_operators first terms :
  canonical_integer first = true -> forallb chain_term terms = true ->
  List.length (filter (one_of "+-*/") (chain_text first terms))
  = List.length terms.
Proof.
  intros Hf Hterms. unfold chain_text. rewrite filter_app, length_app.
  assert (Hdig : forall l, forallb is_digit l = true ->
                           filter (one_of "+-*/") l = []).
  { induction l as [|c l' IH]; [reflexivity|].
    simpl. intros Hl. apply andb_true_iff in Hl. destruct Hl as [Hc Hl].
    replace (one_of "+-*/" c) with false
      by (symmetry; revert Hc; by_cases_on_char c). auto. }
  destruct (canonical_integer_digits first Hf) as (_ & _ & _ & Hd & _).
  rewrite (Hdig _ Hd). simpl.
  induction terms as [|[op ds] terms' IH]; [reflexivity|].
  simpl in Hterms. apply andb_true_iff in Hterms.
  destruct Hterms as [Hterm Hterms'].
  unfold chain_term in Hterm. simpl in Hterm.
  apply andb_true_iff in Hterm. destruct Hterm as [Hop Hds].
  destruct (canonical_integer_digits ds Hds) as (_ & _ & _ & Hdd & _).
  cbn [flat_map fst snd app filter].
  replace (one_of "+-*/" op) with true
    by (symmetry; revert Hop; by_cases_on_char op).
  rewrite filter_app, (Hdig _ Hdd). simpl. rewrite IH by exact Hterms'.
  reflexivity.
Qed.

(** X19.  A chain of three or more integers joined by [+] and [-], written
    without leading zeros (at most 4300 digits each, at most 100 operators),
    is computed on the general path exactly, in the integers and from left
    to right; nothing is converted to float, unlike what the fast path does
    with two operands. *)
Theorem evaluate_integer_chain :
  forall (first : pystr) (terms : list (ascii * pystr)),
    canonical_integer first = true ->
    forallb chain_term terms = true ->
    2 <= List.length terms ->
    within_limits first terms = true ->
    evaluate (chain_text first terms)
    = Return (PyInt (chain_value first terms)).
Proof.
  intros first terms Hf Hterms Hlen _.
  pose proof (chain_text_digits_or_operators first terms Hf Hterms) as Hchars.
  assert (Hns : forallb (fun c => negb (is_space c)) (chain_text first terms)
                = true).
  { revert Hchars. apply forallb_impl. intros x. by_cases_on_char x. }
  assert (Hall : forallb allowed_char (chain_text first terms) = true).
  { revert Hchars. apply forallb_impl. intros x. by_cases_on_char x. }
  destruct (canonical_integer_digits first Hf) as (c & t & Ef & Hd & Hc).
  assert (Etext : chain_text first terms
                  = c :: (t ++ flat_map (fun term => fst term :: snd term) terms))
    by (unfold chain_text; rewrite Ef; reflexivity).
  assert (Hrs : remove_spaces (chain_text first terms)
                = c :: (t ++ flat_map (fun term => fst term :: snd term) terms))
    by (rewrite remove_spaces_no_space by exact Hns; exact Etext).
  assert (Hfast : re_match fast_pattern
                    (c :: (t ++ flat_map (fun term => fst term :: snd term) terms))
                  = None).
  { rewrite <- Etext.
    destruct (re_match fast_pattern (chain_text first terms)) as [m|] eqn:E;
      [|reflexivity].
    apply fast_pattern_one_operator in E.
    rewrite (chain_operators first terms Hf Hterms) in E. lia. }
  rewrite (evaluate_no_match _ _ _ Hrs Hfast), <- Etext.
  unfold _safe_eval. rewrite valid_chars_forallb, Hall.
  rewrite Etext at 1. cbn [negb].
  (* eval: the tokens, the tree, the value *)
  destruct (chain_rest_starts terms Hterms) as [Hnd Hndot].
  assert (Heval : py_eval (chain_text first terms)
                  = Return (PyInt (chain_value first terms))).
  { unfold py_eval.
    assert (Hskip : skip_blanks (chain_text first terms) = chain_text first terms).
    { rewrite Etext. simpl.
      replace (Ascii.eqb c SPACE) with false
        by (symmetry; revert Hc; by_cases_on_char c).
      replace (Ascii.eqb c TAB) with false
        by (symmetry; revert Hc; by_cases_on_char c).
      reflexivity. }
    rewrite Hskip.
    assert (Hlong : 2 * List.length terms + 1
                    <= List.length (chain_text first terms)).
    { unfold chain_text. rewrite length_app, Ef. simpl.
      clear -Hterms. induction terms as [|[op ds] terms' IH]; [simpl; lia|].
      simpl in Hterms. apply andb_true_iff in Hterms.
      destruct Hterms as [Hterm Hterms'].
      unfold chain_term in Hterm. simpl in Hterm.
      apply andb_true_iff in Hterm. destruct Hterm as [_ Hds].
      destruct (canonical_integer_digits ds Hds) as (c0 & t0 & -> & _).
      cbn [flat_map fst snd app List.length]. rewrite length_app.
      specialize (IH Hterms'). simpl in *. lia. }
    remember (2 * List.length (chain_text first terms) + 2) as fuel eqn:Efuel.
    destruct fuel as [|[|fuel]]; try lia.
    rewrite Etext at 1.
    rewrite tokenize_line_start, tokenize_number by exact Hc.
    change (c :: t ++ ?r) with ((c :: t) ++ r). rewrite <- Ef.
    rewrite (scan_number_integer first _ Hf Hnd Hndot). cbn [bind fst snd].
    rewrite tokenize_chain by (try exact Hterms; lia). cbn [bind].
    unfold parse. cbn [List.length].
    rewrite chain_tokens_length.
    replace (2 * S (2 * List.length terms) + 2)
      with (S (2 * S (2 * List.length terms) + 1)) by lia.
    cbn [parse_operand].
    rewrite parse_chain by (try exact Hterms; lia).
    cbn [forallb bind]. unfold chain_value.
    apply eval_chain; [exact Hterms|reflexivity]. }
  rewrite Heval. reflexivity.
Qed.

Lemma evaluate_integer_chain_witness :
  canonical_integer "9007199254740993" = true /\
  forallb chain_term [("+"%char, pystr_of_string "0");
                      ("-"%char, pystr_of_string "1")] = true /\
  2 <= List.length [("+"%char, pystr_of_string "0");
                    ("-"%char, pystr_of_string "1")] /\
  within_limits "9007199254740993"
    [("+"%char, pystr_of_string "0"); ("-"%char, pystr_of_string "1")] = true /\
  evaluate "9007199254740993+0-1" = Return (PyInt 9007199254740992).
Proof.
  split; [reflexivity|]. split; [reflexivity|]. split; [apply Nat.le_refl|].
  split; [reflexivity|].
  exact (evaluate_integer_chain "9007199254740993"
           [("+"%char, pystr_of_string "0"); ("-"%char, pystr_of_string "1")]
           eq_refl eq_refl (Nat.le_refl 2) eq_refl).
Defined.
